(** * TinyClaw queue processor: a shallow embedding and its properties

    The development follows the TypeScript sources of the queue processor
    ([queue-processor], [lib/config.ts], [lib/invoke.ts], [lib/runner.ts],
    [lib/types.ts]).  Part I embeds the code, one module per source file;
    Part II states and proves the properties.

    Conventions of the embedding:
    - a JavaScript string is a [string] of 8-bit code units; [length]
      counts code units as [String.prototype.length] does;
    - a JSON number is an integer ([Z]);
    - an optional field [f?: T] is an [option T]; [a || b] on an optional
      value is written out with the JavaScript notion of falsy value;
    - a thrown exception is the left summand of a [sum];
    - the platform is POSIX: [path.sep] is "/" and a path is absolute when
      it starts with "/". *)

From Stdlib Require Import ZArith Strings.String Strings.Ascii Bool Lia.
From stdpp Require Import gmap strings list fin_maps pretty.

Local Open Scope string_scope.
Set Warnings "-register-all".

(* ===================================================================== *)
(** * Part I.  The embedding                                              *)
(* ===================================================================== *)

(** ** JavaScript string primitives used by the sources *)

Module Js.

Definition code (c : ascii) : N := N_of_ascii c.

(** White space as [String.prototype.trim] and the regular expression class
    [\s] see it, among the code units below 256. *)
Definition is_space (c : ascii) : bool :=
  let n := code c in
  ((9 <=? n) && (n <=? 13) || (n =? 32) || (n =? 160))%N.

Definition lower_char (c : ascii) : ascii :=
  let n := code c in
  if ((65 <=? n) && (n <=? 90) ||
      (192 <=? n) && (n <=? 222) && negb (n =? 215))%N
  then ascii_of_N (n + 32) else c.

(** [s.toLowerCase()] *)
Fixpoint toLowerCase (s : string) : string :=
  match s with
  | EmptyString => EmptyString
  | String c s' => String (lower_char c) (toLowerCase s')
  end.

(** [s.startsWith(p)] *)
Fixpoint startsWith (s p : string) {struct p} : bool :=
  match p, s with
  | EmptyString, _ => true
  | String _ _, EmptyString => false
  | String a p', String b s' => Ascii.eqb a b && startsWith s' p'
  end.

(** [s.includes(p)] *)
Fixpoint includes (s p : string) {struct s} : bool :=
  startsWith s p ||
  match s with
  | EmptyString => false
  | String _ s' => includes s' p
  end.

(** [s.slice(n)] for [0 <= n] *)
Fixpoint drop (n : nat) (s : string) : string :=
  match n, s with
  | O, _ => s
  | S _, EmptyString => EmptyString
  | S n', String _ s' => drop n' s'
  end.

(** [s.substring(0, n)] *)
Fixpoint take (n : nat) (s : string) : string :=
  match n, s with
  | O, _ => EmptyString
  | S _, EmptyString => EmptyString
  | S n', String c s' => String c (take n' s')
  end.

(** [s.endsWith(p)] *)
Definition endsWith (s p : string) : bool :=
  (String.length p <=? String.length s)%nat &&
  String.eqb (drop (String.length s - String.length p) s) p.

Fixpoint trimStart (s : string) : string :=
  match s with
  | EmptyString => EmptyString
  | String c s' => if is_space c then trimStart s' else s
  end.

Fixpoint trimEnd (s : string) : string :=
  match s with
  | EmptyString => EmptyString
  | String c s' =>
      match trimEnd s' with
      | EmptyString => if is_space c then EmptyString else String c EmptyString
      | t => String c t
      end
  end.

(** [s.trim()] *)
Definition trim (s : string) : string := trimEnd (trimStart s).

Definition newline : ascii := ascii_of_N 10.
Definition nl : string := String newline EmptyString.

(** [s.split(c)] for a one-character separator *)
Fixpoint split_on (c : ascii) (s : string) : list string :=
  match s with
  | EmptyString => [EmptyString]
  | String a s' =>
      if Ascii.eqb a c then EmptyString :: split_on c s'
      else match split_on c s' with
           | l :: ls => String a l :: ls
           | [] => [String a EmptyString]
           end
  end.

(** [l.join(sep)] *)
Fixpoint join (sep : string) (l : list string) : string :=
  match l with
  | [] => EmptyString
  | [x] => x
  | x :: l' => x ++ sep ++ join sep l'
  end.

(** [a || b] where [a] is an optional string: the empty string is falsy. *)
Definition or_str (a : option string) (b : string) : string :=
  match a with
  | Some (String c s) => String c s
  | _ => b
  end.

(** [a || b] where [a] is an optional number: zero is falsy. *)
Definition or_num (a : option Z) (b : Z) : Z :=
  match a with
  | Some n => if (n =? 0)%Z then b else n
  | None => b
  end.

(** [a || b] where [a] is an optional value of a type without falsy
    inhabitants (the string enumerations of [types.ts]). *)
Definition or_else {A} (a : option A) (b : A) : A :=
  match a with Some x => x | None => b end.

End Js.

(** ** Node's [path] module (POSIX flavour), as far as the sources use it *)

Module Path.
Import Js.

Definition sep : string := "/".

(** [path.isAbsolute(p)] *)
Definition isAbsolute (p : string) : bool := startsWith p sep.

(** The segment stack of [normalizeString]: empty segments and "." are
    dropped, ".." removes the previous segment when there is one that is
    not itself "..", and is kept only above the root of a relative path.
    The stack is kept in reverse order. *)
Fixpoint normalize_segments (allowAboveRoot : bool) (acc segs : list string)
  : list string :=
  match segs with
  | [] => rev acc
  | seg :: segs' =>
      if String.eqb seg EmptyString || String.eqb seg "." then
        normalize_segments allowAboveRoot acc segs'
      else if String.eqb seg ".." then
        match acc with
        | last :: acc' =>
            if String.eqb last ".." then
              normalize_segments allowAboveRoot
                (if allowAboveRoot then seg :: acc else acc) segs'
            else normalize_segments allowAboveRoot acc' segs'
        | [] =>
            normalize_segments allowAboveRoot
              (if allowAboveRoot then [seg] else []) segs'
        end
      else normalize_segments allowAboveRoot (seg :: acc) segs'
  end.

(** [path.normalize(p)] *)
Definition normalize (p : string) : string :=
  match p with
  | EmptyString => "."
  | _ =>
      let abs := isAbsolute p in
      let trailing := endsWith p sep in
      let body := join sep (normalize_segments (negb abs) [] (split_on "/" p)) in
      match body with
      | EmptyString => if abs then "/" else if trailing then "./" else "."
      | _ =>
          let body' := if trailing then body ++ "/" else body in
          if abs then "/" ++ body' else body'
      end
  end.

(** [path.join(a, b)] *)
Definition join2 (a b : string) : string :=
  match a, b with
  | EmptyString, EmptyString => "."
  | EmptyString, _ => normalize b
  | _, EmptyString => normalize a
  | _, _ => normalize (a ++ "/" ++ b)
  end.

(** [path.basename(p, ext)] for a [p] without directory part *)
Definition strip_ext (p ext : string) : string :=
  if endsWith p ext && negb (String.eqb p ext)
  then take (String.length p - String.length ext) p else p.

End Path.

(** ** lib/types.ts *)

Module Types.

Inductive SandboxMode := host | docker | apple.
Inductive SandboxNetwork := net_none | net_restricted | net_default.
Inductive SandboxPathMappingMode := mapped | same_path.

Record AgentConfig := {
  name : string;
  provider : string;
  model : string;
  working_directory : string;
  sandbox_mode : option SandboxMode;
}.

Record TeamConfig := {
  team_name : string;
  agents : list string;
  leader_agent : string;
}.

Record SandboxDockerConfig := {
  d_image : option string;
  d_network : option SandboxNetwork;
  d_memory : option string;
  d_cpus : option string;
  d_pids_limit : option Z;
}.

Record SandboxAppleConfig := {
  a_runtime_command : option string;
  a_image : option string;
  a_network : option SandboxNetwork;
  a_memory : option string;
  a_cpus : option string;
}.

Record SandboxConfig := {
  c_mode : option SandboxMode;
  c_timeout_seconds : option Z;
  c_max_attempts : option Z;
  c_max_concurrency : option Z;
  c_env_allowlist : option (list string);
  c_path_mapping_mode : option SandboxPathMappingMode;
  c_docker : option SandboxDockerConfig;
  c_apple : option SandboxAppleConfig;
}.

Record NormalizedDocker := {
  image : string;
  network : SandboxNetwork;
  memory : string;
  cpus : string;
  pids_limit : Z;
}.

Record NormalizedApple := {
  runtime_command : string;
  apple_image : string;
  apple_network : SandboxNetwork;
  apple_memory : string;
  apple_cpus : string;
}.

Record NormalizedSandboxConfig := {
  mode : SandboxMode;
  timeout_seconds : Z;
  max_attempts : Z;
  max_concurrency : Z;
  env_allowlist : list string;
  path_mapping_mode : SandboxPathMappingMode;
  docker_cfg : NormalizedDocker;
  apple_cfg : NormalizedApple;
}.

Record ChainStep := { agentId : string; response : string }.

(** [Record<string, T>]: a JavaScript object used as a map.  The order of
    the keys is observable ([Object.keys], [Object.entries]), so the map is
    an association list; a key occurs once. *)
Definition Dict (T : Type) := list (string * T).

Fixpoint get {T} (d : Dict T) (k : string) : option T :=
  match d with
  | [] => None
  | (k', v) :: d' => if String.eqb k' k then Some v else get d' k
  end.

Definition keys {T} (d : Dict T) : list string := map fst d.

Record Models := {
  models_provider : option string;
  anthropic_model : option (option string);
  openai_model : option (option string);
}.

Record Settings := {
  workspace_path : option string;
  models : option Models;
  s_agents : option (Dict AgentConfig);
  s_teams : option (Dict TeamConfig);
  sandbox : option SandboxConfig;
}.

Inductive ErrorClass := terminal | transient.

Record MessageData := {
  channel : string;
  sender : string;
  senderId : option string;
  message : string;
  timestamp : Z;
  messageId : string;
  agent : option string;
  files : option (list string);
  attempt : option Z;
  firstSeenAt : option Z;
  errorClass : option ErrorClass;
}.

Record ResponseData := {
  r_channel : string;
  r_sender : string;
  r_message : string;
  r_originalMessage : string;
  r_timestamp : Z;
  r_messageId : string;
  r_agent : option string;
  r_files : option (list string);
}.

End Types.

(** ** lib/config.ts *)

Module Config.
Import Js Types.

Definition DEFAULT_SANDBOX : NormalizedSandboxConfig := {|
  mode := host;
  timeout_seconds := 600;
  max_attempts := 3;
  max_concurrency := 0;
  env_allowlist := ["ANTHROPIC_API_KEY"; "OPENAI_API_KEY"];
  path_mapping_mode := mapped;
  docker_cfg := {|
    image := "tinyclaw/agent-runner:latest";
    network := net_default;
    memory := "2g";
    cpus := "1.0";
    pids_limit := 256 |};
  apple_cfg := {|
    runtime_command := "apple-container";
    apple_image := "tinyclaw/agent-runner:latest";
    apple_network := net_default;
    apple_memory := "2g";
    apple_cpus := "1.0" |};
|}.

(** [settings?.sandbox || {}] *)
Definition empty_sandbox : SandboxConfig := {|
  c_mode := None; c_timeout_seconds := None; c_max_attempts := None;
  c_max_concurrency := None; c_env_allowlist := None;
  c_path_mapping_mode := None; c_docker := None; c_apple := None |}.

(** [configured.docker?.f] *)
Definition opt_field {A B} (o : option A) (f : A -> option B) : option B :=
  match o with Some a => f a | None => None end.

Definition getSandboxConfig (settings : Settings) (agent : option AgentConfig)
  : NormalizedSandboxConfig :=
  let configured := or_else (sandbox settings) empty_sandbox in
  let mode :=
    or_else (opt_field agent sandbox_mode)
      (or_else (c_mode configured) (mode DEFAULT_SANDBOX)) in
  let allowlist :=
    match c_env_allowlist configured with
    | Some (x :: l) => x :: l
    | _ => env_allowlist DEFAULT_SANDBOX
    end in
  {|
    mode := mode;
    timeout_seconds :=
      or_num (c_timeout_seconds configured) (timeout_seconds DEFAULT_SANDBOX);
    max_attempts :=
      or_num (c_max_attempts configured) (max_attempts DEFAULT_SANDBOX);
    max_concurrency :=
      or_num (c_max_concurrency configured) (max_concurrency DEFAULT_SANDBOX);
    env_allowlist := allowlist;
    path_mapping_mode :=
      or_else (c_path_mapping_mode configured)
        (path_mapping_mode DEFAULT_SANDBOX);
    docker_cfg := {|
      image := or_str (opt_field (c_docker configured) d_image)
                 (image (docker_cfg DEFAULT_SANDBOX));
      network := or_else (opt_field (c_docker configured) d_network)
                   (network (docker_cfg DEFAULT_SANDBOX));
      memory := or_str (opt_field (c_docker configured) d_memory)
                  (memory (docker_cfg DEFAULT_SANDBOX));
      cpus := or_str (opt_field (c_docker configured) d_cpus)
                (cpus (docker_cfg DEFAULT_SANDBOX));
      pids_limit := or_num (opt_field (c_docker configured) d_pids_limit)
                      (pids_limit (docker_cfg DEFAULT_SANDBOX)) |};
    apple_cfg := {|
      runtime_command :=
        or_str (opt_field (c_apple configured) a_runtime_command)
          (runtime_command (apple_cfg DEFAULT_SANDBOX));
      apple_image := or_str (opt_field (c_apple configured) a_image)
                       (apple_image (apple_cfg DEFAULT_SANDBOX));
      apple_network := or_else (opt_field (c_apple configured) a_network)
                         (apple_network (apple_cfg DEFAULT_SANDBOX));
      apple_memory := or_str (opt_field (c_apple configured) a_memory)
                        (apple_memory (apple_cfg DEFAULT_SANDBOX));
      apple_cpus := or_str (opt_field (c_apple configured) a_cpus)
                      (apple_cpus (apple_cfg DEFAULT_SANDBOX)) |};
  |}.

(** [getSettings]; [raw] is the parsed settings file, [None] when reading
    or parsing it throws. *)
Definition getSettings (raw : option Settings) : Settings :=
  match raw with
  | None =>
      {| workspace_path := None; models := None; s_agents := None;
         s_teams := None; sandbox := None |}
  | Some settings =>
      match models settings with
      | Some m =>
          match or_str (models_provider m) EmptyString with
          | EmptyString =>
              let detected :=
                match openai_model m, anthropic_model m with
                | Some _, _ => Some "openai"
                | None, Some _ => Some "anthropic"
                | None, None => models_provider m
                end in
              {| workspace_path := workspace_path settings;
                 models := Some {| models_provider := detected;
                                   anthropic_model := anthropic_model m;
                                   openai_model := openai_model m |};
                 s_agents := s_agents settings;
                 s_teams := s_teams settings;
                 sandbox := sandbox settings |}
          | _ => settings
          end
      | None => settings
      end
  end.

Definition getDefaultAgentFromModels (homedir : string) (settings : Settings)
  : AgentConfig :=
  let provider := or_str (opt_field (models settings) models_provider) "anthropic" in
  let model :=
    if String.eqb provider "openai"
    then or_str (opt_field (opt_field (models settings) openai_model) id) "gpt-5.3-codex"
    else or_str (opt_field (opt_field (models settings) anthropic_model) id) "sonnet" in
  let workspacePath :=
    or_str (workspace_path settings) (Path.join2 homedir "tinyclaw-workspace") in
  {| name := "Default"; provider := provider; model := model;
     working_directory := Path.join2 workspacePath "default";
     sandbox_mode := None |}.

Definition getAgents (homedir : string) (settings : Settings) : Dict AgentConfig :=
  match s_agents settings with
  | Some (a :: l) => a :: l
  | _ => [("default", getDefaultAgentFromModels homedir settings)]
  end.

Definition getTeams (settings : Settings) : Dict TeamConfig :=
  or_else (s_teams settings) [].

End Config.


(** ** lib/runner.ts *)

Module Runner.
Import Js Types.

Record SandboxPathMapping := {
  containerPrefix : string;
  hostPrefix : string;
}.

Record InvocationRequest := {
  req_agentId : string;
  req_provider : string;
  command : string;
  args : list string;
  workingDir : string;
  req_sandbox : NormalizedSandboxConfig;
}.

Record InvocationResult := {
  stdout : string;
  stderr : string;
  durationMs : Z;
  res_mode : SandboxMode;
  pathMappings : list SandboxPathMapping;
}.

Record SandboxInvocationError := {
  err_message : string;
  classification : ErrorClass;
  err_mode : SandboxMode;
  remediation : option string;
  userMessage : string;
}.

(** The constructor of the class: [opts.userMessage || '...']. *)
Definition newSandboxInvocationError (message : string) (cls : ErrorClass)
    (mode : SandboxMode) (remediation userMessage : option string)
  : SandboxInvocationError := {|
  err_message := message;
  classification := cls;
  err_mode := mode;
  remediation := remediation;
  userMessage :=
    or_str userMessage
      "Sorry, I could not run this request inside the configured sandbox.";
|}.

(** What a [try] block can catch: a sandbox error, or any other [Error]
    (with its optional [code], such as ENOENT, and its message). *)
Inductive Exn :=
| SandboxError (e : SandboxInvocationError)
| JsError (code : option string) (message : string).

Record ProcessResult := {
  p_stdout : string;
  p_stderr : string;
  p_code : option Z;
  p_timedOut : bool;
  p_durationMs : Z;
}.

(** [runProcess] spawns the child and waits for it: the promise rejects
    with the spawn error or resolves with the collected result.  The child
    is outside the program; it is an oracle here. *)
Definition RunProcess : Type :=
  string -> list string -> string -> Dict string -> Z ->
  (string * string) + ProcessResult.

(** The double quote character, spelled by its code. *)
Definition dq : string := String (ascii_of_N 34) EmptyString.

Definition mode_str (m : SandboxMode) : string :=
  match m with host => "host" | docker => "docker" | apple => "apple" end.

Definition network_str (n : SandboxNetwork) : string :=
  match n with
  | net_none => "none" | net_restricted => "restricted"
  | net_default => "default"
  end.

(** A number or [null] inside a template literal. *)
Definition code_str (c : option Z) : string :=
  match c with Some z => pretty z | None => "null" end.

Definition getRequiredEnv (provider : string) : string :=
  if String.eqb provider "openai" then "OPENAI_API_KEY" else "ANTHROPIC_API_KEY".

(** [env[key] = value] on an object used as a map *)
Fixpoint dict_set {T} (d : Dict T) (k : string) (v : T) : Dict T :=
  match d with
  | [] => [(k, v)]
  | (k', v') :: d' =>
      if String.eqb k' k then (k', v) :: d' else (k', v') :: dict_set d' k v
  end.

Definition buildAllowedEnv (base : Dict string) (allowlist : list string)
  : Dict string :=
  fold_left
    (fun env key =>
       match get base key with
       | Some value => dict_set env key value
       | None => env
       end)
    allowlist [].

Definition dockerNetworkArg (network : string) : string :=
  if String.eqb network "none" then "none" else "bridge".

Definition terminal_patterns : list string :=
  [ "unknown flag";
    "no such file or directory";
    "not found";
    "invalid argument";
    "for " ++ dq ++ "--mount" ++ dq ++ " flag";
    "invalid reference format";
    "permission denied" ].

Definition classifyContainerFailure (stderr : string) : ErrorClass :=
  let text := toLowerCase stderr in
  if includes text "unknown flag" ||
     includes text "no such file or directory" ||
     includes text "not found" ||
     includes text "invalid argument" ||
     includes text ("for " ++ dq ++ "--mount" ++ dq ++ " flag") ||
     includes text "invalid reference format" ||
     includes text "permission denied"
  then terminal
  else transient.

(** [ensureContainerNetworkAllowed]: [Some e] when it throws [e]. *)
Definition ensureContainerNetworkAllowed (mode : SandboxMode) (network : string)
  : option SandboxInvocationError :=
  if String.eqb network "none" then
    Some (newSandboxInvocationError
      ("Sandbox mode " ++ dq ++ mode_str mode ++ dq ++
       " is configured with network=none, which is incompatible with cloud provider CLIs.")
      terminal mode
      (Some ("Set sandbox network to " ++ dq ++ "default" ++ dq ++ " or " ++
             dq ++ "restricted" ++ dq ++ " in settings.json."))
      (Some ("Sandbox network is set to " ++ dq ++ "none" ++ dq ++
             ", so cloud model calls are blocked. Update sandbox network settings and retry.")))
  else None.

Definition getContainerPathMappings (mode : SandboxMode) (hostWorkingDir : string)
    (mappingMode : SandboxPathMappingMode)
  : string * list SandboxPathMapping :=
  match mappingMode with
  | same_path =>
      (hostWorkingDir,
       [{| containerPrefix := hostWorkingDir; hostPrefix := hostWorkingDir |}])
  | mapped =>
      ("/workspace",
       [{| containerPrefix := "/workspace"; hostPrefix := hostWorkingDir |}])
  end.

Definition requiredBinaryForMode (mode : SandboxMode) (request : InvocationRequest)
  : string :=
  match mode with
  | docker => "docker"
  | apple => runtime_command (apple_cfg (req_sandbox request))
  | host => command request
  end.

Definition wrapMissingBinaryError (mode : SandboxMode) (binary : string)
  : SandboxInvocationError :=
  newSandboxInvocationError
    ("Required runtime " ++ dq ++ binary ++ dq ++
     " is not available for sandbox mode " ++ dq ++ mode_str mode ++ dq ++ ".")
    terminal mode
    (Some ("Install " ++ dq ++ binary ++ dq ++ " and run " ++ dq ++
           "tinyclaw sandbox doctor" ++ dq ++ "."))
    (Some ("Sandbox runtime " ++ dq ++ binary ++ dq ++ " is not installed. Run " ++
           dq ++ "tinyclaw sandbox doctor" ++ dq ++ " after installing it.")).

Definition runHost (runProcess : RunProcess) (env : Dict string)
    (request : InvocationRequest) : Exn + InvocationResult :=
  let timeoutMs := (timeout_seconds (req_sandbox request) * 1000)%Z in
  match runProcess (command request) (args request) (workingDir request) env timeoutMs with
  | inl (c, m) => inl (JsError (Some c) m)
  | inr result =>
      if p_timedOut result then
        inl (SandboxError (newSandboxInvocationError
          ("Host invocation timed out after " ++
           pretty (timeout_seconds (req_sandbox request)) ++ "s.")
          transient host
          (Some "Increase sandbox.timeout_seconds or optimize the task.")
          (Some "The request timed out while running on host. Please retry.")))
      else if negb (bool_decide (p_code result = Some 0%Z)) then
        inl (SandboxError (newSandboxInvocationError
          (or_str (Some (trim (p_stderr result)))
             ("Command exited with code " ++ code_str (p_code result)))
          transient host None
          (Some "The provider CLI returned an error. Please retry in a moment.")))
      else
        inr {| stdout := p_stdout result; stderr := p_stderr result;
               durationMs := p_durationMs result; res_mode := host;
               pathMappings := [] |}
  end.

(** The argument vector handed to the container runtime. *)
Definition containerArgs (request : InvocationRequest) (mode : SandboxMode)
    (allowedEnv : Dict string) (containerWorkingDir : string) : list string :=
  let sb := req_sandbox request in
  let is_docker := match mode with docker => true | _ => false end in
  let network := if is_docker then network (docker_cfg sb) else apple_network (apple_cfg sb) in
  let memory := if is_docker then memory (docker_cfg sb) else apple_memory (apple_cfg sb) in
  let cpus := if is_docker then cpus (docker_cfg sb) else apple_cpus (apple_cfg sb) in
  let image := if is_docker then image (docker_cfg sb) else apple_image (apple_cfg sb) in
  let containerHome := Path.join2 containerWorkingDir ".tinyclaw-home" in
  ["run"; "--rm"] ++
  ["--workdir"; containerWorkingDir] ++
  ["--network"; dockerNetworkArg (network_str network)] ++
  ["--memory"; memory] ++
  ["--cpus"; cpus] ++
  (if is_docker then
     ["--pull"; "missing";
      "--pids-limit"; pretty (pids_limit (docker_cfg sb));
      "--security-opt"; "no-new-privileges";
      "--cap-drop"; "ALL";
      "--read-only";
      "--tmpfs"; "/tmp:rw,noexec,nosuid,size=256m"]
   else []) ++
  ["--user"; "1000:1000"] ++
  ["--mount"; "type=bind,src=" ++ workingDir request ++ ",dst=" ++ containerWorkingDir] ++
  ["--env"; "HOME=" ++ containerHome] ++
  flat_map (fun '(key, value) => ["--env"; key ++ "=" ++ value]) allowedEnv ++
  [image] ++
  (command request :: args request).

(** Lines 241-267 of [runContainer]: the checks made before the container
    is started; [Some e] when one of them throws [e]. *)
Definition preflight (env : Dict string) (request : InvocationRequest)
    (mode : SandboxMode) : option SandboxInvocationError :=
  let sb := req_sandbox request in
  let is_docker := match mode with docker => true | _ => false end in
  let network := if is_docker then network (docker_cfg sb) else apple_network (apple_cfg sb) in
  match ensureContainerNetworkAllowed mode (network_str network) with
  | Some e => Some e
  | None =>
      let requiredEnv := getRequiredEnv (req_provider request) in
      let allowedEnv := buildAllowedEnv env (env_allowlist sb) in
      if negb (existsb (String.eqb requiredEnv) (env_allowlist sb)) then
        Some (newSandboxInvocationError
          ("Required API key env " ++ dq ++ requiredEnv ++ dq ++
           " is not in sandbox.env_allowlist.")
          terminal mode
          (Some ("Add " ++ dq ++ requiredEnv ++ dq ++
                 " to sandbox.env_allowlist in settings.json."))
          (Some ("Sandbox is missing required env allowlist entry: " ++
                 requiredEnv ++ ".")))
      else
        match get allowedEnv requiredEnv with
        | None | Some EmptyString =>
            Some (newSandboxInvocationError
              ("Required API key env " ++ dq ++ requiredEnv ++ dq ++ " is not set.")
              terminal mode
              (Some ("Export " ++ requiredEnv ++ " before starting TinyClaw."))
              (Some ("Sandbox requires " ++ requiredEnv ++
                     ", but it is not set in the environment.")))
        | Some _ => None
        end
  end.

(** Lines 325-361 of [runContainer]: what becomes of the collected result
    of the child. *)
Definition containerOutcome (request : InvocationRequest) (mode : SandboxMode)
    (pathMappings : list SandboxPathMapping) (result : ProcessResult)
  : Exn + InvocationResult :=
  let sb := req_sandbox request in
  let is_docker := match mode with docker => true | _ => false end in
  let image := if is_docker then image (docker_cfg sb) else apple_image (apple_cfg sb) in
  if p_timedOut result then
    inl (SandboxError (newSandboxInvocationError
      (mode_str mode ++ " invocation timed out after " ++
       pretty (timeout_seconds sb) ++ "s.")
      transient mode
      (Some "Increase sandbox.timeout_seconds or optimize the task.")
      (Some "Sandbox execution timed out. Please retry.")))
  else if negb (bool_decide (p_code result = Some 0%Z)) then
    let classification := classifyContainerFailure (p_stderr result) in
    inl (SandboxError (newSandboxInvocationError
      (or_str (Some (trim (p_stderr result)))
         (mode_str mode ++ " runtime exited with code " ++ code_str (p_code result)))
      classification mode
      (Some (match classification with
             | terminal =>
                 "Run " ++ dq ++ "tinyclaw sandbox doctor" ++ dq ++
                 " and verify image " ++ dq ++ image ++ dq ++ "."
             | transient =>
                 "Retry after checking " ++ mode_str mode ++ " runtime health."
             end))
      (Some (match classification with
             | terminal =>
                 "Sandbox runtime error in " ++ mode_str mode ++ " mode. Run " ++
                 dq ++ "tinyclaw sandbox doctor" ++ dq ++ "."
             | transient =>
                 "Sandbox execution failed due to a transient runtime issue. Please retry."
             end))))
  else
    inr {| stdout := p_stdout result; stderr := p_stderr result;
           durationMs := p_durationMs result; res_mode := mode;
           pathMappings := pathMappings |}.

(** [runContainer].  Creating the [.tinyclaw-home] directory on the host is
    the one effect of the function besides the child process; it does not
    enter the result and is left out. *)
Definition runContainer (runProcess : RunProcess) (env : Dict string)
    (request : InvocationRequest) (mode : SandboxMode)
  : Exn + InvocationResult :=
  let sb := req_sandbox request in
  let is_docker := match mode with docker => true | _ => false end in
  let runtimeCommand := if is_docker then "docker" else runtime_command (apple_cfg sb) in
  let runtimeBinary := requiredBinaryForMode mode request in
  let timeoutMs := (timeout_seconds sb * 1000)%Z in
  match preflight env request mode with
  | Some e => inl (SandboxError e)
  | None =>
      let allowedEnv := buildAllowedEnv env (env_allowlist sb) in
      let '(containerWorkingDir, pathMappings) :=
        getContainerPathMappings mode (workingDir request) (path_mapping_mode sb) in
      let args := containerArgs request mode allowedEnv containerWorkingDir in
      match runProcess runtimeCommand args (workingDir request) env timeoutMs with
      | inl (c, m) =>
          if String.eqb c "ENOENT" then
            inl (SandboxError (wrapMissingBinaryError mode runtimeBinary))
          else
            inl (SandboxError (newSandboxInvocationError
              ("Failed to start " ++ mode_str mode ++ " runtime: " ++ m)
              terminal mode
              (Some ("Ensure " ++ dq ++ runtimeBinary ++ dq ++
                     " is installed and available in PATH."))
              None))
      | inr result => containerOutcome request mode pathMappings result
      end
  end.

Definition runInSandbox (runProcess : RunProcess) (env : Dict string)
    (request : InvocationRequest) : Exn + InvocationResult :=
  match mode (req_sandbox request) with
  | host => runHost runProcess env request
  | docker => runContainer runProcess env request docker
  | apple => runContainer runProcess env request apple
  end.

End Runner.

(** ** lib/invoke.ts *)

Module Invoke.
Import Js Types.

(** A parsed JSON document.  An object lists its members in order, each key
    once. *)
Inductive json :=
| JNull
| JBool (b : bool)
| JNum (n : Z)
| JStr (s : string)
| JArr (l : list json)
| JObj (members : list (string * json)).

(** A JavaScript value read out of a JSON document: [None] is
    [undefined]. *)
Definition value := option json.

Fixpoint member (ms : list (string * json)) (k : string) : value :=
  match ms with
  | [] => None
  | (k', v) :: ms' => if String.eqb k' k then Some v else member ms' k
  end.

(** [v.k] on a value that is known not to be [null] or [undefined]:
    primitives and arrays have no such property. *)
Definition prop (v : json) (k : string) : value :=
  match v with
  | JObj ms => member ms k
  | _ => None
  end.

(** [v?.k] *)
Definition opt_prop (v : value) (k : string) : value :=
  match v with
  | None | Some JNull => None
  | Some j => prop j k
  end.

(** Truthiness of a value. *)
Definition truthy (v : value) : bool :=
  match v with
  | None | Some JNull => false
  | Some (JBool b) => b
  | Some (JNum n) => negb (n =? 0)%Z
  | Some (JStr s) => negb (String.eqb s EmptyString)
  | Some (JArr _) | Some (JObj _) => true
  end.

Definition is_str (v : value) (s : string) : bool :=
  match v with
  | Some (JStr s') => String.eqb s' s
  | _ => false
  end.

Definition codex_fallback : string :=
  "Sorry, I could not generate a response from Codex.".

(** The body of the [try] in the loop over the lines: [None] when the line
    throws ([JSON.parse] rejects it, or it parses to [null] and reading
    [json.type] throws), otherwise the new value of [response]. *)
Definition codex_line (JSON_parse : string -> option json)
    (response : value) (line : string) : option value :=
  match JSON_parse line with
  | None => None
  | Some JNull => None
  | Some j =>
      if is_str (prop j "type") "item.completed" &&
         is_str (opt_prop (prop j "item") "type") "agent_message"
      then Some (opt_prop (prop j "item") "text")
      else Some response
  end.

Definition codex_step (JSON_parse : string -> option json)
    (response : value) (line : string) : value :=
  match codex_line JSON_parse response line with
  | Some r => r
  | None => response
  end.

(** [parseCodexResponse]; [JSON.parse] is the library's, taken as a
    parameter ([None] when it throws).  The declared result type is
    [string]; at run time the result is whatever [item.text] holds when that
    is truthy. *)
Definition parseCodexResponse (JSON_parse : string -> option json)
    (codexOutput : string) : json :=
  let lines := split_on newline (trim codexOutput) in
  let response := fold_left (codex_step JSON_parse) lines (Some (JStr EmptyString)) in
  if truthy response then
    match response with Some j => j | None => JStr codex_fallback end
  else JStr codex_fallback.

End Invoke.

(** ** queue-processor.ts: outbound file tags and error text *)

Module Outbound.
Import Js Types Runner.

(** [mapping loop of resolveSandboxPath] *)
Fixpoint resolve_in_mappings (existsSync : string -> bool) (trimmed : string)
    (pathMappings : list SandboxPathMapping) : option string :=
  match pathMappings with
  | [] => None
  | mapping :: rest =>
      let prefix :=
        if endsWith (containerPrefix mapping) Path.sep
        then containerPrefix mapping
        else containerPrefix mapping ++ Path.sep in
      if String.eqb trimmed (containerPrefix mapping) || startsWith trimmed prefix
      then
        let sliced := drop (String.length (containerPrefix mapping)) trimmed in
        let suffix :=
          if startsWith sliced "/" || startsWith sliced "\"
          then drop 1 sliced else sliced in
        let hostPath :=
          match suffix with
          | EmptyString => hostPrefix mapping
          | _ => Path.join2 (hostPrefix mapping) suffix
          end in
        if existsSync hostPath then Some hostPath
        else resolve_in_mappings existsSync trimmed rest
      else resolve_in_mappings existsSync trimmed rest
  end.

Definition resolveSandboxPath (existsSync : string -> bool) (filePath : string)
    (pathMappings : list SandboxPathMapping) : option string :=
  let trimmed := trim filePath in
  if negb (Path.isAbsolute trimmed) then None
  else if existsSync trimmed then Some trimmed
  else resolve_in_mappings existsSync trimmed pathMappings.

(** *** The regular expression [/\[send_file:\s*([^\]]+)\]/g] *)

Definition tag_open : string := "[send_file:".

(** The longest run of characters other than "]", and what follows it. *)
Fixpoint span_body (s : string) : string * string :=
  match s with
  | EmptyString => (EmptyString, EmptyString)
  | String c s' =>
      if Ascii.eqb c "]" then (EmptyString, s)
      else let '(b, r) := span_body s' in (String c b, r)
  end.

Fixpoint last_char (s : string) : string :=
  match s with
  | EmptyString => EmptyString
  | String c EmptyString => s
  | String _ s' => last_char s'
  end.

(** The capture group: [\s*] takes the leading white space and the group
    the rest of the body; when the body is white space only, the matcher
    backtracks and leaves the group its last character. *)
Definition capture (body : string) : string :=
  match trimStart body with
  | EmptyString => last_char body
  | r => r
  end.

(** A match of the expression at the start of [s]: the capture group and
    the length of the match. *)
Definition match_send_file (s : string) : option (string * nat) :=
  if startsWith s tag_open then
    match span_body (drop (String.length tag_open) s) with
    | (String c b, String _ _) =>
        Some (capture (String c b),
              String.length tag_open + String.length (String c b) + 1)
    | _ => None
    end
  else None.

Inductive piece :=
| Lit (c : ascii)
| Tag (group : string).

(** Left to right scan for the successive matches; [skip] counts the
    characters of the current match still to be passed over. *)
Fixpoint scan (skip : nat) (s : string) : list piece :=
  match s with
  | EmptyString => []
  | String c s' =>
      match skip with
      | S k => scan k s'
      | O =>
          match match_send_file s with
          | Some (g, len) => Tag g :: scan (len - 1) s'
          | None => Lit c :: scan 0 s'
          end
      end
  end.

(** The capture groups of the successive [exec] calls. *)
Definition groups (ps : list piece) : list string :=
  omap (fun p => match p with Tag g => Some g | Lit _ => None end) ps.

(** [text.replace(fileRefRegex, '')] *)
Fixpoint literals (ps : list piece) : string :=
  match ps with
  | [] => EmptyString
  | Lit c :: ps' => String c (literals ps')
  | Tag _ :: ps' => literals ps'
  end.

(** [files.add(x)] on a [Set], which keeps insertion order *)
Definition set_add (files : list string) (x : string) : list string :=
  if existsb (String.eqb x) files then files else (files ++ [x])%list.

Record ParsedFiles := {
  cleanText : string;
  files : list string;
  missing : list string;
}.

(** One turn of the [while] loop of [parseOutboundFiles]. *)
Definition outbound_step (existsSync : string -> bool)
    (pathMappings : list SandboxPathMapping)
    (acc : list string * list string) (group : string)
  : list string * list string :=
  let rawPath := trim group in
  match resolveSandboxPath existsSync rawPath pathMappings with
  | Some (String c r) => (set_add (fst acc) (String c r), snd acc)
  | _ => (fst acc, (snd acc ++ [rawPath])%list)
  end.

Definition parseOutboundFiles (existsSync : string -> bool)
    (responseText : string) (pathMappings : list SandboxPathMapping)
  : ParsedFiles :=
  let ps := scan 0 responseText in
  let '(files, missing) :=
    fold_left (outbound_step existsSync pathMappings) (groups ps) ([], []) in
  {| cleanText := trim (literals ps); files := files; missing := missing |}.

Definition warning_head : string :=
  "[Warning: Some files could not be found for attachment]".

(** Lines 474-480 of [processMessage]: trim, parse the tags, append the
    warning. *)
Definition attachFiles (existsSync : string -> bool) (finalResponse : string)
    (allPathMappings : list SandboxPathMapping) : string * ParsedFiles :=
  let finalResponse := trim finalResponse in
  let parsedFiles := parseOutboundFiles existsSync finalResponse allPathMappings in
  let finalResponse := cleanText parsedFiles in
  match missing parsedFiles with
  | [] => (finalResponse, parsedFiles)
  | _ =>
      let shown :=
        join nl (map (fun f => "- " ++ f) (firstn 3 (missing parsedFiles))) in
      (trim (finalResponse ++ nl ++ nl ++ warning_head ++ nl ++ shown),
       parsedFiles)
  end.

Definition truncation_marker : string := "[Response truncated...]".

(** Lines 483-485 of [processMessage]. *)
Definition limitLength (finalResponse : string) : string :=
  if (4000 <? String.length finalResponse)%nat
  then take 3900 finalResponse ++ nl ++ nl ++ truncation_marker
  else finalResponse.

(** *** [toSafeErrorMessage] *)

Fixpoint span_nonspace (s : string) : nat :=
  match s with
  | EmptyString => 0
  | String c s' => if is_space c then 0 else S (span_nonspace s')
  end.

(** A match of [/(ANTHROPIC_API_KEY|OPENAI_API_KEY)=\S+/] at the start of
    [s]: the key and the length of the match. *)
Definition match_secret (s : string) : option (string * nat) :=
  let try_key (k : string) :=
    if startsWith s (k ++ "=") then
      match span_nonspace (drop (String.length k + 1) s) with
      | O => None
      | n => Some (k, String.length k + 1 + n)
      end
    else None in
  match try_key "ANTHROPIC_API_KEY" with
  | Some m => Some m
  | None => try_key "OPENAI_API_KEY"
  end.

Fixpoint redact (skip : nat) (s : string) : string :=
  match s with
  | EmptyString => EmptyString
  | String c s' =>
      match skip with
      | S k => redact k s'
      | O =>
          match match_secret s with
          | Some (k, len) => k ++ "=[REDACTED]" ++ redact (len - 1) s'
          | None => String c (redact 0 s')
          end
      end
  end.

(** [error?.message || String(error || 'Unknown error')]: an error with an
    empty message prints as the name of its class. *)
Definition error_text (error : Exn) : string :=
  match error with
  | SandboxError e => or_str (Some (err_message e)) "SandboxInvocationError"
  | JsError _ m => or_str (Some m) "Error"
  end.

Definition toSafeErrorMessage (error : Exn) : string :=
  redact 0 (error_text error).

End Outbound.

(** ** queue-processor.ts: the queue and its files *)

Module Store.
Import Js Types Runner.

Inductive QueueDir :=
| QUEUE_INCOMING | QUEUE_PROCESSING | QUEUE_OUTGOING | QUEUE_DEAD_LETTER.

(** A file system call on the queue directories, as issued. *)
Inductive FsOp :=
| WriteFile (dir : QueueDir) (file : string)
| Rename (src : QueueDir) (file : string) (dst : QueueDir) (file' : string)
| Unlink (dir : QueueDir) (file : string).

(** The content of a file of [incoming] or [processing]: the serialised
    message [JSON.parse] gives back, or text that [JSON.parse] rejects. *)
Inductive QueueFile :=
| MessageFile (m : MessageData)
| Unparseable (text : string).

Record DeadLetter := {
  failedAt : Z;
  dl_errorClass : ErrorClass;
  errorMessage : string;
  dl_attempt : Z;
  maxAttempts : Z;
  payload : option MessageData;
}.

(** The four directories, each a finite map from file name to content,
    and the file system calls issued so far. *)
Record Queue := {
  incoming : gmap string QueueFile;
  processing : gmap string QueueFile;
  outgoing : gmap string ResponseData;
  deadLetter : gmap string DeadLetter;
  oplog : list FsOp;
}.

(** [fs.readdirSync(dir)] *)
Definition readdirSync {A} (dir : gmap string A) : list string :=
  map fst (map_to_list dir).

(** [fs.renameSync(incoming/f, processing/f)]; [None] when it throws. *)
Definition rename_to_processing (f : string) (q : Queue) : option Queue :=
  match incoming q !! f with
  | Some c =>
      Some {| incoming := delete f (incoming q);
              processing := <[f := c]> (processing q);
              outgoing := outgoing q; deadLetter := deadLetter q;
              oplog := oplog q ++ [Rename QUEUE_INCOMING f QUEUE_PROCESSING f] |}
  | None => None
  end.

(** [fs.renameSync(processing/f, incoming/f)]; [None] when it throws. *)
Definition rename_to_incoming (f : string) (q : Queue) : option Queue :=
  match processing q !! f with
  | Some c =>
      Some {| incoming := <[f := c]> (incoming q);
              processing := delete f (processing q);
              outgoing := outgoing q; deadLetter := deadLetter q;
              oplog := oplog q ++ [Rename QUEUE_PROCESSING f QUEUE_INCOMING f] |}
  | None => None
  end.

(** [fs.writeFileSync(processing/f, JSON.stringify(m))] *)
Definition write_processing (f : string) (m : MessageData) (q : Queue) : Queue :=
  {| incoming := incoming q;
     processing := <[f := MessageFile m]> (processing q);
     outgoing := outgoing q; deadLetter := deadLetter q;
     oplog := oplog q ++ [WriteFile QUEUE_PROCESSING f] |}.

(** [fs.unlinkSync(processing/f)]; [None] when it throws. *)
Definition unlink_processing (f : string) (q : Queue) : option Queue :=
  match processing q !! f with
  | Some _ =>
      Some {| incoming := incoming q;
              processing := delete f (processing q);
              outgoing := outgoing q; deadLetter := deadLetter q;
              oplog := oplog q ++ [Unlink QUEUE_PROCESSING f] |}
  | None => None
  end.

(** [writeOutgoingResponse]; [now] is the reading of the clock. *)
Definition writeOutgoingResponse (now : Z) (channel sender message
    originalMessage messageId : string) (agentId : option string)
    (files : option (list string)) (q : Queue) : Queue :=
  let responseData := {|
    r_channel := channel;
    r_sender := sender;
    r_message := message;
    r_originalMessage := originalMessage;
    r_timestamp := now;
    r_messageId := messageId;
    r_agent := agentId;
    r_files := match files with Some (x :: l) => Some (x :: l) | _ => None end;
  |} in
  let responseFile :=
    if String.eqb channel "heartbeat" then messageId ++ ".json"
    else channel ++ "_" ++ messageId ++ "_" ++ pretty now ++ ".json" in
  {| incoming := incoming q; processing := processing q;
     outgoing := <[responseFile := responseData]> (outgoing q);
     deadLetter := deadLetter q;
     oplog := oplog q ++ [WriteFile QUEUE_OUTGOING responseFile] |}.

(** [writeDeadLetter] *)
Definition writeDeadLetter (now : Z) (processingFile : string)
    (payload : option MessageData) (errorClass : ErrorClass)
    (errorMessage : string) (attempt maxAttempts : Z) (q : Queue) : Queue :=
  let base := Path.strip_ext processingFile ".json" in
  let deadLetterFile := base ++ "_" ++ pretty now ++ ".json" in
  let deadLetterData := {|
    failedAt := now;
    dl_errorClass := errorClass;
    errorMessage := errorMessage;
    dl_attempt := attempt;
    maxAttempts := maxAttempts;
    payload := payload;
  |} in
  {| incoming := incoming q; processing := processing q;
     outgoing := outgoing q;
     deadLetter := <[deadLetterFile := deadLetterData]> (deadLetter q);
     oplog := oplog q ++ [WriteFile QUEUE_DEAD_LETTER deadLetterFile] |}.

(** One turn of the loop of [recoverOrphanedFiles]: a failing rename is
    caught and logged. *)
Definition recover_one (q : Queue) (f : string) : Queue :=
  match rename_to_incoming f q with
  | Some q' => q'
  | None => q
  end.

Definition recoverOrphanedFiles (q : Queue) : Queue :=
  fold_left recover_one
    (List.filter (fun f => endsWith f ".json") (readdirSync (processing q))) q.

End Store.

(** ** queue-processor.ts: [processMessage] *)

Module Processor.
Import Js Types Config Runner Outbound Store.

Record AgentInvocationResult := {
  inv_response : string;
  inv_pathMappings : list SandboxPathMapping;
  sandboxMode : SandboxMode;
}.

Record Routing := {
  rt_agentId : string;
  rt_message : string;
  rt_isTeam : bool;
}.

Record Mention := {
  teammateId : string;
  mention_message : string;
}.

(** What [processMessage] reaches outside the queue directories.  [World]
    is the state of the host: its clock, its files outside the queue (reset
    flags, settings, the files agents produce) and the agents' own state.
    [invokeAgent] runs the provider's command line tool; the routing
    functions belong to [lib/routing.ts].  Log lines, events and the chat
    history of a chain go to files outside the queue; a failure to write
    them is caught where it occurs, and they are not part of the state. *)
Record Host := {
  World : Type;
  now : World -> Z;
  existsSync : World -> string -> bool;
  unlinkSync : World -> string -> World;
  readSettings : World -> option Settings;
  invokeAgent :
    World -> AgentConfig -> string -> string -> string -> bool ->
    Dict AgentConfig -> Dict TeamConfig -> Settings ->
    World * (Exn + AgentInvocationResult);
  parseAgentRouting : string -> Dict AgentConfig -> Dict TeamConfig -> Routing;
  extractTeammateMentions :
    string -> string -> string -> Dict TeamConfig -> Dict AgentConfig ->
    list Mention;
  findTeamForAgent : string -> Dict TeamConfig -> option (string * TeamConfig);
  getAgentResetFlag : string -> string -> string;
  RESET_FLAG : string;
  homedir : string;
}.

(** The text handed to a teammate. *)
Definition handoff (fromAgent message : string) : string :=
  "[Message from teammate @" ++ fromAgent ++ "]:" ++ nl ++ message.

(** [Promise.all]: the results in the order of the promises, or a
    rejection. *)
Fixpoint promise_all {A} (rs : list (Exn + A)) : Exn + list A :=
  match rs with
  | [] => inr []
  | inl e :: _ => inl e
  | inr a :: rs' =>
      match promise_all rs' with
      | inl e => inl e
      | inr l => inr (a :: l)
      end
  end.

Section Chain.
Variable H : Host.
Variables (workspacePath : string) (agents : Dict AgentConfig)
  (teams : Dict TeamConfig) (settings : Settings)
  (teamId : string) (shouldReset : bool).

(** The callbacks of the fan-out, started in the order of the mentions.
    The invocations overlap in time; the model lets each one see the host
    as the previous one left it. *)
Fixpoint fanOut (currentAgentId : string) (w : World H) (mentions : list Mention)
  : World H * list (Exn + (ChainStep * list SandboxPathMapping)) :=
  match mentions with
  | [] => (w, [])
  | mention :: rest =>
      match get agents (teammateId mention) with
      | None =>
          let '(w', rs) := fanOut currentAgentId w rest in
          (w', inr ({| agentId := teammateId mention;
                       response := "Error: agent " ++ teammateId mention ++
                                   " not found" |}, []) :: rs)
      | Some mAgent =>
          let mResetFlag := getAgentResetFlag H (teammateId mention) workspacePath in
          let mShouldReset := existsSync H w mResetFlag in
          let w1 := if mShouldReset then unlinkSync H w mResetFlag else w in
          let mMessage := handoff currentAgentId (mention_message mention) in
          let '(w2, r) :=
            invokeAgent H w1 mAgent (teammateId mention) mMessage workspacePath
              mShouldReset agents teams settings in
          let '(w3, rs) := fanOut currentAgentId w2 rest in
          (w3,
           match r with
           | inl e => inl e
           | inr mResult =>
               inr ({| agentId := teammateId mention;
                       response := inv_response mResult |},
                    inv_pathMappings mResult)
           end :: rs)
      end
  end.

(** Lines 334-341: whether this step resets the agent's conversation; its
    reset flag is consumed. *)
Definition stepReset (chainSteps : list ChainStep) (currentAgentId : string)
    (w : World H) : bool * World H :=
  let currentResetFlag := getAgentResetFlag H currentAgentId workspacePath in
  let currentShouldReset :=
    match chainSteps with
    | [] => shouldReset
    | _ => existsSync H w currentResetFlag
    end in
  (currentShouldReset,
   if currentShouldReset && existsSync H w currentResetFlag
   then unlinkSync H w currentResetFlag else w).

(** The chain loop, [while (true)]; [None] when [fuel] turns of the loop
    do not reach a [break]. *)
Fixpoint chainLoop (fuel : nat) (w : World H) (chainSteps : list ChainStep)
    (allPathMappings : list SandboxPathMapping)
    (currentAgentId currentMessage : string)
  : option (World H * (Exn + (list ChainStep * list SandboxPathMapping))) :=
  match fuel with
  | O => None
  | S fuel' =>
      match get agents currentAgentId with
      | None => Some (w, inr (chainSteps, allPathMappings))
      | Some currentAgent =>
          let '(currentShouldReset, w1) := stepReset chainSteps currentAgentId w in
          let '(w2, r) :=
            invokeAgent H w1 currentAgent currentAgentId currentMessage
              workspacePath currentShouldReset agents teams settings in
          match r with
          | inl e => Some (w2, inl e)
          | inr stepResult =>
              let stepResponse := inv_response stepResult in
              let allPathMappings :=
                (allPathMappings ++ inv_pathMappings stepResult)%list in
              let chainSteps :=
                (chainSteps ++ [{| agentId := currentAgentId;
                                   response := stepResponse |}])%list in
              match extractTeammateMentions H stepResponse currentAgentId
                      teamId teams agents with
              | [] => Some (w2, inr (chainSteps, allPathMappings))
              | [mention] =>
                  chainLoop fuel' w2 chainSteps allPathMappings
                    (teammateId mention)
                    (handoff
                       (match last chainSteps with
                        | Some step => agentId step
                        | None => EmptyString
                        end)
                       (mention_message mention))
              | teammateMentions =>
                  let '(w3, results) := fanOut currentAgentId w2 teammateMentions in
                  match promise_all results with
                  | inl e => Some (w3, inl e)
                  | inr fanOutResults =>
                      Some (w3,
                            inr ((chainSteps ++ map fst fanOutResults)%list,
                                 (allPathMappings ++
                                  concat (map snd fanOutResults))%list))
                  end
              end
          end
      end
  end.

End Chain.

(** Lines 426-432: the aggregation of the chain's steps. *)
Definition aggregate (chainSteps : list ChainStep) : string :=
  match chainSteps with
  | [step] => response step
  | _ =>
      join (nl ++ nl ++ "---" ++ nl ++ nl)
        (map (fun step => "@" ++ agentId step ++ ": " ++ response step) chainSteps)
  end.

(** The variables of [processMessage] that its [catch] block reads. *)
Record ErrCtx := {
  messageData : option MessageData;
  settings : Settings;
  agentIdForError : option string;
  rawMessageForError : string;
  senderForError : string;
  channelForError : string;
  messageIdForError : string;
}.

(** How the [try] block ends: it completes, or it throws. *)
Inductive Outcome (W : Type) :=
| Completed (w : W) (q : Queue)
| Thrown (error : Exn) (ctx : ErrCtx) (w : W) (q : Queue).
Arguments Completed {W} w q.
Arguments Thrown {W} error ctx w q.

(** Lines 216-221: defaults written into the parsed message. *)
Definition with_defaults (now : Z) (m : MessageData) : MessageData :=
  {| channel := channel m; sender := sender m; senderId := senderId m;
     message := message m; timestamp := timestamp m;
     messageId := messageId m; agent := agent m; Types.files := Types.files m;
     attempt := Some (or_num (attempt m) 0);
     firstSeenAt :=
       Some (match or_num (firstSeenAt m) 0 with
             | 0%Z => or_num (Some (timestamp m)) now
             | t => t
             end);
     errorClass := errorClass m |}.

(** Lines 281-293: the team the message runs in. *)
Definition teamContextOf (H : Host) (isTeamRouted : bool) (agentId : string)
    (teams : Dict TeamConfig) : option (string * TeamConfig) :=
  let routed :=
    if isTeamRouted then
      List.find
        (fun '(tid, t) =>
           String.eqb (leader_agent t) agentId &&
           existsb (String.eqb agentId) (Types.agents t))
        teams
    else None in
  match routed with
  | Some c => Some c
  | None => findTeamForAgent H agentId teams
  end.

(** Lines 296-303: the reset flags are consumed. *)
Definition consumeReset (H : Host) (agentResetFlag : string) (w : World H)
  : bool * World H :=
  let shouldReset := existsSync H w (RESET_FLAG H) || existsSync H w agentResetFlag in
  if shouldReset then
    let w1 := if existsSync H w (RESET_FLAG H) then unlinkSync H w (RESET_FLAG H) else w in
    let w2 := if existsSync H w1 agentResetFlag then unlinkSync H w1 agentResetFlag else w1 in
    (true, w2)
  else (false, w).

(** Lines 473-501: the response is finished, written, and the message is
    removed from [processing]. *)
Definition deliver (H : Host) (messageFile : string) (ctx : ErrCtx)
    (agentId finalResponse : string)
    (allPathMappings : list SandboxPathMapping) (w : World H) (q : Queue)
  : Outcome (World H) :=
  let '(text, parsedFiles) :=
    attachFiles (existsSync H w) finalResponse allPathMappings in
  let finalResponse := limitLength text in
  let q1 :=
    writeOutgoingResponse (now H w) (channelForError ctx) (senderForError ctx)
      finalResponse (rawMessageForError ctx) (messageIdForError ctx)
      (Some agentId) (Some (Outbound.files parsedFiles)) q in
  match unlink_processing messageFile q1 with
  | Some q2 => Completed w q2
  | None => Thrown (JsError (Some "ENOENT") "no such file or directory, unlink") ctx w q1
  end.

(** The [try] block of [processMessage]; [messageFile] is the name of the
    file in [incoming].  [None] when the chain does not end within
    [fuel] turns. *)
Definition tryBlock (H : Host) (fuel : nat) (messageFile : string)
    (w : World H) (q : Queue) : option (Outcome (World H)) :=
  let ctx0 := {|
    messageData := None;
    settings := getSettings (readSettings H w);
    agentIdForError := None;
    rawMessageForError := EmptyString;
    senderForError := EmptyString;
    channelForError := EmptyString;
    messageIdForError := EmptyString |} in
  match rename_to_processing messageFile q with
  | None =>
      Some (Thrown (JsError (Some "ENOENT") "no such file or directory, rename") ctx0 w q)
  | Some q1 =>
  match processing q1 !! messageFile with
  | None | Some (Unparseable _) =>
      Some (Thrown (JsError None "Unexpected token in JSON") ctx0 w q1)
  | Some (MessageFile parsed) =>
  let parsedMessageData := with_defaults (now H w) parsed in
  let rawMessage := message parsedMessageData in
  let settings := getSettings (readSettings H w) in
  let ctx1 := {|
    messageData := Some parsedMessageData;
    settings := settings;
    agentIdForError := None;
    rawMessageForError := rawMessage;
    senderForError := sender parsedMessageData;
    channelForError := channel parsedMessageData;
    messageIdForError := messageId parsedMessageData |} in
  let agents := getAgents (homedir H) settings in
  let teams := getTeams settings in
  let workspacePath :=
    or_str (workspace_path settings) (Path.join2 (homedir H) "tinyclaw-workspace") in
  let preRouted :=
    match agent parsedMessageData with
    | Some (String c a) =>
        match get agents (String c a) with
        | Some _ => Some (String c a)
        | None => None
        end
    | _ => None
    end in
  let '(agentId, msg, isTeamRouted) :=
    match preRouted with
    | Some a => (a, rawMessage, false)
    | None =>
        let routing := parseAgentRouting H rawMessage agents teams in
        (rt_agentId routing, rt_message routing, rt_isTeam routing)
    end in
  if String.eqb agentId "error" then
    let q2 :=
      writeOutgoingResponse (now H w) (channel parsedMessageData)
        (sender parsedMessageData) msg rawMessage
        (messageId parsedMessageData) None None q1 in
    match unlink_processing messageFile q2 with
    | Some q3 => Some (Completed w q3)
    | None =>
        Some (Thrown (JsError (Some "ENOENT") "no such file or directory, unlink") ctx1 w q2)
    end
  else
  let '(agentId, msg) :=
    match get agents agentId with
    | Some _ => (agentId, msg)
    | None => ("default", rawMessage)
    end in
  let agentId :=
    match get agents agentId with
    | Some _ => agentId
    | None => match keys agents with k :: _ => k | [] => "undefined" end
    end in
  let ctx2 := {|
    messageData := Some parsedMessageData;
    settings := settings;
    agentIdForError := Some agentId;
    rawMessageForError := rawMessage;
    senderForError := sender parsedMessageData;
    channelForError := channel parsedMessageData;
    messageIdForError := messageId parsedMessageData |} in
  match get agents agentId with
  | None =>
      Some (Thrown (JsError None "Cannot read properties of undefined") ctx2 w q1)
  | Some agent =>
  let teamContext := teamContextOf H isTeamRouted agentId teams in
  let agentResetFlag := getAgentResetFlag H agentId workspacePath in
  let '(shouldReset, w1) := consumeReset H agentResetFlag w in
  match teamContext with
  | None =>
      let '(w2, r) :=
        invokeAgent H w1 agent agentId msg workspacePath shouldReset agents
          teams settings in
      match r with
      | inl e => Some (Thrown e ctx2 w2 q1)
      | inr result =>
          Some (deliver H messageFile ctx2 agentId (inv_response result)
                  (inv_pathMappings result) w2 q1)
      end
  | Some (teamId, team) =>
      match chainLoop H workspacePath agents teams settings teamId shouldReset
              fuel w1 [] [] agentId msg with
      | None => None
      | Some (w2, inl e) => Some (Thrown e ctx2 w2 q1)
      | Some (w2, inr (chainSteps, allPathMappings)) =>
          Some (deliver H messageFile ctx2 agentId (aggregate chainSteps)
                  allPathMappings w2 q1)
      end
  end
  end
  end
  end.

(** Lines 517-529: the retry.  The message goes back to [incoming] with
    its counter set. *)
Definition requeue (now : Z) (messageFile : string) (md : MessageData)
    (attempt : Z) (q : Queue) : option Queue :=
  let md' :=
    {| channel := channel md; sender := sender md; senderId := senderId md;
       message := message md; timestamp := timestamp md;
       messageId := messageId md; agent := agent md; Types.files := Types.files md;
       attempt := Some attempt;
       firstSeenAt :=
         Some (match or_num (firstSeenAt md) 0 with 0%Z => now | t => t end);
       errorClass := Some transient |} in
  rename_to_incoming messageFile (write_processing messageFile md' q).

(** The [catch] block of [processMessage]. *)
Definition catchBlock (H : Host) (messageFile : string) (error : Exn)
    (ctx : ErrCtx) (w : World H) (q : Queue) : Queue :=
  let safeError := toSafeErrorMessage error in
  let errorClass :=
    match error with
    | SandboxError e => classification e
    | JsError _ _ => transient
    end in
  let maxAttempts := max_attempts (getSandboxConfig (settings ctx) None) in
  let attempt := (or_num (opt_field (messageData ctx) attempt) 0 + 1)%Z in
  let terminal :=
    match errorClass with Types.terminal => true | transient => false end in
  let exceededRetries := (maxAttempts <=? attempt)%Z in
  let retried :=
    if negb terminal && negb exceededRetries then
      match messageData ctx, processing q !! messageFile with
      | Some md, Some _ => requeue (now H w) messageFile md attempt q
      | _, _ => None
      end
    else None in
  match retried with
  | Some q' => q'
  | None =>
      let q1 :=
        writeDeadLetter (now H w) messageFile (messageData ctx)
          (if terminal then Types.terminal else transient)
          safeError attempt maxAttempts q in
      let userMessage :=
        match error with
        | SandboxError e => userMessage e
        | JsError _ _ =>
            if terminal then
              "Sandbox execution failed due to a configuration error. Run " ++
              dq ++ "tinyclaw sandbox doctor" ++ dq ++ "."
            else
              "Sorry, I encountered repeated execution failures and moved this message to the dead-letter queue."
        end in
      let q2 :=
        match messageData ctx, channelForError ctx, senderForError ctx,
              messageIdForError ctx with
        | Some md, String _ _, String _ _, String _ _ =>
            writeOutgoingResponse (now H w) (channelForError ctx)
              (senderForError ctx) userMessage
              (or_str (Some (rawMessageForError ctx)) (message md))
              (messageIdForError ctx) (agentIdForError ctx) None q1
        | _, _, _, _ => q1
        end in
      match unlink_processing messageFile q2 with
      | Some q3 => q3
      | None => q2
      end
  end.

Definition processMessage (H : Host) (fuel : nat) (messageFile : string)
    (w : World H) (q : Queue) : option (World H * Queue) :=
  match tryBlock H fuel messageFile w q with
  | None => None
  | Some (Completed w' q') => Some (w', q')
  | Some (Thrown error ctx w' q') =>
      Some (w', catchBlock H messageFile error ctx w' q')
  end.

(** The main program up to the first tick of the polling loop. *)
Definition startup (q : Queue) : Queue := recoverOrphanedFiles q.

End Processor.

(** ** Vocabulary of the statements *)

Module Spec.
Import Js Types Config Runner.

(** [p] occurs in [s]. *)
Definition occurs_in (p s : string) : Prop :=
  exists pre post, s = pre ++ p ++ post.

(** The command line [runContainer] starts: the runtime and its
    arguments. *)
Definition container_runtime (request : InvocationRequest) (mode : SandboxMode)
  : string :=
  match mode with
  | docker => "docker"
  | _ => runtime_command (apple_cfg (req_sandbox request))
  end.

Definition container_argv (env : Dict string) (request : InvocationRequest)
    (mode : SandboxMode) : list string :=
  containerArgs request mode
    (buildAllowedEnv env (env_allowlist (req_sandbox request)))
    (fst (getContainerPathMappings mode (workingDir request)
            (path_mapping_mode (req_sandbox request)))).

(** The standard error output carries one of the signatures of a failure
    that a retry cannot repair. *)
Definition has_terminal_signature (stderr : string) : Prop :=
  exists p, In p terminal_patterns /\ occurs_in p (toLowerCase stderr).

(** The value a settings document configures under [sandbox.max_attempts]. *)
Definition configured_max_attempts (settings : Settings) : option Z :=
  opt_field (sandbox settings) c_max_attempts.

Definition configured_timeout_seconds (settings : Settings) : option Z :=
  opt_field (sandbox settings) c_timeout_seconds.

(** The paths named by the [[send_file: <path>]] tags of a text, in the
    order of the tags. *)
Definition tagged_paths (text : string) : list string :=
  map trim (Outbound.groups (Outbound.scan 0 text)).

(** The text outside the tags. *)
Definition untagged_text (text : string) : string :=
  Outbound.literals (Outbound.scan 0 text).

(** [body] can stand between "[send_file:" and "]": it is not empty and
    holds no "]". *)
Definition tag_body (body : string) : Prop :=
  body <> EmptyString /\ ~ occurs_in "]" body.

Definition starts_with_tag (s : string) : Prop :=
  exists body rest,
    tag_body body /\ s = Outbound.tag_open ++ body ++ "]" ++ rest.

(** [tagging text paths outside]: reading [text] from the left, the tags
    found name [paths] and the characters outside the tags spell
    [outside].  A tag begins at the first position where one can begin and
    the reading resumes after its "]". *)
Inductive tagging : string -> list string -> string -> Prop :=
| tagging_end : tagging EmptyString [] EmptyString
| tagging_tag (body rest : string) (paths : list string) (outside : string) :
    tag_body body -> tagging rest paths outside ->
    tagging (Outbound.tag_open ++ body ++ "]" ++ rest) (trim body :: paths) outside
| tagging_char (c : ascii) (s : string) (paths : list string) (outside : string) :
    ~ starts_with_tag (String c s) -> tagging s paths outside ->
    tagging (String c s) paths (String c outside).

(** [prefix] is a prefix of [path] that ends where a path segment ends. *)
Definition at_boundary (prefix path : string) : Prop :=
  path = prefix \/
  (exists rest, path = prefix ++ "/" ++ rest) \/
  (endsWith prefix "/" = true /\ exists rest, path = prefix ++ rest).

(** [path] with the container prefix of [mapping] replaced by its host
    prefix. *)
Definition rewritten (mapping : SandboxPathMapping) (path : string) : string :=
  let rest := drop (String.length (containerPrefix mapping)) path in
  let rest := if startsWith rest "/" || startsWith rest "\" then drop 1 rest else rest in
  match rest with
  | EmptyString => hostPrefix mapping
  | _ => Path.join2 (hostPrefix mapping) rest
  end.

(** [mapping] translates [path] to a file that exists on the host. *)
Definition usable (existsSync : string -> bool) (path : string)
    (mapping : SandboxPathMapping) : Prop :=
  at_boundary (containerPrefix mapping) path /\
  existsSync (rewritten mapping path) = true.

(** The host file a tagged path is attached as, if any. *)
Definition attachable (existsSync : string -> bool)
    (pathMappings : list SandboxPathMapping) (rawPath : string) : option string :=
  match Outbound.resolveSandboxPath existsSync rawPath pathMappings with
  | Some (String c r) => Some (String c r)
  | _ => None
  end.

Definition is_missing (existsSync : string -> bool)
    (pathMappings : list SandboxPathMapping) (rawPath : string) : bool :=
  match attachable existsSync pathMappings rawPath with
  | Some _ => false
  | None => true
  end.

(** The warning appended for the missing paths: the first three, one to a
    line. *)
Definition warning (missing : list string) : string :=
  Outbound.warning_head ++ nl ++
  join nl (map (fun f => "- " ++ f) (firstn 3 missing)).

(** The last line of a text. *)
Definition last_line (s : string) : string :=
  default EmptyString (last (split_on newline s)).

(** [file] was put into [dir] by a rename. *)
Definition renamed_into_place (log : list Store.FsOp) (dir : Store.QueueDir)
    (file : string) : Prop :=
  exists src tmp, In (Store.Rename src tmp dir file) log.

(** The queue a [try] block leaves behind. *)
Definition queue_after {W} (o : Processor.Outcome W) : Store.Queue :=
  match o with
  | Processor.Completed _ q => q
  | Processor.Thrown _ _ _ q => q
  end.



(** The separator between the steps of an aggregated response. *)
Definition step_separator : string := nl ++ nl ++ "---" ++ nl ++ nl.


(** [line] is an NDJSON line of type "item.completed" whose item has
    type "agent_message"; [text] is what the item holds under "text"
    ([None] when it has no such member). *)
Definition is_agent_message (JSON_parse : string -> option Invoke.json)
    (line : string) (text : Invoke.value) : Prop :=
  exists members item,
    JSON_parse line = Some (Invoke.JObj members) /\
    Invoke.member members "type" = Some (Invoke.JStr "item.completed") /\
    Invoke.member members "item" = Some (Invoke.JObj item) /\
    Invoke.member item "type" = Some (Invoke.JStr "agent_message") /\
    Invoke.member item "text" = text.

End Spec.


(** ** Concrete inputs on which the definitions are run *)

Module Example.
Import Js Types Config Runner Store Processor.

Definition settings_zero_attempts : Settings := {|
  workspace_path := None; models := None; s_agents := None; s_teams := None;
  sandbox := Some {|
    c_mode := None; c_timeout_seconds := Some 0%Z; c_max_attempts := Some 0%Z;
    c_max_concurrency := None; c_env_allowlist := None;
    c_path_mapping_mode := None; c_docker := None; c_apple := None |} |}.

Definition sandbox_docker : NormalizedSandboxConfig := {|
  mode := docker;
  timeout_seconds := 600;
  max_attempts := 3;
  max_concurrency := 0;
  env_allowlist := ["ANTHROPIC_API_KEY"; "OPENAI_API_KEY"];
  path_mapping_mode := mapped;
  docker_cfg := docker_cfg DEFAULT_SANDBOX;
  apple_cfg := apple_cfg DEFAULT_SANDBOX |}.

Definition request_docker : InvocationRequest := {|
  req_agentId := "coder";
  req_provider := "openai";
  command := "codex";
  args := ["exec"; "--json"; "hello"];
  workingDir := "/home/u/ws/coder";
  req_sandbox := sandbox_docker |}.

Definition env_with_keys : Dict string :=
  [("HOME", "/home/u"); ("OPENAI_API_KEY", "sk-1")].

Definition exited (code : option Z) (stderr : string) : ProcessResult := {|
  p_stdout := EmptyString; p_stderr := stderr; p_code := code; p_timedOut := false;
  p_durationMs := 12 |}.

Definition killed_on_timeout (stderr : string) : ProcessResult := {|
  p_stdout := EmptyString; p_stderr := stderr; p_code := None; p_timedOut := true;
  p_durationMs := 600000 |}.

(** A host on which the agent's file exists under its working directory,
    and a file of the same name in the processor's current directory. *)
Definition host_files (p : string) : bool :=
  String.eqb p "/home/u/ws/coder/out.png" || String.eqb p "out.png".

Definition mapped_workspace : list SandboxPathMapping :=
  [{| containerPrefix := "/workspace"; hostPrefix := "/home/u/ws/coder" |}].

Definition reply_with_tags : string :=
  "done [send_file: /workspace/out.png] [send_file: /workspace/gone.txt]" ++
  " [send_file:/workspace/out.png ]".

Definition reply_with_relative_tag : string :=
  "see [send_file: out.png]".

Definition reply_with_four_relative_tags : string :=
  "[send_file: p1.txt] [send_file: p2.txt] [send_file: p3.txt] [send_file: p4.txt]".

(** *** A small installation: settings, agents, one team *)

Definition toy_agent (name : string) : AgentConfig := {|
  name := name; provider := "anthropic"; model := "sonnet";
  working_directory := "/home/u/ws/" ++ name; sandbox_mode := None |}.

Definition toy_settings_with (sb : option SandboxConfig) : Settings := {|
  workspace_path := Some "/home/u/ws";
  models := None;
  s_agents := Some [("default", toy_agent "default");
                    ("lead", toy_agent "lead");
                    ("coder", toy_agent "coder");
                    ("a", toy_agent "a");
                    ("b", toy_agent "b");
                    ("flaky", toy_agent "flaky");
                    ("broken", toy_agent "broken");
                    ("long", toy_agent "long")];
  s_teams := Some [("dev", {| team_name := "Dev";
                              agents := ["lead"; "coder"; "a"; "b"];
                              leader_agent := "lead" |})];
  sandbox := sb |}.

Definition toy_settings : Settings := toy_settings_with None.

Definition toy_error (cls : ErrorClass) (message : string) : Exn :=
  SandboxError (newSandboxInvocationError message cls docker None None).

(** What the agents of the installation answer. *)
Definition toy_reply (agentId message : string) : Exn + string :=
  if String.eqb agentId "lead" then
    if String.eqb message "plan this" then inr "@coder implement X"
    else if String.eqb message "split this" then inr "@a @b go"
    else inr "ok"
  else if String.eqb agentId "coder" then inr "done"
  else if String.eqb agentId "a" then inr "a is done, @coder should check"
  else if String.eqb agentId "b" then inr "b is done"
  else if String.eqb agentId "flaky" then
    inl (toy_error transient "temporary network failure")
  else if String.eqb agentId "broken" then
    inl (toy_error terminal "invalid reference format")
  else if String.eqb agentId "long" then
    inr (String.concat EmptyString (repeat "a" 3950))
  else inr ("hello " ++ message).

(** Stand-ins for the functions of [lib/routing.ts]: the first word selects
    the agent or the team; a mention is a word "@id" naming another member
    of the team. *)
Definition toy_routing (rawMessage : string) (agents : Dict AgentConfig)
    (teams : Dict TeamConfig) : Routing :=
  match split_on " " rawMessage with
  | String "@" token :: _ =>
      let rest := trim (drop (String.length token + 1) rawMessage) in
      match get agents token, get teams token with
      | Some _, _ => {| rt_agentId := token; rt_message := rest; rt_isTeam := false |}
      | None, Some t =>
          {| rt_agentId := leader_agent t; rt_message := rest; rt_isTeam := true |}
      | None, None =>
          {| rt_agentId := "default"; rt_message := rawMessage; rt_isTeam := false |}
      end
  | _ => {| rt_agentId := "default"; rt_message := rawMessage; rt_isTeam := false |}
  end.

Definition toy_mentions (response selfId teamId : string)
    (teams : Dict TeamConfig) (agents : Dict AgentConfig) : list Mention :=
  match get teams teamId with
  | None => []
  | Some team =>
      omap
        (fun word =>
           match word with
           | String "@" id =>
               if existsb (String.eqb id) (Types.agents team) &&
                  negb (String.eqb id selfId) &&
                  match get agents id with Some _ => true | None => false end
               then Some {| teammateId := id; mention_message := response |}
               else None
           | _ => None
           end)
        (split_on " " response)
  end.

Definition toy_team_of (agentId : string) (teams : Dict TeamConfig)
  : option (string * TeamConfig) :=
  List.find (fun '(_, t) => existsb (String.eqb agentId) (Types.agents t)) teams.

(** The host: the state of the world is the reading of its clock, which
    every invocation advances. *)
Definition toy_host_with (settings : Settings) : Host := {|
  World := Z;
  now := fun w => w;
  existsSync := fun _ p => host_files p;
  unlinkSync := fun w _ => w;
  readSettings := fun _ => Some settings;
  invokeAgent := fun w agent agentId message _ _ _ _ _ =>
    ((w + 1)%Z,
     match toy_reply agentId message with
     | inl e => inl e
     | inr text =>
         inr {| inv_response := text;
                inv_pathMappings := mapped_workspace;
                sandboxMode := docker |}
     end);
  parseAgentRouting := toy_routing;
  extractTeammateMentions := toy_mentions;
  findTeamForAgent := toy_team_of;
  getAgentResetFlag := fun agentId workspacePath =>
    Path.join2 (Path.join2 workspacePath agentId) "reset_flag";
  RESET_FLAG := "/home/u/.tinyclaw/reset_flag";
  homedir := "/home/u";
|}.

Definition toy_host : Host := toy_host_with toy_settings.

(** The same installation with [sandbox.max_attempts] set to 0. *)
Definition toy_host_zero_attempts : Host :=
  toy_host_with (toy_settings_with (sandbox settings_zero_attempts)).

Definition toy_message (id text : string) (attempt : option Z) : MessageData := {|
  channel := "telegram"; sender := "u"; senderId := None;
  message := text; timestamp := 1000; messageId := id;
  agent := None; Types.files := None;
  attempt := attempt; firstSeenAt := None; errorClass := None |}.

Definition empty_queue : Queue := {|
  incoming := ∅; processing := ∅; outgoing := ∅; deadLetter := ∅; oplog := [] |}.

(** A queue with one file in [incoming]. *)
Definition queue_with (file : string) (content : QueueFile) : Queue := {|
  incoming := {[ file := content ]};
  processing := ∅; outgoing := ∅; deadLetter := ∅; oplog := [] |}.

(** A queue whose one message has been claimed. *)
Definition in_processing_queue : Queue := {|
  incoming := ∅;
  processing := {[ "m.json" := MessageFile (toy_message "m1" "hello" None) ]};
  outgoing := ∅; deadLetter := ∅; oplog := [] |}.

(** A [processing] directory left behind by a crash, with a stray file. *)
Definition crashed_queue : Queue := {|
  incoming := {[ "m0.json" := MessageFile (toy_message "m0" "hello" None) ]};
  processing := {[ "m1.json" := MessageFile (toy_message "m1" "hi" (Some 1%Z));
                   "notes.txt" := Unparseable "scratch" ]};
  outgoing := ∅; deadLetter := ∅; oplog := [] |}.

Definition toy_ctx : ErrCtx := {|
  messageData := Some (toy_message "m1" "hello" None);
  settings := toy_settings;
  agentIdForError := Some "default";
  rawMessageForError := "hello";
  senderForError := "u";
  channelForError := "telegram";
  messageIdForError := "m1" |}.

(** The chain loop of the toy installation, for the team "dev". *)
Definition toy_chain (fuel : nat) (w : Z) (chainSteps : list ChainStep)
    (allPathMappings : list SandboxPathMapping)
    (currentAgentId currentMessage : string) :=
  chainLoop toy_host "/home/u/ws" (getAgents "/home/u" toy_settings)
    (getTeams toy_settings) toy_settings "dev" false fuel w chainSteps
    allPathMappings currentAgentId currentMessage.


Definition step (agentId response : string) : ChainStep :=
  {| agentId := agentId; response := response |}.

(** One message in [incoming], processed once by the toy installation. *)
Definition processed (content : QueueFile) : option (Z * Queue) :=
  processMessage toy_host 10 "m.json" 5000%Z (queue_with "m.json" content).

Definition processed_text (text : string) : option (Z * Queue) :=
  processed (MessageFile (toy_message "m1" text None)).

(** A stand-in for [JSON.parse] on a small vocabulary of lines:
    "msg:<text>" stands for a completed agent message with that text,
    "started" for an event of another type, "null" for the JSON [null];
    any other line is rejected. *)
Definition toy_parse (line : string) : option Invoke.json :=
  if startsWith line "msg:" then
    Some (Invoke.JObj
            [("type", Invoke.JStr "item.completed");
             ("item", Invoke.JObj [("type", Invoke.JStr "agent_message");
                                   ("text", Invoke.JStr (drop 4 line))])])
  else if String.eqb line "started" then
    Some (Invoke.JObj [("type", Invoke.JStr "turn.started")])
  else if String.eqb line "null" then Some Invoke.JNull
  else None.

Definition codex_output_empty_last : string :=
  "started" ++ nl ++ "msg:first answer" ++ nl ++ "msg:" ++ nl ++ "not json" ++ nl.

End Example.

(** ** lib/types.ts and lib/config.ts: model names *)

Module Models.
Import Js Types.

Definition CLAUDE_MODEL_IDS : Dict string :=
  [("sonnet", "claude-sonnet-4-5");
   ("opus", "claude-opus-4-6");
   ("claude-sonnet-4-5", "claude-sonnet-4-5");
   ("claude-opus-4-6", "claude-opus-4-6")].

Definition CODEX_MODEL_IDS : Dict string :=
  [("gpt-5.2", "gpt-5.2");
   ("gpt-5.3-codex", "gpt-5.3-codex")].

(** [CLAUDE_MODEL_IDS[model] || model || ''] *)
Definition resolveClaudeModel (model : string) : string :=
  or_str (get CLAUDE_MODEL_IDS model) (or_str (Some model) EmptyString).

(** [CODEX_MODEL_IDS[model] || model || ''] *)
Definition resolveCodexModel (model : string) : string :=
  or_str (get CODEX_MODEL_IDS model) (or_str (Some model) EmptyString).

End Models.

(** ** lib/invoke.ts: [invokeAgent] *)

Module Invocation.
Import Js Types Config Runner Invoke Models.

(** The result of an invocation.  The response is declared a string; for
    Codex it is what [parseCodexResponse] returns. *)
Record AgentInvocationResult := {
  response : json;
  pathMappings : list SandboxPathMapping;
  sandboxMode : SandboxMode;
}.

(** Lines 79-83: the directory the provider runs in. *)
Definition resolveWorkingDir (agent : AgentConfig) (agentId workspacePath : string)
  : string :=
  let agentDir := Path.join2 workspacePath agentId in
  match working_directory agent with
  | EmptyString => agentDir
  | wd => if Path.isAbsolute wd then wd else Path.join2 workspacePath wd
  end.

(** Lines 89-130: the provider's command and its arguments. *)
Definition providerCommand (provider model message : string) (shouldReset : bool)
  : string * list string :=
  if String.eqb provider "openai" then
    let modelId := resolveCodexModel model in
    let shouldResume := negb shouldReset in
    ("codex",
     (["exec"] ++
      (if shouldResume then ["resume"; "--last"] else []) ++
      (match modelId with EmptyString => [] | _ => ["--model"; modelId] end) ++
      ["--skip-git-repo-check"; "--dangerously-bypass-approvals-and-sandbox";
       "--json"; message])%list)
  else
    let modelId := resolveClaudeModel model in
    let continueConversation := negb shouldReset in
    ("claude",
     (["--dangerously-skip-permissions"] ++
      (match modelId with EmptyString => [] | _ => ["--model"; modelId] end) ++
      (if continueConversation then ["-c"] else []) ++
      ["-p"; message])%list).

(** [invokeAgent] from the resolution of the working directory on (line 78).
    What precedes it prepares the agent's directory through
    [lib/agent-setup.ts]; the events are not part of the result; the permit
    of [withSandboxPermit] delays the call and does not change it.  The
    caller always passes its settings. *)
Definition invokeAgent (runProcess : RunProcess) (env : Dict string)
    (JSON_parse : string -> option json)
    (agent : AgentConfig) (agentId message workspacePath : string)
    (shouldReset : bool) (settings : Settings)
  : Exn + AgentInvocationResult :=
  let workingDir := resolveWorkingDir agent agentId workspacePath in
  let provider := or_str (Some (provider agent)) "anthropic" in
  let sandbox := getSandboxConfig settings (Some agent) in
  let '(command, args) := providerCommand provider (model agent) message shouldReset in
  match runInSandbox runProcess env
          {| req_agentId := agentId; req_provider := provider;
             command := command; args := args; workingDir := workingDir;
             req_sandbox := sandbox |} with
  | inr result =>
      inr {| response :=
               if String.eqb provider "openai"
               then parseCodexResponse JSON_parse (stdout result)
               else JStr (stdout result);
             pathMappings := Runner.pathMappings result;
             sandboxMode := res_mode result |}
  | inl (SandboxError e) => inl (SandboxError e)
  | inl (JsError _ m) =>
      inl (SandboxError
             (newSandboxInvocationError m transient (mode sandbox) None
                (Some "Sandbox execution failed unexpectedly. Please retry.")))
  end.

End Invocation.

(** ** queue-processor.ts: [shouldLogHeartbeatError] *)

Module Heartbeat.
Import Js.

Definition HEARTBEAT_ERROR_DEDUPE_MS : Z := 60000.

(** [shouldLogHeartbeatError]; [cache] is [heartbeatErrorCache], [now] the
    reading of the clock.  The answer comes with the cache as the call
    leaves it. *)
Definition shouldLogHeartbeatError (now : Z) (message : string)
    (cache : gmap string Z) : bool * gmap string Z :=
  let key := take 160 message in
  let lastSeen := or_num (cache !! key) 0 in
  if (now - lastSeen <? HEARTBEAT_ERROR_DEDUPE_MS)%Z then (false, cache)
  else (true, <[key := now]> cache).

End Heartbeat.

(** ** Further vocabulary and inputs *)

Module Terms.
Import Js Types Config Runner.

(** Every member of a normalised sandbox configuration that [||] could
    replace holds a truthy value. *)
Definition complete (n : NormalizedSandboxConfig) : Prop :=
  timeout_seconds n <> 0%Z /\ max_attempts n <> 0%Z /\
  env_allowlist n <> [] /\
  image (docker_cfg n) <> EmptyString /\ memory (docker_cfg n) <> EmptyString /\
  cpus (docker_cfg n) <> EmptyString /\ pids_limit (docker_cfg n) <> 0%Z /\
  runtime_command (apple_cfg n) <> EmptyString /\
  apple_image (apple_cfg n) <> EmptyString /\
  apple_memory (apple_cfg n) <> EmptyString /\
  apple_cpus (apple_cfg n) <> EmptyString.

(** The [sandbox] section that spells out every member of [n]. *)
Definition as_configured (n : NormalizedSandboxConfig) : SandboxConfig := {|
  c_mode := Some (mode n);
  c_timeout_seconds := Some (timeout_seconds n);
  c_max_attempts := Some (max_attempts n);
  c_max_concurrency := Some (max_concurrency n);
  c_env_allowlist := Some (env_allowlist n);
  c_path_mapping_mode := Some (path_mapping_mode n);
  c_docker := Some {|
    d_image := Some (image (docker_cfg n));
    d_network := Some (network (docker_cfg n));
    d_memory := Some (memory (docker_cfg n));
    d_cpus := Some (cpus (docker_cfg n));
    d_pids_limit := Some (pids_limit (docker_cfg n)) |};
  c_apple := Some {|
    a_runtime_command := Some (runtime_command (apple_cfg n));
    a_image := Some (apple_image (apple_cfg n));
    a_network := Some (apple_network (apple_cfg n));
    a_memory := Some (apple_memory (apple_cfg n));
    a_cpus := Some (apple_cpus (apple_cfg n)) |};
|}.

(** An agent that does not override the sandbox mode. *)
Definition no_override (agent : option AgentConfig) : Prop :=
  opt_field agent sandbox_mode = None.

End Terms.

(** ** What handling one message does to the queue *)

Module Trace.
Import Js Types Store.

(** A response is written to [outgoing] and the message file is removed
    from [processing]. *)
Definition answered (f : string) (q q' : Queue) : Prop :=
  exists responseFile responseData,
    incoming q' = incoming q /\
    processing q' = delete f (processing q) /\
    outgoing q' = <[responseFile := responseData]> (outgoing q) /\
    deadLetter q' = deadLetter q /\
    oplog q' =
      (oplog q ++ [WriteFile QUEUE_OUTGOING responseFile;
                   Unlink QUEUE_PROCESSING f])%list.

(** The message file is rewritten in [processing] and moved back to
    [incoming]. *)
Definition requeued (f : string) (q q' : Queue) : Prop :=
  exists md',
    incoming q' = <[f := MessageFile md']> (incoming q) /\
    processing q' = delete f (processing q) /\
    outgoing q' = outgoing q /\
    deadLetter q' = deadLetter q /\
    oplog q' =
      (oplog q ++ [WriteFile QUEUE_PROCESSING f;
                   Rename QUEUE_PROCESSING f QUEUE_INCOMING f])%list.

(** A dead-letter record is written, then possibly a reply to the sender,
    and the message file is removed from [processing] if it is there. *)
Definition dead_lettered (f : string) (q q' : Queue) : Prop :=
  exists deadLetterFile deadLetterData replies,
    incoming q' = incoming q /\
    processing q' = delete f (processing q) /\
    deadLetter q' = <[deadLetterFile := deadLetterData]> (deadLetter q) /\
    ((replies = [] /\ outgoing q' = outgoing q) \/
     (exists responseFile responseData,
        replies = [WriteFile QUEUE_OUTGOING responseFile] /\
        outgoing q' = <[responseFile := responseData]> (outgoing q))) /\
    oplog q' =
      (oplog q ++ WriteFile QUEUE_DEAD_LETTER deadLetterFile :: replies ++
       match processing q !! f with
       | Some _ => [Unlink QUEUE_PROCESSING f]
       | None => []
       end)%list.

End Trace.

(** ** queue-processor.ts: the agent a queued message is filed under *)

Module Dispatch.
Import Js Types Config Store Processor.

(** [peekAgentId]; [content] is what [incoming] holds under the file's
    name.  A file that is missing or that [JSON.parse] rejects ends in the
    [catch] and gives "default". *)
Definition peekAgentId (H : Host) (w : World H) (content : option QueueFile)
  : string :=
  match content with
  | Some (MessageFile messageData) =>
      let settings := getSettings (readSettings H w) in
      let agents := getAgents (homedir H) settings in
      let teams := getTeams settings in
      let preRouted :=
        match agent messageData with
        | Some (String c a) =>
            match get agents (String c a) with
            | Some _ => Some (String c a)
            | None => None
            end
        | _ => None
        end in
      match preRouted with
      | Some a => a
      | None =>
          let routing :=
            parseAgentRouting H (or_str (Some (message messageData)) EmptyString)
              agents teams in
          or_str (Some (rt_agentId routing)) "default"
      end
  | _ => "default"
  end.

End Dispatch.

(* ===================================================================== *)
(** * Part II.  Properties                                                *)
(* ===================================================================== *)


(** ** The string primitives *)

Section StringFacts.
Import Js.

Lemma startsWith_spec (s p : string) :
  startsWith s p = true <-> exists r, s = p ++ r.
Proof.
  revert s. induction p as [|a p IH]; intros s; simpl.
  - split; [intros _; exists s; reflexivity | reflexivity].
  - destruct s as [|b s].
    + split; [discriminate | intros [r Hr]; discriminate].
    + rewrite andb_true_iff, Ascii.eqb_eq, IH. split.
      * intros [-> [r ->]]. exists r. reflexivity.
      * intros [r Hr]. injection Hr as -> ->. split; [reflexivity | eauto].
Qed.

Lemma includes_spec (s p : string) :
  includes s p = true <-> Spec.occurs_in p s.
Proof.
  unfold Spec.occurs_in. induction s as [|c s IH].
  - cbn [includes]. rewrite orb_false_r, startsWith_spec. split.
    + intros [r Hr]. exists EmptyString, r. exact Hr.
    + intros [pre [post H]]. destruct pre; [|discriminate].
      exists post. exact H.
  - cbn [includes]. rewrite orb_true_iff, startsWith_spec, IH. split.
    + intros [[r Hr] | [pre [post H]]].
      * exists EmptyString, r. exact Hr.
      * exists (String c pre), post. simpl. rewrite H. reflexivity.
    + intros [pre [post H]]. destruct pre as [|c' pre].
      * left. exists post. exact H.
      * right. simpl in H. injection H as _ H. eauto.
Qed.

Lemma append_cons (x : ascii) (a b : string) :
  String x a ++ b = String x (a ++ b).
Proof. reflexivity. Qed.

Lemma append_nil_l (a : string) : EmptyString ++ a = a.
Proof. reflexivity. Qed.

Lemma append_assoc (a b c : string) : (a ++ b) ++ c = a ++ b ++ c.
Proof.
  induction a as [|x a IH]; [reflexivity |].
  rewrite !append_cons, IH. reflexivity.
Qed.

Lemma append_nil_r (a : string) : a ++ EmptyString = a.
Proof.
  induction a as [|x a IH]; [reflexivity |].
  rewrite append_cons, IH. reflexivity.
Qed.

Lemma length_append (a b : string) :
  String.length (a ++ b) = (String.length a + String.length b)%nat.
Proof.
  induction a as [|x a IH]; [reflexivity |].
  rewrite append_cons. cbn [String.length]. rewrite IH. reflexivity.
Qed.

Lemma length_take (n : nat) (s : string) :
  String.length (take n s) = Nat.min n (String.length s).
Proof.
  revert s. induction n as [|n IH]; intros [|c s]; simpl; try reflexivity.
  rewrite IH. reflexivity.
Qed.

Lemma drop_append (a b : string) : drop (String.length a) (a ++ b) = b.
Proof. induction a as [|x a IH]; [reflexivity | exact IH]. Qed.

Lemma existsb_eqb_In (x : string) (l : list string) :
  existsb (String.eqb x) l = true <-> In x l.
Proof.
  rewrite existsb_exists. split.
  - intros [y [Hin Hy]]. apply String.eqb_eq in Hy. subst. exact Hin.
  - intros Hin. exists x. split; [exact Hin | apply String.eqb_refl].
Qed.

End StringFacts.

(** ** lib/config.ts: the normalised sandbox configuration *)

Section ConfigProperties.
Import Js Types Config Spec Example.

(** C9.  The normalised [max_attempts] is the configured number when that
    number is not zero, and 3 otherwise (no [sandbox] section, no
    [max_attempts] member, or the value 0); it is therefore never 0, so the
    retry budget of a message always admits its first attempt.
    [timeout_seconds] is normalised the same way, with 600 in place of a
    missing value or of 0. *)
Theorem getSandboxConfig_max_attempts_nonzero
    (settings : Settings) (agent : option AgentConfig) :
  let cfg := getSandboxConfig settings agent in
  (forall n, configured_max_attempts settings = Some n -> n <> 0%Z ->
             max_attempts cfg = n) /\
  (configured_max_attempts settings = None \/
   configured_max_attempts settings = Some 0%Z -> max_attempts cfg = 3%Z) /\
  max_attempts cfg <> 0%Z /\
  (forall n, configured_timeout_seconds settings = Some n -> n <> 0%Z ->
             timeout_seconds cfg = n) /\
  (configured_timeout_seconds settings = None \/
   configured_timeout_seconds settings = Some 0%Z ->
   timeout_seconds cfg = 600%Z) /\
  timeout_seconds cfg <> 0%Z.
Proof.
  unfold configured_max_attempts, configured_timeout_seconds.
  destruct settings as [wp ms ag tm [sb|]]; cbn.
  - destruct sb as [md [t|] [a|] mc al pm dk ap]; cbn;
      repeat match goal with
      | |- context [Z.eqb ?x 0] => destruct (Z.eqb_spec x 0)
      end; subst;
      repeat split; intros; try congruence; try lia;
      repeat match goal with
      | H : _ \/ _ |- _ => destruct H
      end; congruence.
  - repeat split; intros; try congruence; lia.
Qed.

Lemma getSandboxConfig_max_attempts_nonzero_witness :
  max_attempts (getSandboxConfig settings_zero_attempts None) = 3%Z /\
  timeout_seconds (getSandboxConfig settings_zero_attempts None) = 600%Z.
Proof.
  pose proof (getSandboxConfig_max_attempts_nonzero settings_zero_attempts None)
    as (_ & Hm & _ & _ & Ht & _).
  split; [apply Hm | apply Ht]; right; reflexivity.
Defined.

(** With [max_attempts] configured as 0 the budget is 3: a first transient
    failure is retried, not dead-lettered. *)
Example zero_max_attempts_still_retries :
  match Processor.processMessage toy_host_zero_attempts 10 "m.json" 5000%Z
          (queue_with "m.json"
             (Store.MessageFile (toy_message "m1" "@flaky x" None))) with
  | Some (_, q) =>
      is_Some (Store.incoming q !! "m.json") /\ Store.deadLetter q = ∅
  | None => False
  end.
Proof. vm_compute. split; [eauto | reflexivity]. Qed.

End ConfigProperties.

(** ** lib/runner.ts: classification of container failures *)

Section RunnerProperties.
Import Js Types Runner.

Lemma classify_as_existsb (stderr : string) :
  classifyContainerFailure stderr =
  if existsb (includes (toLowerCase stderr)) terminal_patterns
  then terminal else transient.
Proof.
  unfold classifyContainerFailure, terminal_patterns. cbn [existsb].
  rewrite orb_false_r, !orb_assoc. reflexivity.
Qed.

Lemma classify_terminal_iff (stderr : string) :
  classifyContainerFailure stderr = terminal <->
  Spec.has_terminal_signature stderr.
Proof.
  rewrite classify_as_existsb. unfold Spec.has_terminal_signature.
  destruct (existsb _ _) eqn:E.
  - split; [intros _ | reflexivity].
    apply existsb_exists in E as [p [Hin Hp]].
    exists p. split; [exact Hin | apply includes_spec, Hp].
  - split; [discriminate |].
    intros [p [Hin Hp]]. exfalso.
    assert (existsb (includes (toLowerCase stderr)) terminal_patterns = true)
      as E'; [| congruence].
    apply existsb_exists. exists p. split; [exact Hin | apply includes_spec, Hp].
Qed.

End RunnerProperties.

Section ContainerFailure.
Import Js Types Runner Example.

(** C6.  A container invocation that passes the checks made before the
    start and whose child is collected: when the child timed out the error
    is transient; when it did not and its exit code is not 0, the error is
    terminal exactly when the lower-cased standard error output contains
    one of the seven signatures, and transient otherwise. *)
Theorem runContainer_failure_classification
    (runProcess : RunProcess) (env : Dict string)
    (request : InvocationRequest) (mode : SandboxMode) (result : ProcessResult) :
  preflight env request mode = None ->
  runProcess (Spec.container_runtime request mode)
    (Spec.container_argv env request mode) (workingDir request) env
    (timeout_seconds (req_sandbox request) * 1000)%Z = inr result ->
  (p_timedOut result = true ->
   exists e, runContainer runProcess env request mode = inl (SandboxError e) /\
             classification e = transient) /\
  (p_timedOut result = false -> p_code result <> Some 0%Z ->
   exists e, runContainer runProcess env request mode = inl (SandboxError e) /\
             (classification e = terminal <->
              Spec.has_terminal_signature (p_stderr result)) /\
             (classification e = transient <->
              ~ Spec.has_terminal_signature (p_stderr result))).
Proof.
  intros Hpre Hrun. unfold runContainer. rewrite Hpre.
  unfold Spec.container_argv, Spec.container_runtime in Hrun.
  destruct (getContainerPathMappings _ _ _) as [cwd pm]. cbn [fst] in Hrun.
  replace (if match mode with docker => true | _ => false end
           then "docker" else runtime_command (apple_cfg (req_sandbox request)))
    with (match mode with
          | docker => "docker"
          | _ => runtime_command (apple_cfg (req_sandbox request))
          end) by (destruct mode; reflexivity).
  rewrite Hrun. unfold containerOutcome. split.
  - intros ->. eexists. split; reflexivity.
  - intros -> Hcode.
    rewrite bool_decide_eq_false_2 by exact Hcode. cbn [negb].
    eexists. split; [reflexivity |]. cbn [classification newSandboxInvocationError].
    pose proof (classify_terminal_iff (p_stderr result)) as Hiff.
    split; [exact Hiff |].
    destruct (classifyContainerFailure (p_stderr result)); split; intros Ht.
    + discriminate.
    + exfalso. apply Ht, Hiff. reflexivity.
    + intros Hs. apply Hiff in Hs. discriminate.
    + reflexivity.
Qed.

Lemma runContainer_failure_classification_witness :
  (exists e,
     runContainer (fun _ _ _ _ _ => inr (killed_on_timeout "not found"))
       env_with_keys request_docker docker = inl (SandboxError e) /\
     classification e = transient) /\
  (exists e,
     runContainer
       (fun _ _ _ _ _ =>
          inr (exited (Some 125%Z) "docker: Error: image Not Found"))
       env_with_keys request_docker docker = inl (SandboxError e) /\
     classification e = terminal).
Proof.
  split.
  - apply (runContainer_failure_classification
             (fun _ _ _ _ _ => inr (killed_on_timeout "not found"))
             env_with_keys request_docker docker (killed_on_timeout "not found"));
      reflexivity.
  - destruct (runContainer_failure_classification
                (fun _ _ _ _ _ =>
                   inr (exited (Some 125%Z) "docker: Error: image Not Found"))
                env_with_keys request_docker docker
                (exited (Some 125%Z) "docker: Error: image Not Found")
                eq_refl eq_refl) as [_ H].
    destruct (H eq_refl ltac:(discriminate)) as [e [He [Hterm _]]].
    exists e. split; [exact He |].
    injection He as <-. reflexivity.
Defined.

(** The fourth and fifth scenarios of the specification, at the runner. *)
Example temporary_network_failure_is_transient :
  classifyContainerFailure "temporary network failure" = transient.
Proof. reflexivity. Qed.

Example invalid_reference_format_is_terminal :
  classifyContainerFailure "docker: Invalid Reference Format." = terminal.
Proof. reflexivity. Qed.

End ContainerFailure.

(** ** lib/invoke.ts: the response of Codex *)

Section CodexResponse.
Import Js Types Invoke Example.
Variable JSON_parse : string -> option json.

Lemma is_str_true (v : value) (s : string) :
  is_str v s = true -> v = Some (JStr s).
Proof.
  destruct v as [[]|]; cbn; try discriminate.
  intros H. apply String.eqb_eq in H. congruence.
Qed.

Lemma codex_step_other (response : value) (line : string) :
  (forall text, ~ Spec.is_agent_message JSON_parse line text) ->
  codex_step JSON_parse response line = response.
Proof.
  intros Hno. unfold codex_step, codex_line.
  destruct (JSON_parse line) as [j|] eqn:Hp; [|reflexivity].
  destruct j as [| b | n | s | l | ms]; try reflexivity. cbn [prop].
  destruct (is_str (member ms "type") "item.completed") eqn:Ht; [|reflexivity].
  destruct (is_str (opt_prop (member ms "item") "type") "agent_message") eqn:Hi;
    [|reflexivity].
  exfalso. apply is_str_true in Ht. apply is_str_true in Hi.
  destruct (member ms "item") as [[| b | n | s | l | item]|] eqn:Hitem;
    try discriminate.
  apply (Hno (member item "text")). exists ms, item. auto.
Qed.

Lemma codex_step_agent_message (response text : value) (line : string) :
  Spec.is_agent_message JSON_parse line text ->
  codex_step JSON_parse response line = text.
Proof.
  intros (ms & item & Hp & Ht & Hitem & Hit & Htext).
  unfold codex_step, codex_line. rewrite Hp. cbn [prop].
  rewrite Ht, Hitem. cbn. rewrite Hit. cbn. exact Htext.
Qed.

Lemma fold_codex_other (lines : list string) (response : value) :
  (forall l text, In l lines -> ~ Spec.is_agent_message JSON_parse l text) ->
  fold_left (codex_step JSON_parse) lines response = response.
Proof.
  revert response. induction lines as [|l lines IH]; intros response Hno.
  - reflexivity.
  - cbn [fold_left]. rewrite codex_step_other.
    + apply IH. intros l' text Hin. apply Hno. right. exact Hin.
    + intros text. apply Hno. left. reflexivity.
Qed.

(** C8.  [parseCodexResponse] gives the fixed fallback text when no line
    of the output is a completed agent message, and also when the last
    line that is one holds the empty string as its text, whatever the
    earlier lines held. *)
Theorem parseCodexResponse_fallback (codexOutput : string) :
  let lines := split_on newline (trim codexOutput) in
  ((forall l text, In l lines -> ~ Spec.is_agent_message JSON_parse l text) ->
   parseCodexResponse JSON_parse codexOutput = JStr codex_fallback) /\
  (forall before line after,
     lines = (before ++ line :: after)%list ->
     Spec.is_agent_message JSON_parse line (Some (JStr EmptyString)) ->
     (forall l text, In l after -> ~ Spec.is_agent_message JSON_parse l text) ->
     parseCodexResponse JSON_parse codexOutput = JStr codex_fallback).
Proof.
  cbv zeta. unfold parseCodexResponse. split.
  - intros Hno. rewrite fold_codex_other by exact Hno. reflexivity.
  - intros before line after -> Hline Hafter.
    rewrite fold_left_app. cbn [fold_left].
    rewrite (codex_step_agent_message _ (Some (JStr EmptyString)) line Hline).
    rewrite fold_codex_other by exact Hafter. reflexivity.
Qed.

End CodexResponse.

Section CodexResponseExample.
Import Js Types Invoke Example.

Lemma parseCodexResponse_fallback_witness :
  parseCodexResponse toy_parse codex_output_empty_last = JStr codex_fallback.
Proof.
  apply (parseCodexResponse_fallback toy_parse codex_output_empty_last)
    with (before := ["started"; "msg:first answer"]) (line := "msg:")
         (after := ["not json"]).
  - reflexivity.
  - exists [("type", JStr "item.completed");
            ("item", JObj [("type", JStr "agent_message"); ("text", JStr EmptyString)])],
           [("type", JStr "agent_message"); ("text", JStr EmptyString)].
    repeat split; reflexivity.
  - intros l text [<- | []] (ms & item & Hp & _). discriminate.
Defined.

Example parseCodexResponse_last_wins :
  parseCodexResponse toy_parse ("msg:" ++ nl ++ "msg:second") = JStr "second".
Proof. reflexivity. Qed.

End CodexResponseExample.

(** ** queue-processor.ts: outbound file tags *)

Section TrimFacts.
Import Js.

Lemma trimEnd_idem (s : string) : trimEnd (trimEnd s) = trimEnd s.
Proof.
  induction s as [|c s IH]; [reflexivity |].
  cbn [trimEnd]. destruct (trimEnd s) as [|d u] eqn:E.
  - destruct (is_space c) eqn:Hc; [reflexivity |].
    cbn [trimEnd]. rewrite Hc. reflexivity.
  - cbn [trimEnd]. cbn [trimEnd] in IH. rewrite IH. reflexivity.
Qed.

Lemma trimStart_head (s : string) (c : ascii) (r : string) :
  trimStart s = String c r -> is_space c = false.
Proof.
  induction s as [|a s IH]; cbn [trimStart]; [discriminate |].
  destruct (is_space a) eqn:Ha; [exact IH |].
  intros H. injection H as <- _. exact Ha.
Qed.

Lemma trimStart_nonspace (s : string) (c : ascii) :
  is_space c = false -> trimStart (String c s) = String c s.
Proof. intros H. cbn [trimStart]. rewrite H. reflexivity. Qed.

Lemma trimEnd_head (s : string) (c : ascii) :
  is_space c = false -> exists r, trimEnd (String c s) = String c r.
Proof.
  intros H. cbn [trimEnd]. destruct (trimEnd s).
  - rewrite H. eauto.
  - eauto.
Qed.

Lemma trim_idem (s : string) : trim (trim s) = trim s.
Proof.
  unfold trim. destruct (trimStart s) as [|c r] eqn:E; [reflexivity |].
  pose proof (trimStart_head _ _ _ E) as Hc.
  destruct (trimEnd_head r c Hc) as [r' Hr]. rewrite Hr.
  rewrite trimStart_nonspace by exact Hc. rewrite <- Hr. apply trimEnd_idem.
Qed.

End TrimFacts.

Section ResolveFacts.
Import Js Types Runner Outbound.
Variable existsSync : string -> bool.

Lemma boundary_test (cp t : string) :
  String.eqb t cp ||
  startsWith t (if endsWith cp Path.sep then cp else cp ++ Path.sep) = true <->
  Spec.at_boundary cp t.
Proof.
  unfold Spec.at_boundary, Path.sep.
  rewrite orb_true_iff, String.eqb_eq, startsWith_spec.
  destruct (endsWith cp "/") eqn:E.
  - split.
    + intros [H | [r H]]; [left; exact H | right; right; eauto].
    + intros [H | [[r H] | [_ [r H]]]]; [left; exact H | right | right; eauto].
      exists ("/" ++ r). exact H.
  - split.
    + intros [H | [r H]]; [left; exact H | right; left].
      exists r. rewrite H. apply append_assoc.
    + intros [H | [[r H] | [H _]]]; [left; exact H | right | discriminate].
      exists r. rewrite H. symmetry. apply append_assoc.
Qed.

Lemma resolve_in_mappings_cons (t : string) (m : SandboxPathMapping)
    (rest : list SandboxPathMapping) :
  resolve_in_mappings existsSync t (m :: rest) =
  if String.eqb t (containerPrefix m) ||
     startsWith t (if endsWith (containerPrefix m) Path.sep
                   then containerPrefix m else containerPrefix m ++ Path.sep)
  then if existsSync (Spec.rewritten m t) then Some (Spec.rewritten m t)
       else resolve_in_mappings existsSync t rest
  else resolve_in_mappings existsSync t rest.
Proof. reflexivity. Qed.

Lemma resolve_in_mappings_usable (t : string) (m : SandboxPathMapping)
    (rest : list SandboxPathMapping) :
  Spec.usable existsSync t m ->
  resolve_in_mappings existsSync t (m :: rest) = Some (Spec.rewritten m t).
Proof.
  intros [Hb He]. rewrite resolve_in_mappings_cons.
  apply boundary_test in Hb. rewrite Hb, He. reflexivity.
Qed.

Lemma resolve_in_mappings_unusable (t : string) (m : SandboxPathMapping)
    (rest : list SandboxPathMapping) :
  ~ Spec.usable existsSync t m ->
  resolve_in_mappings existsSync t (m :: rest) =
  resolve_in_mappings existsSync t rest.
Proof.
  intros Hn. rewrite resolve_in_mappings_cons.
  destruct (_ || _) eqn:Hb; [|reflexivity].
  destruct (existsSync (Spec.rewritten m t)) eqn:He; [|reflexivity].
  exfalso. apply Hn. split; [apply boundary_test, Hb | exact He].
Qed.

Lemma classic_usable (t : string) (m : SandboxPathMapping) :
  Spec.usable existsSync t m \/ ~ Spec.usable existsSync t m.
Proof.
  unfold Spec.usable.
  destruct (String.eqb t (containerPrefix m) ||
            startsWith t (if endsWith (containerPrefix m) Path.sep
                          then containerPrefix m
                          else containerPrefix m ++ Path.sep)) eqn:Hb.
  - destruct (existsSync (Spec.rewritten m t)) eqn:He.
    + left. split; [apply boundary_test, Hb | reflexivity].
    + right. intros [_ H]. discriminate.
  - right. intros [H _]. apply boundary_test in H. congruence.
Qed.

(** The loop over the mappings returns the translation by the first
    usable mapping. *)
Lemma resolve_in_mappings_first (t : string) (ms : list SandboxPathMapping)
    (h : string) :
  resolve_in_mappings existsSync t ms = Some h <->
  exists ms1 m ms2,
    ms = (ms1 ++ m :: ms2)%list /\
    Forall (fun m' => ~ Spec.usable existsSync t m') ms1 /\
    Spec.usable existsSync t m /\ h = Spec.rewritten m t.
Proof.
  induction ms as [|m0 rest IH].
  - split; [discriminate |]. intros (ms1 & m & ms2 & H & _).
    destruct ms1; discriminate.
  - destruct (classic_usable t m0) as [Hu | Hn].
    + rewrite resolve_in_mappings_usable by exact Hu. split.
      * intros H. injection H as <-. exists [], m0, rest.
        repeat split; [constructor | apply Hu | apply Hu].
      * intros (ms1 & m & ms2 & H & Hall & _ & ->).
        destruct ms1 as [|m1 ms1]; injection H as <- _; [reflexivity |].
        inversion Hall; subst. contradiction.
    + rewrite resolve_in_mappings_unusable by exact Hn. rewrite IH. split.
      * intros (ms1 & m & ms2 & -> & Hall & Hu & ->).
        exists (m0 :: ms1), m, ms2. repeat split; try apply Hu.
        constructor; assumption.
      * intros (ms1 & m & ms2 & H & Hall & Hu & ->).
        destruct ms1 as [|m1 ms1]; injection H as <- H.
        -- contradiction.
        -- inversion Hall; subst. exists ms1, m, ms2.
           repeat split; try assumption; apply Hu.
Qed.

End ResolveFacts.

Section TagFacts.
Import Js Types Runner Outbound.

Lemma occurs_cons_other (c : ascii) (s : string) :
  c <> "]"%char -> Spec.occurs_in "]" (String c s) -> Spec.occurs_in "]" s.
Proof.
  intros Hc (pre & post & H). destruct pre as [|a pre].
  - injection H as H _. contradiction.
  - injection H as _ H. exists pre, post. exact H.
Qed.

Lemma span_body_spec (s : string) :
  s = fst (span_body s) ++ snd (span_body s) /\
  ~ Spec.occurs_in "]" (fst (span_body s)) /\
  (snd (span_body s) = EmptyString \/
   exists r, snd (span_body s) = String "]" r).
Proof.
  induction s as [|c s (IH1 & IH2 & IH3)]; cbn [span_body].
  - repeat split; [| left; reflexivity].
    intros (pre & post & H). destruct pre; discriminate.
  - destruct (Ascii.eqb_spec c "]") as [-> | Hc].
    + repeat split; [| right; eauto].
      intros (pre & post & H). destruct pre; discriminate.
    + destruct (span_body s) as [b r]. cbn [fst snd] in *.
      repeat split.
      * rewrite append_cons. f_equal. exact IH1.
      * intros H. apply IH2. eapply occurs_cons_other; eassumption.
      * exact IH3.
Qed.

Lemma span_body_app (b r : string) :
  ~ Spec.occurs_in "]" b -> span_body (b ++ String "]" r) = (b, String "]" r).
Proof.
  induction b as [|c b IH]; intros Hb.
  - reflexivity.
  - rewrite append_cons. cbn [span_body].
    destruct (Ascii.eqb_spec c "]") as [-> | Hc].
    + exfalso. apply Hb. exists EmptyString, b. reflexivity.
    + rewrite IH; [reflexivity |].
      intros (pre & post & H). apply Hb. exists (String c pre), post.
      rewrite append_cons. f_equal. exact H.
Qed.

Lemma trim_blank (body : string) :
  trimStart body = EmptyString -> trim (last_char body) = EmptyString.
Proof.
  induction body as [|a b IH]; [reflexivity |].
  cbn [trimStart]. destruct (is_space a) eqn:Ha; [|discriminate].
  intros Hb. destruct b as [|a' b'].
  - unfold trim. cbn [last_char trimStart]. rewrite Ha. reflexivity.
  - exact (IH Hb).
Qed.

Lemma capture_trim (body : string) : trim (capture body) = trim body.
Proof.
  unfold capture. destruct (trimStart body) as [|c r] eqn:E.
  - rewrite trim_blank by exact E. unfold trim. rewrite E. reflexivity.
  - unfold trim at 2. rewrite E. unfold trim.
    rewrite trimStart_nonspace; [reflexivity |].
    eapply trimStart_head, E.
Qed.

Lemma match_send_file_spec (s g : string) (n : nat) :
  match_send_file s = Some (g, n) <->
  exists body rest,
    Spec.tag_body body /\ s = tag_open ++ body ++ "]" ++ rest /\
    g = capture body /\
    n = (String.length tag_open + String.length body + 1)%nat.
Proof.
  unfold match_send_file. split.
  - destruct (startsWith s tag_open) eqn:Hs; [|discriminate].
    apply startsWith_spec in Hs as [r ->]. rewrite drop_append.
    destruct (span_body_spec r) as (H1 & H2 & H3).
    destruct (span_body r) as [b t]. cbn [fst snd] in *.
    destruct b as [|c b]; [discriminate |].
    destruct t as [|x t]; [discriminate |].
    intros H. injection H as <- <-.
    destruct H3 as [H3 | [t' H3]]; [discriminate |]. injection H3 as -> ->.
    exists (String c b), t'. repeat split; [discriminate | exact H2 |].
    rewrite H1 at 1. reflexivity.
  - intros (body & rest & [Hne Hno] & -> & -> & ->).
    assert (startsWith (tag_open ++ body ++ "]" ++ rest) tag_open = true) as ->
      by (apply startsWith_spec; eauto).
    rewrite drop_append.
    change (body ++ "]" ++ rest) with (body ++ String "]" rest).
    rewrite span_body_app by exact Hno.
    destruct body as [|c b]; [contradiction | reflexivity].
Qed.

Lemma match_send_file_none (s : string) :
  match_send_file s = None <-> ~ Spec.starts_with_tag s.
Proof.
  split.
  - intros Hn (body & rest & Hb & Hs).
    assert (match_send_file s =
            Some (capture body,
                  (String.length tag_open + String.length body + 1)%nat)) as E.
    { apply match_send_file_spec. exists body, rest. auto. }
    congruence.
  - intros Hn. destruct (match_send_file s) as [[g n]|] eqn:E; [|reflexivity].
    exfalso. apply Hn. apply match_send_file_spec in E
      as (body & rest & Hb & Hs & _). exists body, rest. auto.
Qed.

Lemma scan_skip (k : nat) (s : string) : scan k s = scan 0 (drop k s).
Proof.
  revert k. induction s as [|c s IH]; intros [|k]; try reflexivity.
  cbn [scan drop]. apply IH.
Qed.

Lemma drop_tag (a b rest : string) :
  drop (String.length a + String.length b + 1) (a ++ b ++ "]" ++ rest) = rest.
Proof.
  replace (a ++ b ++ "]" ++ rest) with ((a ++ b ++ "]") ++ rest)
    by (rewrite !append_assoc; reflexivity).
  replace (String.length a + String.length b + 1)%nat
    with (String.length (a ++ b ++ "]"))
    by (rewrite !length_append; cbn [String.length]; lia).
  apply drop_append.
Qed.

Lemma scan_at_tag (body rest : string) :
  Spec.tag_body body ->
  scan 0 (tag_open ++ body ++ "]" ++ rest) = Tag (capture body) :: scan 0 rest.
Proof.
  intros Hb.
  assert (match_send_file (tag_open ++ body ++ "]" ++ rest) =
          Some (capture body,
                (String.length tag_open + String.length body + 1)%nat)) as E.
  { apply match_send_file_spec. exists body, rest. auto. }
  change (tag_open ++ body ++ "]" ++ rest)
    with (String "[" ("send_file:" ++ body ++ "]" ++ rest)) in *.
  cbn [scan]. rewrite E. f_equal. rewrite scan_skip. f_equal.
  replace (String.length tag_open + String.length body + 1 - 1)%nat
    with (String.length "send_file:" + String.length body + 1)%nat
    by (cbn [String.length tag_open]; lia).
  apply drop_tag.
Qed.

Lemma scan_at_char (c : ascii) (s : string) :
  ~ Spec.starts_with_tag (String c s) ->
  scan 0 (String c s) = Lit c :: scan 0 s.
Proof.
  intros Hn. apply match_send_file_none in Hn. cbn [scan]. rewrite Hn.
  reflexivity.
Qed.

End TagFacts.

Section TaggingFacts.
Import Js Types Runner Outbound.

Lemma tagged_paths_at_tag (body rest : string) :
  Spec.tag_body body ->
  Spec.tagged_paths (tag_open ++ body ++ "]" ++ rest) =
  trim body :: Spec.tagged_paths rest.
Proof.
  intros Hb. unfold Spec.tagged_paths. rewrite scan_at_tag by exact Hb.
  cbn. rewrite capture_trim. reflexivity.
Qed.

Lemma untagged_text_at_tag (body rest : string) :
  Spec.tag_body body ->
  Spec.untagged_text (tag_open ++ body ++ "]" ++ rest) = Spec.untagged_text rest.
Proof.
  intros Hb. unfold Spec.untagged_text. rewrite scan_at_tag by exact Hb.
  reflexivity.
Qed.

Lemma tagged_paths_at_char (c : ascii) (s : string) :
  ~ Spec.starts_with_tag (String c s) ->
  Spec.tagged_paths (String c s) = Spec.tagged_paths s.
Proof.
  intros Hn. unfold Spec.tagged_paths. rewrite scan_at_char by exact Hn.
  reflexivity.
Qed.

Lemma untagged_text_at_char (c : ascii) (s : string) :
  ~ Spec.starts_with_tag (String c s) ->
  Spec.untagged_text (String c s) = String c (Spec.untagged_text s).
Proof.
  intros Hn. unfold Spec.untagged_text. rewrite scan_at_char by exact Hn.
  reflexivity.
Qed.

Lemma tagging_scan_bounded (n : nat) (s : string) :
  String.length s <= n ->
  Spec.tagging s (Spec.tagged_paths s) (Spec.untagged_text s).
Proof.
  revert s. induction n as [|n IH]; intros s Hlen.
  - destruct s; [constructor | cbn in Hlen; lia].
  - destruct s as [|c s]; [constructor |].
    destruct (match_send_file (String c s)) as [[g k]|] eqn:E.
    + apply match_send_file_spec in E as (body & rest & Hb & Hs & _ & _).
      rewrite Hs. rewrite tagged_paths_at_tag, untagged_text_at_tag by exact Hb.
      constructor; [exact Hb |]. apply IH.
      assert (String.length (String c s) =
              String.length (tag_open ++ body ++ "]" ++ rest)) as Hl
        by (rewrite Hs; reflexivity).
      rewrite !length_append in Hl. cbn [String.length tag_open] in *. lia.
    + apply match_send_file_none in E.
      rewrite tagged_paths_at_char, untagged_text_at_char by exact E.
      constructor; [exact E |]. apply IH. cbn [String.length] in Hlen. lia.
Qed.

(** The scan of the regular expression reads the text as [Spec.tagging]
    describes, and no other reading fits the description. *)
Lemma tagging_scan (s : string) :
  Spec.tagging s (Spec.tagged_paths s) (Spec.untagged_text s).
Proof. apply (tagging_scan_bounded (String.length s)). lia. Qed.

Lemma tagging_unique (s : string) (paths : list string) (outside : string) :
  Spec.tagging s paths outside ->
  paths = Spec.tagged_paths s /\ outside = Spec.untagged_text s.
Proof.
  induction 1 as [| body rest paths outside Hb _ [IH1 IH2]
                  | c s paths outside Hn _ [IH1 IH2]].
  - split; reflexivity.
  - rewrite tagged_paths_at_tag, untagged_text_at_tag by exact Hb.
    subst. split; reflexivity.
  - rewrite tagged_paths_at_char, untagged_text_at_char by exact Hn.
    subst. split; reflexivity.
Qed.

End TaggingFacts.

Section OutboundFold.
Import Js Types Runner Outbound.
Variable existsSync : string -> bool.
Variable pathMappings : list SandboxPathMapping.

Lemma In_set_add (x y : string) (fs : list string) :
  In x (set_add fs y) <-> In x fs \/ x = y.
Proof.
  unfold set_add. destruct (existsb (String.eqb y) fs) eqn:E.
  - apply existsb_eqb_In in E. split; [auto |]. intros [H | ->]; assumption.
  - rewrite in_app_iff. cbn. intuition.
Qed.

Lemma NoDup_set_add (y : string) (fs : list string) :
  NoDup fs -> NoDup (set_add fs y).
Proof.
  intros Hnd. unfold set_add. destruct (existsb (String.eqb y) fs) eqn:E.
  - exact Hnd.
  - apply NoDup_app. repeat split.
    + exact Hnd.
    + intros x Hx Hx'. apply list_elem_of_In in Hx, Hx'.
      destruct Hx' as [<- | []].
      apply existsb_eqb_In in Hx. congruence.
    + apply NoDup_singleton.
Qed.

Lemma fold_set_add (l fs : list string) :
  (NoDup fs -> NoDup (fold_left set_add l fs)) /\
  (forall x, In x (fold_left set_add l fs) <-> In x fs \/ In x l).
Proof.
  revert fs. induction l as [|y l IH]; intros fs; cbn [fold_left].
  - split; [auto |]. intros x. cbn. intuition.
  - destruct (IH (set_add fs y)) as [IH1 IH2]. split.
    + intros Hnd. apply IH1, NoDup_set_add, Hnd.
    + intros x. rewrite IH2, In_set_add. cbn. intuition.
Qed.

Lemma In_omap_attachable (f : string) (paths : list string) :
  In f (omap (Spec.attachable existsSync pathMappings) paths) <->
  exists p, In p paths /\ Spec.attachable existsSync pathMappings p = Some f.
Proof.
  induction paths as [|p paths IH]; cbn [omap list_omap].
  - split; [intros [] | intros (p & [] & _)].
  - destruct (Spec.attachable existsSync pathMappings p) as [h|] eqn:E.
    + cbn [In]. rewrite IH. split.
      * intros [<- | (p' & Hin & Hp')]; [exists p | exists p']; cbn; auto.
      * intros (p' & [<- | Hin] & Hp'); [left; congruence | right; eauto].
    + rewrite IH. split.
      * intros (p' & Hin & Hp'). exists p'. cbn. auto.
      * intros (p' & [<- | Hin] & Hp'); [congruence | eauto].
Qed.

Lemma outbound_step_attachable (acc : list string * list string) (g : string) :
  outbound_step existsSync pathMappings acc g =
  match Spec.attachable existsSync pathMappings (trim g) with
  | Some h => (set_add (fst acc) h, snd acc)
  | None => (fst acc, (snd acc ++ [trim g])%list)
  end.
Proof.
  unfold outbound_step, Spec.attachable.
  destruct (resolveSandboxPath existsSync (trim g) pathMappings) as [[|c r]|];
    reflexivity.
Qed.

Lemma outbound_fold (gs : list string) (fs mi : list string) :
  fold_left (outbound_step existsSync pathMappings) gs (fs, mi) =
  (fold_left set_add
     (omap (Spec.attachable existsSync pathMappings) (map trim gs)) fs,
   (mi ++ List.filter (Spec.is_missing existsSync pathMappings)
            (map trim gs))%list).
Proof.
  revert fs mi. induction gs as [|g gs IH]; intros fs mi.
  - cbn. rewrite app_nil_r. reflexivity.
  - cbn [fold_left map]. rewrite outbound_step_attachable. cbn [fst snd].
    cbn [omap list_omap List.filter]. unfold Spec.is_missing at 1.
    destruct (Spec.attachable existsSync pathMappings (trim g)) as [h|] eqn:E.
    + rewrite IH. reflexivity.
    + rewrite IH, <- app_assoc. reflexivity.
Qed.

Lemma parseOutboundFiles_spec (text : string) :
  let parsed := parseOutboundFiles existsSync text pathMappings in
  cleanText parsed = trim (Spec.untagged_text text) /\
  missing parsed =
    List.filter (Spec.is_missing existsSync pathMappings) (Spec.tagged_paths text) /\
  NoDup (files parsed) /\
  (forall f, In f (files parsed) <->
             exists p, In p (Spec.tagged_paths text) /\
                       Spec.attachable existsSync pathMappings p = Some f).
Proof.
  unfold parseOutboundFiles. rewrite outbound_fold. cbn [cleanText missing files].
  fold (Spec.tagged_paths text). fold (Spec.untagged_text text).
  destruct (fold_set_add
              (omap (Spec.attachable existsSync pathMappings)
                 (Spec.tagged_paths text)) []) as [Hnd Hin].
  repeat split.
  - apply Hnd. constructor.
  - intros H. apply Hin in H as [[] | H]. apply In_omap_attachable, H.
  - intros H. apply Hin. right. apply In_omap_attachable, H.
Qed.

End OutboundFold.

Section OutboundFiles.
Import Js Types Runner Outbound Example.

Lemma resolve_relative (existsSync : string -> bool) (filePath : string)
    (pathMappings : list SandboxPathMapping) :
  Path.isAbsolute (trim filePath) = false ->
  resolveSandboxPath existsSync filePath pathMappings = None.
Proof. intros H. unfold resolveSandboxPath. rewrite H. reflexivity. Qed.

Lemma attachFiles_text (existsSync : string -> bool) (finalResponse : string)
    (allPathMappings : list SandboxPathMapping) :
  let result := attachFiles existsSync finalResponse allPathMappings in
  snd result = parseOutboundFiles existsSync (trim finalResponse) allPathMappings /\
  (missing (snd result) = [] -> fst result = cleanText (snd result)) /\
  (missing (snd result) <> [] ->
   fst result =
   trim (cleanText (snd result) ++ nl ++ nl ++ Spec.warning (missing (snd result)))).
Proof.
  cbv zeta. unfold attachFiles.
  destruct (missing (parseOutboundFiles existsSync (trim finalResponse)
                       allPathMappings)) as [|m ms] eqn:E; cbn [fst snd].
  - split; [reflexivity |]. split; [reflexivity | congruence].
  - rewrite E. split; [reflexivity |]. split; [discriminate | reflexivity].
Qed.

(** C7, as the code has it.  A tagged path is used as it is when, trimmed,
    it is absolute and exists on the host; when it is absolute and does not
    exist, it is translated by the first mapping whose container prefix is a
    prefix of it at a segment boundary and whose translation exists; a path
    that is not absolute is never used.  The files list holds the paths so
    found, each once; the text is what lies outside the tags, trimmed; and
    when some path is not found, one warning naming the first three of them
    is appended. *)
Theorem send_file_tags_resolved (existsSync : string -> bool)
    (finalResponse : string) (allPathMappings : list SandboxPathMapping) :
  let text := trim finalResponse in
  let result := attachFiles existsSync finalResponse allPathMappings in
  let parsed := snd result in
  (forall p, Path.isAbsolute (trim p) = true -> existsSync (trim p) = true ->
     resolveSandboxPath existsSync p allPathMappings = Some (trim p)) /\
  (forall p h, Path.isAbsolute (trim p) = true -> existsSync (trim p) = false ->
     (resolveSandboxPath existsSync p allPathMappings = Some h <->
      exists ms1 m ms2,
        allPathMappings = (ms1 ++ m :: ms2)%list /\
        Forall (fun m' => ~ Spec.usable existsSync (trim p) m') ms1 /\
        Spec.usable existsSync (trim p) m /\
        h = Spec.rewritten m (trim p))) /\
  (forall p, Path.isAbsolute (trim p) = false ->
     resolveSandboxPath existsSync p allPathMappings = None) /\
  Spec.tagging text (Spec.tagged_paths text) (Spec.untagged_text text) /\
  cleanText parsed = trim (Spec.untagged_text text) /\
  NoDup (files parsed) /\
  (forall f, In f (files parsed) <->
     exists p, In p (Spec.tagged_paths text) /\
               Spec.attachable existsSync allPathMappings p = Some f) /\
  missing parsed =
    List.filter (Spec.is_missing existsSync allPathMappings)
      (Spec.tagged_paths text) /\
  (missing parsed = [] -> fst result = cleanText parsed) /\
  (missing parsed <> [] ->
   fst result = trim (cleanText parsed ++ nl ++ nl ++ Spec.warning (missing parsed))).
Proof.
  cbv zeta.
  destruct (attachFiles_text existsSync finalResponse allPathMappings)
    as (Hp & Hnone & Hsome).
  destruct (parseOutboundFiles_spec existsSync allPathMappings (trim finalResponse))
    as (Hclean & Hmiss & Hnd & Hfiles).
  rewrite <- Hp in Hclean, Hmiss, Hnd, Hfiles.
  repeat match goal with |- _ /\ _ => split end; try assumption.
  - intros p Ha He. unfold resolveSandboxPath. rewrite Ha, He. reflexivity.
  - intros p h Ha He. unfold resolveSandboxPath. rewrite Ha, He. cbn [negb].
    apply resolve_in_mappings_first.
  - intros p. apply resolve_relative.
  - apply tagging_scan.
Qed.

Lemma send_file_tags_resolved_witness :
  resolveSandboxPath host_files " /home/u/ws/coder/out.png" mapped_workspace =
    Some "/home/u/ws/coder/out.png" /\
  files (snd (attachFiles host_files reply_with_tags mapped_workspace)) =
    ["/home/u/ws/coder/out.png"] /\
  fst (attachFiles host_files reply_with_tags mapped_workspace) =
    "done" ++ nl ++ nl ++ warning_head ++ nl ++ "- /workspace/gone.txt".
Proof.
  pose proof (send_file_tags_resolved host_files reply_with_tags mapped_workspace)
    as (Hexists & _).
  split; [apply Hexists; reflexivity |].
  split; reflexivity.
Defined.

(** C7 as stated fails: a path that exists on the host as it is written,
    but is relative, is not used. *)
Lemma send_file_relative_path_unused :
  host_files "out.png" = true /\
  resolveSandboxPath host_files "out.png" mapped_workspace = None /\
  files (snd (attachFiles host_files reply_with_relative_tag mapped_workspace)) = [] /\
  missing (snd (attachFiles host_files reply_with_relative_tag mapped_workspace)) =
    ["out.png"].
Proof. repeat split; reflexivity. Qed.

End OutboundFiles.

Section RelativePaths.
Import Js Types Runner Outbound Example.

Lemma occurs_in_append_l (x a s : string) :
  Spec.occurs_in x s -> Spec.occurs_in x (a ++ s).
Proof.
  intros (pre & post & ->). exists (a ++ pre), post. symmetry. apply append_assoc.
Qed.

Lemma occurs_in_join (sep x : string) (l : list string) :
  In x l -> Spec.occurs_in x (join sep l).
Proof.
  induction l as [|a l IH]; [intros [] |].
  intros [<- | Hin].
  - destruct l as [|b l].
    + exists EmptyString, EmptyString. cbn [join].
      rewrite append_nil_r. reflexivity.
    + exists EmptyString, (sep ++ join sep (b :: l)). reflexivity.
  - destruct l as [|b l]; [destruct Hin |].
    change (join sep (a :: b :: l)) with (a ++ sep ++ join sep (b :: l)).
    apply occurs_in_append_l, occurs_in_append_l, IH, Hin.
Qed.

Lemma tagged_path_trimmed (text rawPath : string) :
  In rawPath (Spec.tagged_paths text) -> trim rawPath = rawPath.
Proof.
  unfold Spec.tagged_paths. intros H. apply in_map_iff in H as (g & <- & _).
  apply trim_idem.
Qed.

(** C10, as the code has it.  A tagged path that is not absolute resolves
    to no host path under any list of mappings; it is counted as missing,
    every entry of the files list comes from a tag whose path is absolute,
    the warning is appended, and the warning names the path when it is
    among the first three missing ones. *)
Theorem relative_tagged_path_is_missing (existsSync : string -> bool)
    (finalResponse : string) (allPathMappings : list SandboxPathMapping)
    (rawPath : string) :
  let text := trim finalResponse in
  let result := attachFiles existsSync finalResponse allPathMappings in
  In rawPath (Spec.tagged_paths text) ->
  Path.isAbsolute rawPath = false ->
  (forall pathMappings,
     resolveSandboxPath existsSync rawPath pathMappings = None) /\
  In rawPath (missing (snd result)) /\
  (forall f, In f (files (snd result)) ->
     exists p, In p (Spec.tagged_paths text) /\ Path.isAbsolute p = true /\
               resolveSandboxPath existsSync p allPathMappings = Some f) /\
  fst result =
    trim (cleanText (snd result) ++ nl ++ nl ++ Spec.warning (missing (snd result))) /\
  (In rawPath (firstn 3 (missing (snd result))) ->
   Spec.occurs_in ("- " ++ rawPath) (Spec.warning (missing (snd result)))).
Proof.
  cbv zeta. intros Hin Hrel.
  pose proof (tagged_path_trimmed _ _ Hin) as Htrim.
  assert (forall pathMappings,
            resolveSandboxPath existsSync rawPath pathMappings = None) as Hnone.
  { intros pm. apply resolve_relative. rewrite Htrim. exact Hrel. }
  destruct (attachFiles_text existsSync finalResponse allPathMappings)
    as (Hp & _ & Hsome).
  destruct (parseOutboundFiles_spec existsSync allPathMappings (trim finalResponse))
    as (_ & Hmiss & _ & Hfiles).
  rewrite <- Hp in Hmiss, Hfiles.
  assert (In rawPath
            (missing (snd (attachFiles existsSync finalResponse allPathMappings))))
    as Hmissing.
  { rewrite Hmiss. apply filter_In. split; [exact Hin |].
    unfold Spec.is_missing, Spec.attachable. rewrite Hnone. reflexivity. }
  split; [exact Hnone |]. split; [exact Hmissing |]. split; [| split].
  - intros f Hf. apply Hfiles in Hf as (p & Hp' & Ha). exists p.
    split; [exact Hp' |].
    assert (resolveSandboxPath existsSync p allPathMappings = Some f) as Hr.
    { unfold Spec.attachable in Ha.
      destruct (resolveSandboxPath existsSync p allPathMappings) as [[|c r]|];
        congruence. }
    split; [| exact Hr].
    destruct (Path.isAbsolute p) eqn:Hab; [reflexivity |].
    rewrite resolve_relative in Hr; [discriminate |].
    rewrite (tagged_path_trimmed _ _ Hp'). exact Hab.
  - apply Hsome. intros E. rewrite E in Hmissing. destruct Hmissing.
  - intros H3. unfold Spec.warning.
    apply occurs_in_append_l, occurs_in_append_l, occurs_in_join.
    apply in_map_iff. exists rawPath. split; [reflexivity | exact H3].
Qed.

Lemma relative_tagged_path_is_missing_witness :
  In "out.png"
     (missing (snd (attachFiles host_files reply_with_relative_tag
                      mapped_workspace))) /\
  Spec.occurs_in "- out.png"
    (Spec.warning
       (missing (snd (attachFiles host_files reply_with_relative_tag
                        mapped_workspace)))).
Proof.
  pose proof (relative_tagged_path_is_missing host_files reply_with_relative_tag
                mapped_workspace "out.png") as H.
  cbv zeta in H.
  destruct H as (_ & Hm & _ & _ & Hw).
  - left. reflexivity.
  - reflexivity.
  - split; [exact Hm |]. apply Hw. left. reflexivity.
Defined.

(** C10 as stated fails in its parenthesis: the fourth missing path is
    counted as missing but the warning does not name it. *)
Lemma fourth_relative_path_not_in_warning :
  let result :=
    attachFiles (fun _ => false) reply_with_four_relative_tags [] in
  In "p4.txt" (Spec.tagged_paths (trim reply_with_four_relative_tags)) /\
  Path.isAbsolute (trim "p4.txt") = false /\
  In "p4.txt" (missing (snd result)) /\
  fst result = warning_head ++ nl ++ "- p1.txt" ++ nl ++ "- p2.txt" ++ nl ++ "- p3.txt" /\
  ~ Spec.occurs_in "p4.txt" (fst result).
Proof.
  cbv zeta. split; [| split; [| split; [| split]]].
  - vm_compute. do 3 right. left. reflexivity.
  - reflexivity.
  - vm_compute. do 3 right. left. reflexivity.
  - reflexivity.
  - intros H. apply includes_spec in H. vm_compute in H. discriminate.
Qed.

End RelativePaths.

(** ** queue-processor.ts: the queue directories *)

Section Recovery.
Import Js Types Store Processor Example.

Lemma In_readdirSync {A} (dir : gmap string A) (f : string) :
  In f (readdirSync dir) <-> is_Some (dir !! f).
Proof.
  unfold readdirSync. rewrite in_map_iff. split.
  - intros ([f' c] & <- & Hin). apply list_elem_of_In in Hin.
    apply elem_of_map_to_list in Hin. cbn. eauto.
  - intros [c Hc]. exists (f, c). split; [reflexivity |].
    apply list_elem_of_In, elem_of_map_to_list, Hc.
Qed.

Lemma recover_one_same (q : Queue) (f : string) :
  processing (recover_one q f) !! f = None /\
  incoming (recover_one q f) !! f =
    match processing q !! f with
    | Some c => Some c
    | None => incoming q !! f
    end.
Proof.
  unfold recover_one, rename_to_incoming.
  destruct (processing q !! f) as [c|] eqn:E; cbn.
  - rewrite lookup_delete_eq, lookup_insert_eq. auto.
  - rewrite E. auto.
Qed.

Lemma recover_one_other (q : Queue) (f g : string) :
  f <> g ->
  processing (recover_one q f) !! g = processing q !! g /\
  incoming (recover_one q f) !! g = incoming q !! g.
Proof.
  intros Hne. unfold recover_one, rename_to_incoming.
  destruct (processing q !! f) as [c|] eqn:E; cbn; [| auto].
  rewrite lookup_delete_ne, lookup_insert_ne by exact Hne. auto.
Qed.

Lemma recover_one_rest (q : Queue) (f : string) :
  outgoing (recover_one q f) = outgoing q /\
  deadLetter (recover_one q f) = deadLetter q.
Proof.
  unfold recover_one, rename_to_incoming.
  destruct (processing q !! f); auto.
Qed.

Lemma recover_fold (l : list string) (q : Queue) :
  let q' := fold_left recover_one l q in
  (forall f, In f l ->
     processing q' !! f = None /\
     incoming q' !! f =
       match processing q !! f with
       | Some c => Some c
       | None => incoming q !! f
       end) /\
  (forall f, ~ In f l ->
     processing q' !! f = processing q !! f /\
     incoming q' !! f = incoming q !! f) /\
  outgoing q' = outgoing q /\ deadLetter q' = deadLetter q.
Proof.
  cbv zeta. revert q. induction l as [|a l IH]; intros q.
  - cbn. split; [intros f [] |]. split; [intros f _; auto | auto].
  - cbn [fold_left]. destruct (IH (recover_one q a)) as (IHin & IHout & IHo & IHd).
    destruct (recover_one_same q a) as [Hp Hi].
    destruct (recover_one_rest q a) as [Ho Hd].
    split; [| split; [| split; congruence]].
    + intros f Hf. destruct (decide (a = f)) as [<- | Hne].
      * destruct (in_dec string_dec a l) as [Hl | Hl].
        -- destruct (IHin a Hl) as [H1 H2]. split; [exact H1 |].
           rewrite H2, Hp. exact Hi.
        -- destruct (IHout a Hl) as [H1 H2]. split; congruence.
      * destruct Hf as [Hf | Hf]; [contradiction |].
        destruct (recover_one_other q a f Hne) as [Hp' Hi'].
        destruct (IHin f Hf) as [H1 H2]. split; [exact H1 |].
        rewrite H2, Hp', Hi'. reflexivity.
    + intros f Hf. assert (a <> f) as Hne by (intros ->; apply Hf; left; reflexivity).
      assert (~ In f l) as Hl by (intros Hl; apply Hf; right; exact Hl).
      destruct (recover_one_other q a f Hne) as [Hp' Hi'].
      destruct (IHout f Hl) as [H1 H2]. split; congruence.
Qed.

(** C5, as the code has it.  When the polling loop starts, every file of
    [processing] whose name ends in ".json" has been moved to [incoming]
    under the same name, with its content; [processing] holds no such file
    any more.  Files with other names stay where they are. *)
Theorem startup_recovers_json_files (q : Queue) :
  let q' := startup q in
  (forall f, endsWith f ".json" = true ->
     processing q' !! f = None /\
     incoming q' !! f =
       match processing q !! f with
       | Some c => Some c
       | None => incoming q !! f
       end) /\
  (forall f, endsWith f ".json" = false ->
     processing q' !! f = processing q !! f /\
     incoming q' !! f = incoming q !! f) /\
  outgoing q' = outgoing q /\ deadLetter q' = deadLetter q.
Proof.
  cbv zeta. unfold startup, recoverOrphanedFiles.
  destruct (recover_fold
              (List.filter (fun f => endsWith f ".json")
                 (readdirSync (processing q))) q) as (Hin & Hout & Ho & Hd).
  split; [| split; [| split; assumption]].
  - intros f Hjson.
    destruct (processing q !! f) as [c|] eqn:E.
    + assert (In f (List.filter (fun f => endsWith f ".json")
                      (readdirSync (processing q)))) as Hf.
      { apply filter_In. split; [| exact Hjson].
        apply In_readdirSync. rewrite E. eauto. }
      destruct (Hin f Hf) as [H1 H2]. rewrite E in H2. auto.
    + assert (~ In f (List.filter (fun f => endsWith f ".json")
                        (readdirSync (processing q)))) as Hf.
      { intros Hf. apply filter_In in Hf as [Hf _].
        apply In_readdirSync in Hf as [c Hc]. congruence. }
      destruct (Hout f Hf) as [H1 H2]. split; congruence.
  - intros f Hother. apply Hout. intros Hf.
    apply filter_In in Hf as [_ Hf]. congruence.
Qed.

Lemma startup_recovers_json_files_witness :
  processing (startup crashed_queue) !! "m1.json" = None /\
  incoming (startup crashed_queue) !! "m1.json" =
    Some (MessageFile (toy_message "m1" "hi" (Some 1%Z))).
Proof.
  pose proof (startup_recovers_json_files crashed_queue) as (H & _).
  destruct (H "m1.json" eq_refl) as [H1 H2].
  split; [exact H1 |]. rewrite H2. vm_compute. reflexivity.
Defined.

(** C5 as stated fails: a file of [processing] whose name does not end in
    ".json" is still there when the loop starts. *)
Lemma startup_leaves_other_files :
  processing (startup crashed_queue) !! "notes.txt" = Some (Unparseable "scratch") /\
  incoming (startup crashed_queue) !! "notes.txt" = None /\
  processing (startup crashed_queue) <> ∅.
Proof.
  assert (processing (startup crashed_queue) !! "notes.txt" =
          Some (Unparseable "scratch")) as H by (vm_compute; reflexivity).
  split; [exact H |]. split; [vm_compute; reflexivity |].
  intros E.
  assert (processing (startup crashed_queue) !! "notes.txt" = None) as H'
    by (rewrite E; apply lookup_empty).
  congruence.
Qed.

End Recovery.

Section QueueWrites.
Import Js Types Runner Store Processor Example.

(** C4, as the code has it.  A response and a dead-letter record are each
    written by one [writeFileSync] at the final path: the call adds that
    one write to the calls issued, no rename puts the file in place.  Only
    the retry writes first (the file in [processing]) and renames
    afterwards (into [incoming]). *)
Theorem queue_files_written_in_place :
  (forall now channel sender message originalMessage messageId agentId files q,
     exists file,
       oplog (writeOutgoingResponse now channel sender message originalMessage
                messageId agentId files q) =
         (oplog q ++ [WriteFile QUEUE_OUTGOING file])%list /\
       is_Some (outgoing (writeOutgoingResponse now channel sender message
                            originalMessage messageId agentId files q) !! file)) /\
  (forall now processingFile payload errorClass errorMessage attempt maxAttempts q,
     exists file,
       oplog (writeDeadLetter now processingFile payload errorClass errorMessage
                attempt maxAttempts q) =
         (oplog q ++ [WriteFile QUEUE_DEAD_LETTER file])%list /\
       is_Some (deadLetter (writeDeadLetter now processingFile payload errorClass
                              errorMessage attempt maxAttempts q) !! file)) /\
  (forall now messageFile md attempt q q',
     requeue now messageFile md attempt q = Some q' ->
     oplog q' =
       (oplog q ++ [WriteFile QUEUE_PROCESSING messageFile;
                    Rename QUEUE_PROCESSING messageFile QUEUE_INCOMING messageFile])%list).
Proof.
  split; [| split].
  - intros. eexists. cbn [writeOutgoingResponse oplog outgoing].
    split; [reflexivity |]. rewrite lookup_insert_eq. eauto.
  - intros. eexists. cbn [writeDeadLetter oplog deadLetter].
    split; [reflexivity |]. rewrite lookup_insert_eq. eauto.
  - intros now messageFile md attempt q q'. unfold requeue, rename_to_incoming.
    cbn [write_processing processing]. rewrite lookup_insert_eq.
    intros H. injection H as <-. cbn [oplog]. rewrite <- app_assoc. reflexivity.
Qed.

Lemma queue_files_written_in_place_witness :
  match requeue 5000%Z "m.json" (toy_message "m1" "hello" None) 1%Z
          in_processing_queue with
  | Some q' =>
      oplog q' =
      [WriteFile QUEUE_PROCESSING "m.json";
       Rename QUEUE_PROCESSING "m.json" QUEUE_INCOMING "m.json"]
  | None => False
  end.
Proof.
  pose proof queue_files_written_in_place as (_ & _ & H).
  destruct (requeue 5000%Z "m.json" (toy_message "m1" "hello" None) 1%Z
              in_processing_queue) as [q'|] eqn:E.
  - exact (H _ _ _ _ _ _ E).
  - vm_compute in E. congruence.
Defined.

(** C4 as stated fails: the response file is created by a write at its
    final path in [outgoing]; nothing is renamed into place. *)
Lemma response_not_renamed_into_place :
  let q' :=
    writeOutgoingResponse 5000%Z "telegram" "u" "hi" "hello" "m1" None None
      empty_queue in
  oplog q' = [WriteFile QUEUE_OUTGOING "telegram_m1_5000.json"] /\
  ~ Spec.renamed_into_place (oplog q') QUEUE_OUTGOING "telegram_m1_5000.json" /\
  oplog (writeDeadLetter 5000%Z "m.json" None transient "boom" 1 3 empty_queue) =
    [WriteFile QUEUE_DEAD_LETTER "m_5000.json"] /\
  ~ Spec.renamed_into_place
      (oplog (writeDeadLetter 5000%Z "m.json" None transient "boom" 1 3 empty_queue))
      QUEUE_DEAD_LETTER "m_5000.json".
Proof.
  cbv zeta. split; [reflexivity |]. split; [| split; [reflexivity |]].
  - intros (src & tmp & [H | []]). inversion H.
  - intros (src & tmp & [H | []]). inversion H.
Qed.

End QueueWrites.

Section LengthCap.
Import Js Types Runner Outbound Store Processor Example.

Lemma split_on_nonempty (c : ascii) (s : string) : split_on c s <> [].
Proof.
  destruct s as [|a s]; cbn [split_on]; [discriminate |].
  destruct (Ascii.eqb a c); [discriminate |].
  destruct (split_on c s); discriminate.
Qed.

Lemma split_on_append (c : ascii) (a b : string) :
  split_on c (a ++ String c b) = (split_on c a ++ split_on c b)%list.
Proof.
  induction a as [|d a IH].
  - rewrite append_nil_l. cbn [split_on]. rewrite Ascii.eqb_refl. reflexivity.
  - rewrite append_cons. cbn [split_on]. rewrite IH.
    destruct (Ascii.eqb d c); [reflexivity |].
    destruct (split_on c a) as [|l ls] eqn:E; [| reflexivity].
    exfalso. exact (split_on_nonempty c a E).
Qed.

Lemma last_line_append (a b : string) :
  Spec.last_line (a ++ nl ++ b) = Spec.last_line b.
Proof.
  unfold Spec.last_line.
  change (a ++ nl ++ b) with (a ++ String newline b).
  rewrite split_on_append, last_app.
  destruct (last (split_on newline b)) as [l|] eqn:E; [reflexivity |].
  apply last_None in E. exfalso. exact (split_on_nonempty _ _ E).
Qed.

Lemma limitLength_spec (text : string) :
  String.length (limitLength text) <= 4000 /\
  (4000 < String.length text ->
   limitLength text = take 3900 text ++ nl ++ nl ++ truncation_marker /\
   String.length (limitLength text) = 3925 /\
   Spec.last_line (limitLength text) = truncation_marker) /\
  (String.length text <= 4000 -> limitLength text = text).
Proof.
  unfold limitLength. destruct (Nat.ltb_spec 4000 (String.length text)) as [Hl | Hl].
  - assert (String.length (take 3900 text ++ nl ++ nl ++ truncation_marker) = 3925)
      as Hlen.
    { rewrite !length_append, length_take.
      rewrite Nat.min_l by lia. reflexivity. }
    split; [lia |]. split; [| lia].
    intros _. split; [reflexivity |]. split; [exact Hlen |].
    rewrite !last_line_append. reflexivity.
  - split; [exact Hl |]. split; [lia | reflexivity].
Qed.

(** C3, as the code has it.  The response written for a processed message
    carries the capped text: its length is at most 4000; when the text
    before the cap is longer than 4000 characters, the message is its first
    3900 characters, an empty line and the marker (3925 characters, the
    last line being the marker); a text of at most 4000 characters is
    written unchanged. *)
Theorem delivered_response_capped (H : Host) (messageFile : string)
    (ctx : ErrCtx) (agentId finalResponse : string)
    (allPathMappings : list SandboxPathMapping) (w : World H) (q : Queue) :
  let text := fst (attachFiles (existsSync H w) finalResponse allPathMappings) in
  let q' :=
    Spec.queue_after
      (deliver H messageFile ctx agentId finalResponse allPathMappings w q) in
  exists file r,
    outgoing q' !! file = Some r /\
    In (WriteFile QUEUE_OUTGOING file) (oplog q') /\
    r_message r = limitLength text /\
    String.length (r_message r) <= 4000 /\
    (4000 < String.length text ->
     r_message r = take 3900 text ++ nl ++ nl ++ truncation_marker /\
     String.length (r_message r) = 3925 /\
     Spec.last_line (r_message r) = truncation_marker) /\
    (String.length text <= 4000 -> r_message r = text).
Proof.
  cbv zeta. unfold deliver.
  destruct (attachFiles (existsSync H w) finalResponse allPathMappings)
    as [text parsed]. cbn [fst].
  set (q1 := writeOutgoingResponse _ _ _ _ _ _ _ _ q).
  assert (exists file r,
            outgoing q1 !! file = Some r /\
            In (WriteFile QUEUE_OUTGOING file) (oplog q1) /\
            r_message r = limitLength text) as (file & r & Hout & Hlog & Hmsg).
  { subst q1. unfold writeOutgoingResponse. cbn [outgoing oplog].
    eexists. eexists. rewrite lookup_insert_eq. split; [reflexivity |].
    split; [| reflexivity]. apply in_app_iff. right. left. reflexivity. }
  exists file, r. rewrite Hmsg.
  assert (outgoing (Spec.queue_after
                      match unlink_processing messageFile q1 with
                      | Some q2 => Completed w q2
                      | None =>
                          Thrown (JsError (Some "ENOENT")
                                    "no such file or directory, unlink") ctx w q1
                      end) !! file = Some r /\
          In (WriteFile QUEUE_OUTGOING file)
             (oplog (Spec.queue_after
                       match unlink_processing messageFile q1 with
                       | Some q2 => Completed w q2
                       | None =>
                           Thrown (JsError (Some "ENOENT")
                                     "no such file or directory, unlink") ctx w q1
                       end))) as [H1 H2].
  { unfold unlink_processing. destruct (processing q1 !! messageFile);
      cbn [Spec.queue_after outgoing oplog]; split; try assumption.
    apply in_app_iff. left. exact Hlog. }
  split; [exact H1 |]. split; [exact H2 |]. split; [reflexivity |].
  apply limitLength_spec.
Qed.

(** C3 as stated fails: a response of 3950 characters is written as it is;
    it is longer than 3900 characters and its last line is not the
    marker. *)
Lemma response_between_3900_and_4000_unmarked :
  match processed_text "@long x" with
  | Some (_, q) =>
      match outgoing q !! "telegram_m1_5001.json" with
      | Some r =>
          String.length (r_message r) = 3950 /\
          Spec.last_line (r_message r) <> truncation_marker
      | None => False
      end
  | None => False
  end.
Proof. vm_compute. split; [reflexivity | congruence]. Qed.

End LengthCap.

Section LengthCapExample.
Import Js Types Runner Outbound Store Processor Example.

Lemma delivered_response_capped_witness :
  exists file r,
    outgoing
      (Spec.queue_after
         (deliver toy_host "m.json" toy_ctx "long"
            (String.concat EmptyString (repeat "ab" 2001)) [] 5000%Z in_processing_queue))
      !! file = Some r /\
    String.length (r_message r) = 3925 /\
    Spec.last_line (r_message r) = truncation_marker.
Proof.
  destruct (delivered_response_capped toy_host "m.json" toy_ctx "long"
              (String.concat EmptyString (repeat "ab" 2001)) [] 5000%Z in_processing_queue)
    as (file & r & Hout & _ & _ & _ & Hlong & _).
  exists file, r. split; [exact Hout |].
  apply Hlong. vm_compute. lia.
Defined.

End LengthCapExample.

(** ** queue-processor.ts: failure handling *)

Section FailureHandling.
Import Js Types Config Runner Outbound Store Processor Example.
Variable H : Host.




End FailureHandling.

Section ProcessingFailure.
Import Js Types Config Runner Outbound Store Processor Example.




End ProcessingFailure.

(** ** queue-processor.ts: the team chain *)

Section TeamChain.
Import Js Types Config Runner Outbound Store Processor Example.
Variable H : Host.
Variables (workspacePath : string) (agents : Dict AgentConfig)
  (teams : Dict TeamConfig) (settings : Settings)
  (teamId : string) (shouldReset : bool).




End TeamChain.

Section TeamChainExample.
Import Js Types Config Runner Outbound Store Processor Example.


(** The second and third scenarios of the specification, end to end. *)
Example chain_of_two_handoffs :
  match processed_text "@dev plan this" with
  | Some (_, q) =>
      match outgoing q !! "telegram_m1_5002.json" with
      | Some r =>
          r_message r =
          "@lead: @coder implement X" ++ nl ++ nl ++ "---" ++ nl ++ nl ++
          "@coder: done"
      | None => False
      end
  | None => False
  end.
Proof. vm_compute. reflexivity. Qed.

Example fan_out_runs_one_round :
  match processed_text "@lead split this" with
  | Some (_, q) =>
      match outgoing q !! "telegram_m1_5003.json" with
      | Some r =>
          r_message r =
          "@lead: @a @b go" ++ Spec.step_separator ++
          "@a: a is done, @coder should check" ++ Spec.step_separator ++
          "@b: b is done"
      | None => False
      end
  | None => False
  end.
Proof. vm_compute. reflexivity. Qed.

End TeamChainExample.

(* ===================================================================== *)
(** * Part III.  Further properties of the sources                        *)
(* ===================================================================== *)

(** ** lib/config.ts *)

Section ConfigMore.
Import Js Types Config Models.

Lemma or_str_nonempty (a : option string) (b : string) :
  b <> EmptyString -> or_str a b <> EmptyString.
Proof. destruct a as [[|c s]|]; cbn; congruence. Qed.

Lemma or_num_nonzero (a : option Z) (b : Z) : b <> 0%Z -> or_num a b <> 0%Z.
Proof.
  destruct a as [n|]; cbn; [| auto]. destruct (Z.eqb_spec n 0); auto.
Qed.


Lemma or_num_some (n b : Z) : n <> 0%Z -> or_num (Some n) b = n.
Proof. intros Hn. cbn. destruct (Z.eqb_spec n 0); congruence. Qed.

(** Whatever the settings document and the agent, no member of the
    normalised sandbox configuration is left falsy: the numbers
    [timeout_seconds], [max_attempts] and [pids_limit] are not 0, the
    allowlist is not empty and no string member is empty. *)
Theorem getSandboxConfig_complete (settings : Settings)
    (agent : option AgentConfig) :
  Terms.complete (getSandboxConfig settings agent).
Proof.
  unfold Terms.complete, getSandboxConfig. cbn.
  repeat split;
    try (apply or_str_nonempty; discriminate);
    try (apply or_num_nonzero; discriminate).
  destruct (c_env_allowlist (or_else (sandbox settings) empty_sandbox))
    as [[|x l]|]; discriminate.
Qed.

(** A sandbox section that spells out a complete configuration is taken as
    written; together with the previous theorem, normalising what was
    normalised changes nothing. *)
Theorem getSandboxConfig_fixed_point (settings : Settings)
    (agent : option AgentConfig) (n : NormalizedSandboxConfig) :
  Terms.complete n ->
  sandbox settings = Some (Terms.as_configured n) ->
  Terms.no_override agent ->
  getSandboxConfig settings agent = n.
Proof.
  intros (Ht & Hm & Ha & Hi & Hme & Hc & Hp & Hr & Hai & Ham & Hac) Hs Hag.
  unfold getSandboxConfig. rewrite Hs. unfold Terms.no_override in Hag.
  rewrite Hag.
  destruct n as [md ts ma mc al pm [im nw me cp pl] [rc aim anw ame acp]].
  cbn in *.
  repeat match goal with
  | |- context [Z.eqb ?x 0] => destruct (Z.eqb_spec x 0); subst
  end;
  destruct im, me, cp, rc, aim, ame, acp, al; congruence.
Qed.

Lemma getSandboxConfig_fixed_point_witness :
  getSandboxConfig
    {| workspace_path := None; models := None; s_agents := None;
       s_teams := None; sandbox := Some (Terms.as_configured DEFAULT_SANDBOX) |}
    None = DEFAULT_SANDBOX.
Proof.
  apply getSandboxConfig_fixed_point.
  - repeat split; discriminate.
  - reflexivity.
  - reflexivity.
Defined.

(** [getSettings] changes nothing but [models.provider], and applying it to
    its own result changes nothing. *)
Theorem getSettings_idempotent (raw : option Settings) :
  getSettings (Some (getSettings raw)) = getSettings raw /\
  (forall settings, raw = Some settings ->
     workspace_path (getSettings raw) = workspace_path settings /\
     s_agents (getSettings raw) = s_agents settings /\
     s_teams (getSettings raw) = s_teams settings /\
     sandbox (getSettings raw) = sandbox settings).
Proof.
  split.
  - destruct raw as [[wp [[[[|c p]|] am om]|] ag tm sb]|]; try reflexivity;
      destruct om, am; reflexivity.
  - intros settings ->.
    destruct settings as [wp [[[[|c p]|] am om]|] ag tm sb]; cbn; auto.
Qed.

Lemma getSettings_idempotent_witness :
  sandbox (getSettings (Some Example.settings_zero_attempts)) =
  sandbox Example.settings_zero_attempts.
Proof.
  destruct (getSettings_idempotent (Some Example.settings_zero_attempts))
    as [_ H].
  destruct (H _ eq_refl) as (_ & _ & _ & Hs). exact Hs.
Defined.

(** There is always an agent: [getAgents] is never empty and its first key
    is bound, so the last fallback of the router finds an agent. *)
Theorem getAgents_nonempty (homedir : string) (settings : Settings) :
  exists id agent rest,
    getAgents homedir settings = (id, agent) :: rest /\
    get (getAgents homedir settings) id = Some agent.
Proof.
  unfold getAgents. destruct (s_agents settings) as [[|[id a] l]|].
  - do 3 eexists. split; reflexivity.
  - exists id, a, l. split; [reflexivity |]. cbn. rewrite String.eqb_refl.
    reflexivity.
  - do 3 eexists. split; reflexivity.
Qed.

(** A settings document without agents and without [models.provider], but
    with an [openai] model section, yields the single agent "default" run
    by the openai provider, whether or not an [anthropic] section is there
    too. *)
Theorem default_agent_follows_detected_provider (homedir : string)
    (settings : Settings) (m : Models) (om : option string) :
  models settings = Some m ->
  or_str (models_provider m) EmptyString = EmptyString ->
  openai_model m = Some om ->
  s_agents settings = None \/ s_agents settings = Some [] ->
  getAgents homedir (getSettings (Some settings)) =
  [("default",
    {| name := "Default"; provider := "openai";
       model := or_str om "gpt-5.3-codex";
       working_directory :=
         Path.join2
           (or_str (workspace_path settings)
              (Path.join2 homedir "tinyclaw-workspace")) "default";
       sandbox_mode := None |})].
Proof.
  intros Hm Hp Ho Ha.
  destruct settings as [wp ms ag tm sb]. cbn in *. subst ms.
  unfold getSettings. cbn [models]. rewrite Hp, Ho.
  unfold getAgents. cbn [s_agents].
  destruct Ha as [-> | ->]; reflexivity.
Qed.

Lemma default_agent_follows_detected_provider_witness :
  exists agent,
    getAgents "/home/u"
      (getSettings
         (Some {| workspace_path := None;
                  models := Some {| models_provider := None;
                                    anthropic_model := Some (Some "opus");
                                    openai_model := Some None |};
                  s_agents := None; s_teams := None; sandbox := None |})) =
    [("default", agent)] /\
    provider agent = "openai" /\ model agent = "gpt-5.3-codex".
Proof.
  eexists. split.
  - apply default_agent_follows_detected_provider
      with (m := {| models_provider := None;
                    anthropic_model := Some (Some "opus");
                    openai_model := Some None |}) (om := None);
      auto.
  - split; reflexivity.
Defined.




End ConfigMore.

(** ** lib/runner.ts *)

Section RunnerMore.
Import Js Types Config Runner Example.

Lemma get_dict_set {T} (d : Dict T) (k k' : string) (v : T) :
  get (dict_set d k v) k' = if String.eqb k k' then Some v else get d k'.
Proof.
  induction d as [|[k0 v0] d IH]; cbn [dict_set get].
  - reflexivity.
  - destruct (String.eqb_spec k0 k) as [-> | Hne]; cbn [get].
    + destruct (String.eqb k k'); reflexivity.
    + rewrite IH. destruct (String.eqb_spec k0 k') as [<- | Hne'].
      * destruct (String.eqb_spec k k0); [congruence | reflexivity].
      * reflexivity.
Qed.

Lemma buildAllowedEnv_fold (base : Dict string) (allowlist : list string)
    (env : Dict string) (k : string) :
  get (fold_left
         (fun env key =>
            match get base key with
            | Some value => dict_set env key value
            | None => env
            end) allowlist env) k =
  match (if existsb (String.eqb k) allowlist then get base k else None) with
  | Some v => Some v
  | None => get env k
  end.
Proof.
  revert env. induction allowlist as [|a l IH]; intros env; cbn [fold_left existsb].
  - reflexivity.
  - rewrite IH. destruct (existsb (String.eqb k) l) eqn:El.
    + rewrite orb_true_r. destruct (get base k) eqn:Ek; [reflexivity |].
      destruct (get base a) as [va|] eqn:Ea; [| reflexivity].
      rewrite get_dict_set. destruct (String.eqb_spec a k); [congruence | reflexivity].
    + rewrite orb_false_r. destruct (String.eqb_spec k a) as [-> | Hne].
      * destruct (get base a) as [va|] eqn:Ea.
        -- rewrite get_dict_set, String.eqb_refl. reflexivity.
        -- reflexivity.
      * destruct (get base a) as [va|] eqn:Ea; [| reflexivity].
        rewrite get_dict_set. destruct (String.eqb_spec a k); [congruence | reflexivity].
Qed.



End RunnerMore.

Section ContainerRuns.
Import Js Types Config Runner Outbound Example.

Lemma ensureContainerNetworkAllowed_passes (mode : SandboxMode)
    (n : SandboxNetwork) :
  ensureContainerNetworkAllowed mode (network_str n) = None <-> n <> net_none.
Proof.
  unfold ensureContainerNetworkAllowed.
  destruct n; cbn [network_str].
  - change (String.eqb "none" "none") with true. cbv iota.
    split; [discriminate | congruence].
  - change (String.eqb "restricted" "none") with false. cbv iota.
    split; [discriminate | reflexivity].
  - change (String.eqb "default" "none") with false. cbv iota.
    split; [discriminate | reflexivity].
Qed.

Lemma preflight_network (env : Dict string) (request : InvocationRequest)
    (mode : SandboxMode) :
  preflight env request mode = None ->
  (if match mode with docker => true | _ => false end
   then network (docker_cfg (req_sandbox request))
   else apple_network (apple_cfg (req_sandbox request))) <> net_none.
Proof.
  unfold preflight. intros Hpre.
  apply (ensureContainerNetworkAllowed_passes mode).
  destruct (ensureContainerNetworkAllowed mode _); [discriminate | reflexivity].
Qed.

Lemma preflight_error (env : Dict string) (request : InvocationRequest)
    (mode : SandboxMode) (e : SandboxInvocationError) :
  preflight env request mode = Some e ->
  classification e = terminal /\ err_mode e = mode.
Proof.
  unfold preflight, ensureContainerNetworkAllowed. intros Hpre.
  repeat match type of Hpre with
  | context [if ?b then _ else _] => destruct b
  | context [match ?x with _ => _ end] => destruct x
  end; try discriminate; injection Hpre as <-; split; reflexivity.
Qed.

Lemma runHost_error (runProcess : RunProcess) (env : Dict string)
    (request : InvocationRequest) (x : Exn) :
  runHost runProcess env request = inl x ->
  match x with
  | SandboxError e => classification e = transient /\ err_mode e = host
  | JsError c m =>
      exists c', c = Some c' /\
        runProcess (command request) (args request) (workingDir request) env
          (timeout_seconds (req_sandbox request) * 1000)%Z = inl (c', m)
  end.
Proof.
  unfold runHost.
  destruct (runProcess (command request) (args request) (workingDir request) env
              (timeout_seconds (req_sandbox request) * 1000)%Z)
    as [[c m] | result].
  - intros H. injection H as <-. eauto.
  - destruct (p_timedOut result).
    + intros H. injection H as <-. split; reflexivity.
    + destruct (negb (bool_decide (p_code result = Some 0%Z))); [| discriminate].
      intros H. injection H as <-. split; reflexivity.
Qed.

Lemma runHost_result (runProcess : RunProcess) (env : Dict string)
    (request : InvocationRequest) (r : InvocationResult) :
  runHost runProcess env request = inr r ->
  exists result,
    runProcess (command request) (args request) (workingDir request) env
      (timeout_seconds (req_sandbox request) * 1000)%Z = inr result /\
    p_timedOut result = false /\ p_code result = Some 0%Z /\
    stdout r = p_stdout result /\ stderr r = p_stderr result /\
    pathMappings r = [] /\ res_mode r = host.
Proof.
  unfold runHost.
  destruct (runProcess (command request) (args request) (workingDir request) env
              (timeout_seconds (req_sandbox request) * 1000)%Z)
    as [[c m] | result]; [discriminate |].
  destruct (p_timedOut result) eqn:Ht; [discriminate |].
  destruct (bool_decide (p_code result = Some 0%Z)) eqn:Hc; cbn [negb];
    [| discriminate].
  apply bool_decide_eq_true in Hc.
  intros H. injection H as <-. exists result. cbn. auto 10.
Qed.

Lemma containerOutcome_error (request : InvocationRequest) (mode : SandboxMode)
    (mappings : list SandboxPathMapping) (result : ProcessResult) (x : Exn) :
  containerOutcome request mode mappings result = inl x ->
  exists e, x = SandboxError e /\ err_mode e = mode.
Proof.
  unfold containerOutcome. destruct (p_timedOut result).
  - intros H. injection H as <-. eexists. split; reflexivity.
  - destruct (negb (bool_decide (p_code result = Some 0%Z))); [| discriminate].
    intros H. injection H as <-. eexists. split; reflexivity.
Qed.

Lemma containerOutcome_result (request : InvocationRequest) (mode : SandboxMode)
    (mappings : list SandboxPathMapping) (result : ProcessResult)
    (r : InvocationResult) :
  containerOutcome request mode mappings result = inr r ->
  p_timedOut result = false /\ p_code result = Some 0%Z /\
  stdout r = p_stdout result /\ res_mode r = mode /\ pathMappings r = mappings.
Proof.
  unfold containerOutcome. destruct (p_timedOut result); [discriminate |].
  destruct (bool_decide (p_code result = Some 0%Z)) eqn:Hc; cbn [negb];
    [| discriminate].
  apply bool_decide_eq_true in Hc.
  intros H. injection H as <-. cbn. auto.
Qed.

Lemma runContainer_error (runProcess : RunProcess) (env : Dict string)
    (request : InvocationRequest) (mode : SandboxMode) (x : Exn) :
  runContainer runProcess env request mode = inl x ->
  exists e, x = SandboxError e /\ err_mode e = mode.
Proof.
  unfold runContainer.
  destruct (preflight env request mode) as [e0|] eqn:Hpre.
  { intros H. injection H as <-. exists e0. split; [reflexivity |].
    apply (preflight_error env request mode e0 Hpre). }
  destruct (getContainerPathMappings mode (workingDir request)
              (path_mapping_mode (req_sandbox request))) as [cwd mappings].
  destruct (runProcess _ _ (workingDir request) env _) as [[c m] | result].
  - destruct (String.eqb c "ENOENT"); intros H; injection H as <-;
      eexists; split; reflexivity.
  - apply containerOutcome_error.
Qed.

Lemma runContainer_result (runProcess : RunProcess) (env : Dict string)
    (request : InvocationRequest) (mode : SandboxMode) (r : InvocationResult) :
  runContainer runProcess env request mode = inr r ->
  preflight env request mode = None /\
  exists result,
    runProcess (Spec.container_runtime request mode)
      (Spec.container_argv env request mode) (workingDir request) env
      (timeout_seconds (req_sandbox request) * 1000)%Z = inr result /\
    p_timedOut result = false /\ p_code result = Some 0%Z /\
    stdout r = p_stdout result /\ res_mode r = mode /\
    pathMappings r =
      [{| containerPrefix :=
            match path_mapping_mode (req_sandbox request) with
            | mapped => "/workspace"
            | same_path => workingDir request
            end;
          hostPrefix := workingDir request |}].
Proof.
  unfold runContainer, Spec.container_argv, Spec.container_runtime.
  replace (if match mode with docker => true | _ => false end
           then "docker" else runtime_command (apple_cfg (req_sandbox request)))
    with (match mode with
          | docker => "docker"
          | _ => runtime_command (apple_cfg (req_sandbox request))
          end) by (destruct mode; reflexivity).
  destruct (preflight env request mode) as [e0|]; [discriminate |].
  assert (getContainerPathMappings mode (workingDir request)
            (path_mapping_mode (req_sandbox request)) =
          (match path_mapping_mode (req_sandbox request) with
           | mapped => "/workspace"
           | same_path => workingDir request
           end,
           [{| containerPrefix :=
                 match path_mapping_mode (req_sandbox request) with
                 | mapped => "/workspace"
                 | same_path => workingDir request
                 end;
               hostPrefix := workingDir request |}])) as ->.
  { unfold getContainerPathMappings.
    destruct (path_mapping_mode (req_sandbox request)); reflexivity. }
  cbn [fst].
  destruct (runProcess _ _ (workingDir request) env _) as [[c m] | result].
  - destruct (String.eqb c "ENOENT"); discriminate.
  - intros H. apply containerOutcome_result in H as (Ht & Hc & Hs & Hm & Hp).
    split; [reflexivity |]. exists result. auto 10.
Qed.

(** The checks before a container is started pass exactly when the
    network of the mode is not "none", the key the provider requires is on
    the allowlist, and the host environment gives that key a value that is
    not empty. *)
Theorem preflight_passes_iff (env : Dict string) (request : InvocationRequest)
    (mode : SandboxMode) :
  let sb := req_sandbox request in
  let net :=
    match mode with
    | docker => network (docker_cfg sb)
    | _ => apple_network (apple_cfg sb)
    end in
  let requiredEnv := getRequiredEnv (req_provider request) in
  preflight env request mode = None <->
  net <> net_none /\ In requiredEnv (env_allowlist sb) /\
  exists v, get env requiredEnv = Some v /\ v <> EmptyString.
Proof.
  cbv zeta. unfold preflight.
  set (net := if match mode with docker => true | _ => false end
              then network (docker_cfg (req_sandbox request))
              else apple_network (apple_cfg (req_sandbox request))).
  replace (match mode with
           | docker => network (docker_cfg (req_sandbox request))
           | _ => apple_network (apple_cfg (req_sandbox request))
           end) with net by (subst net; destruct mode; reflexivity).
  set (requiredEnv := getRequiredEnv (req_provider request)).
  assert (In requiredEnv (env_allowlist (req_sandbox request)) ->
          get (buildAllowedEnv env (env_allowlist (req_sandbox request)))
            requiredEnv = get env requiredEnv) as Hin.
  { intros Hi. unfold buildAllowedEnv. rewrite buildAllowedEnv_fold.
    apply existsb_eqb_In in Hi. rewrite Hi.
    destruct (get env requiredEnv); reflexivity. }
  pose proof (ensureContainerNetworkAllowed_passes mode net) as Hnet.
  destruct (ensureContainerNetworkAllowed mode (network_str net)) as [e|].
  { split; [discriminate |]. intros (H & _). apply Hnet in H. discriminate. }
  destruct (existsb (String.eqb requiredEnv)
              (env_allowlist (req_sandbox request))) eqn:E; cbn [negb].
  - apply existsb_eqb_In in E. rewrite (Hin E).
    destruct (get env requiredEnv) as [[|c v]|].
    + split; [discriminate |]. intros (_ & _ & v' & Hv & Hne). congruence.
    + split; [| reflexivity]. intros _.
      split; [apply Hnet; reflexivity |]. split; [exact E |].
      eexists. split; [reflexivity | discriminate].
    + split; [discriminate |]. intros (_ & _ & v' & Hv & Hne). congruence.
  - split; [discriminate |]. intros (_ & Hq & _).
    apply existsb_eqb_In in Hq. congruence.
Qed.

Lemma preflight_passes_iff_witness :
  preflight env_with_keys request_docker docker = None /\
  preflight [("HOME", "/home/u")] request_docker docker <> None.
Proof.
  split.
  - apply preflight_passes_iff. split; [discriminate |].
    split; [cbn; auto |]. eexists. split; [reflexivity | discriminate].
  - intros H. apply preflight_passes_iff in H as (_ & _ & v & Hv & _).
    discriminate.
Defined.

(** A failing check is a terminal error of the mode, and the run ends with
    it whatever the runtime would have done: the runtime is not started. *)
Theorem preflight_failure_stops_the_run (runProcess : RunProcess)
    (env : Dict string) (request : InvocationRequest) (mode : SandboxMode)
    (e : SandboxInvocationError) :
  preflight env request mode = Some e ->
  classification e = terminal /\ err_mode e = mode /\
  runContainer runProcess env request mode = inl (SandboxError e).
Proof.
  intros Hpre. destruct (preflight_error env request mode e Hpre) as [Hc Hm].
  split; [exact Hc |]. split; [exact Hm |].
  unfold runContainer. rewrite Hpre. reflexivity.
Qed.

Lemma preflight_failure_stops_the_run_witness :
  exists e,
    runContainer (fun _ _ _ _ _ => inr (exited (Some 0%Z) EmptyString))
      [("HOME", "/home/u")] request_docker docker = inl (SandboxError e) /\
    classification e = terminal.
Proof.
  destruct (preflight [("HOME", "/home/u")] request_docker docker) as [e|] eqn:E.
  - exists e.
    destruct (preflight_failure_stops_the_run
                (fun _ _ _ _ _ => inr (exited (Some 0%Z) EmptyString))
                _ _ _ _ E) as (Hc & _ & Hr).
    split; [exact Hr | exact Hc].
  - vm_compute in E. congruence.
Defined.

(** Host mode.  A sandbox error raised by [runHost] is transient; a result
    is returned only for a child that was not timed out and exited with
    code 0, it carries the child's output and no path mapping. *)
Theorem runHost_outcomes (runProcess : RunProcess) (env : Dict string)
    (request : InvocationRequest) :
  (forall e, runHost runProcess env request = inl (SandboxError e) ->
     classification e = transient /\ err_mode e = host) /\
  (forall r, runHost runProcess env request = inr r ->
     exists result,
       runProcess (command request) (args request) (workingDir request) env
         (timeout_seconds (req_sandbox request) * 1000)%Z = inr result /\
       p_timedOut result = false /\ p_code result = Some 0%Z /\
       stdout r = p_stdout result /\ stderr r = p_stderr result /\
       pathMappings r = [] /\ res_mode r = host).
Proof.
  split.
  - intros e H. apply (runHost_error runProcess env request _ H).
  - intros r H. apply (runHost_result runProcess env request r H).
Qed.

Lemma runHost_outcomes_witness :
  exists e,
    runHost (fun _ _ _ _ _ => inr (exited (Some 1%Z) "rate limited"))
      env_with_keys request_docker = inl (SandboxError e) /\
    classification e = transient.
Proof.
  eexists. split; [reflexivity |].
  destruct (runHost_outcomes
              (fun _ _ _ _ _ => inr (exited (Some 1%Z) "rate limited"))
              env_with_keys request_docker) as [H _].
  apply (H _ eq_refl).
Defined.



(** A container that is started is always given the network "bridge", and
    the image, the provider's command and its arguments close the command
    line in that order. *)
Theorem started_container_command_line (env : Dict string)
    (request : InvocationRequest) (mode : SandboxMode) :
  preflight env request mode = None ->
  exists containerWorkingDir options,
    Spec.container_argv env request mode =
    ("run" :: "--rm" :: "--workdir" :: containerWorkingDir ::
     "--network" :: "bridge" :: options ++
     [match mode with
      | docker => image (docker_cfg (req_sandbox request))
      | _ => apple_image (apple_cfg (req_sandbox request))
      end] ++ command request :: args request)%list.
Proof.
  intros Hpre. apply preflight_network in Hpre as Hnet.
  unfold Spec.container_argv, containerArgs.
  set (cwd := fst (getContainerPathMappings mode (workingDir request)
                     (path_mapping_mode (req_sandbox request)))).
  set (allowedEnv := buildAllowedEnv env (env_allowlist (req_sandbox request))).
  set (sb := req_sandbox request) in *.
  set (is_docker := match mode with docker => true | _ => false end).
  assert (dockerNetworkArg
            (network_str
               (if is_docker then network (docker_cfg sb)
                else apple_network (apple_cfg sb))) = "bridge") as ->.
  { subst is_docker. destruct mode; cbv iota in *;
      match goal with
      | |- context [network_str ?n] => destruct n
      end; try reflexivity; congruence. }
  replace (match mode with
           | docker => image (docker_cfg sb)
           | _ => apple_image (apple_cfg sb)
           end)
    with (if is_docker then image (docker_cfg sb)
          else apple_image (apple_cfg sb))
    by (subst is_docker; destruct mode; reflexivity).
  exists cwd.
  exists (["--memory";
           if is_docker then memory (docker_cfg sb)
           else apple_memory (apple_cfg sb)] ++
          ["--cpus";
           if is_docker then cpus (docker_cfg sb)
           else apple_cpus (apple_cfg sb)] ++
          (if is_docker then
             ["--pull"; "missing";
              "--pids-limit"; pretty (pids_limit (docker_cfg sb));
              "--security-opt"; "no-new-privileges";
              "--cap-drop"; "ALL";
              "--read-only";
              "--tmpfs"; "/tmp:rw,noexec,nosuid,size=256m"]
           else []) ++
          ["--user"; "1000:1000"] ++
          ["--mount";
           ("type=bind,src=" ++ workingDir request ++ ",dst=" ++ cwd)%string] ++
          ["--env"; ("HOME=" ++ Path.join2 cwd ".tinyclaw-home")%string] ++
          flat_map
            (fun '(key, value) => ["--env"; (key ++ "=" ++ value)%string])
            allowedEnv)%list.
  rewrite <- !app_assoc. reflexivity.
Qed.

Lemma started_container_command_line_witness :
  exists containerWorkingDir options,
    Spec.container_argv env_with_keys request_docker docker =
    ("run" :: "--rm" :: "--workdir" :: containerWorkingDir ::
     "--network" :: "bridge" :: options ++
     ["tinyclaw/agent-runner:latest"] ++
     ["codex"; "exec"; "--json"; "hello"])%list.
Proof.
  apply (started_container_command_line env_with_keys request_docker docker).
  reflexivity.
Defined.



End ContainerRuns.

Section InvokeMore.
Import Js Types Config Runner Invoke Models Example.

(** The answer of Codex is what the last completed agent message holds as
    its text whenever that is truthy, whatever its type and whatever the
    earlier messages held; a falsy text gives the fallback. *)
Theorem parseCodexResponse_last_message (JSON_parse : string -> option json)
    (codexOutput : string) (before after : list string) (line : string)
    (text : value) :
  split_on newline (trim codexOutput) = (before ++ line :: after)%list ->
  Spec.is_agent_message JSON_parse line text ->
  (forall l t, In l after -> ~ Spec.is_agent_message JSON_parse l t) ->
  parseCodexResponse JSON_parse codexOutput =
    match text with
    | Some j => if truthy text then j else JStr codex_fallback
    | None => JStr codex_fallback
    end.
Proof.
  intros Hlines Hline Hafter. unfold parseCodexResponse. rewrite Hlines.
  rewrite fold_left_app. cbn [fold_left].
  rewrite (codex_step_agent_message JSON_parse _ text line Hline).
  rewrite (fold_codex_other JSON_parse) by exact Hafter.
  destruct text as [j|]; reflexivity.
Qed.

Lemma parseCodexResponse_last_message_witness :
  parseCodexResponse toy_parse
    ("msg:first answer" ++ nl ++ "msg:second answer" ++ nl ++ "started") =
  JStr "second answer".
Proof.
  apply (parseCodexResponse_last_message toy_parse _
           ["msg:first answer"] ["started"] "msg:second answer"
           (Some (JStr "second answer"))).
  - reflexivity.
  - exists [("type", JStr "item.completed");
            ("item", JObj [("type", JStr "agent_message");
                           ("text", JStr "second answer")])],
           [("type", JStr "agent_message"); ("text", JStr "second answer")].
    repeat split; reflexivity.
  - intros l t [<- | []] (ms & item & Hp & Ht & _).
    injection Hp as <-. discriminate.
Defined.

(** Whatever the output and whatever [JSON.parse] makes of its lines, the
    answer of [parseCodexResponse] is truthy: never the empty string,
    [null], [false] or 0. *)
Theorem parseCodexResponse_truthy (JSON_parse : string -> option json)
    (codexOutput : string) :
  truthy (Some (parseCodexResponse JSON_parse codexOutput)) = true.
Proof.
  unfold parseCodexResponse.
  destruct (fold_left (codex_step JSON_parse)
              (split_on newline (trim codexOutput)) (Some (JStr EmptyString)))
    as [j|] eqn:E.
  - destruct (truthy (Some j)) eqn:Ht; [exact Ht | reflexivity].
  - reflexivity.
Qed.

(** The command line of the provider.  Codex is run exactly for the
    provider "openai", which is also exactly when the key required of the
    environment is OPENAI_API_KEY; every other provider runs Claude.  The
    message is the last argument.  Resetting the conversation changes the
    command line by the resume arguments only ("resume --last" for Codex,
    "-c" for Claude). *)
Theorem providerCommand_shape (provider model message : string) :
  let fresh := Invocation.providerCommand provider model message true in
  let resumed := Invocation.providerCommand provider model message false in
  (fst fresh = "codex" <-> provider = "openai") /\
  (fst fresh = "codex" <-> getRequiredEnv provider = "OPENAI_API_KEY") /\
  (fst fresh <> "codex" -> fst fresh = "claude") /\
  fst resumed = fst fresh /\
  last (snd fresh) = Some message /\
  last (snd resumed) = Some message /\
  (provider = "openai" ->
   exists rest, snd fresh = "exec" :: rest /\
                snd resumed = "exec" :: "resume" :: "--last" :: rest) /\
  (provider <> "openai" ->
   exists options, snd fresh = (options ++ ["-p"; message])%list /\
                   snd resumed = (options ++ ["-c"; "-p"; message])%list).
Proof.
  cbv zeta. unfold Invocation.providerCommand, getRequiredEnv.
  destruct (String.eqb_spec provider "openai") as [-> | Hne]; cbn [fst snd negb].
  - repeat split; try reflexivity; try congruence.
    + destruct (resolveCodexModel model); reflexivity.
    + destruct (resolveCodexModel model); reflexivity.
    + intros _. eexists. split; reflexivity.
  - repeat split; try reflexivity; try congruence; try discriminate.
    + destruct (resolveClaudeModel model); reflexivity.
    + destruct (resolveClaudeModel model); reflexivity.
    + intros _.
      exists ("--dangerously-skip-permissions" ::
              match resolveClaudeModel model with
              | EmptyString => []
              | _ => ["--model"; resolveClaudeModel model]
              end).
      destruct (resolveClaudeModel model); split; reflexivity.
Qed.

Lemma providerCommand_shape_witness :
  exists rest,
    snd (Invocation.providerCommand "openai" "gpt-5.2" "hello" true) =
      "exec" :: rest /\
    snd (Invocation.providerCommand "openai" "gpt-5.2" "hello" false) =
      "exec" :: "resume" :: "--last" :: rest.
Proof.
  destruct (providerCommand_shape "openai" "gpt-5.2" "hello")
    as (_ & _ & _ & _ & _ & _ & H & _).
  apply H. reflexivity.
Defined.

(** [invokeAgent] never lets an error escape that is not a sandbox error:
    what it raises carries the sandbox mode resolved for the agent, and is
    transient in host mode.  Its result reports that mode, and its path
    mappings are none in host mode and, in a container mode, the one
    mapping onto the working directory resolved for the agent. *)
Theorem invokeAgent_outcomes (runProcess : RunProcess) (env : Dict string)
    (JSON_parse : string -> option json) (agent : AgentConfig)
    (agentId message workspacePath : string) (shouldReset : bool)
    (settings : Settings) :
  let sb := getSandboxConfig settings (Some agent) in
  let run :=
    Invocation.invokeAgent runProcess env JSON_parse agent agentId message
      workspacePath shouldReset settings in
  (forall x, run = inl x ->
     exists e, x = SandboxError e /\ err_mode e = mode sb /\
               (mode sb = host -> classification e = transient)) /\
  (forall r, run = inr r ->
     Invocation.sandboxMode r = mode sb /\
     Invocation.pathMappings r =
       match mode sb with
       | host => []
       | _ =>
           [{| containerPrefix :=
                 match path_mapping_mode sb with
                 | mapped => "/workspace"
                 | same_path =>
                     Invocation.resolveWorkingDir agent agentId workspacePath
                 end;
               hostPrefix :=
                 Invocation.resolveWorkingDir agent agentId workspacePath |}]
       end).
Proof.
  cbv zeta. unfold Invocation.invokeAgent.
  destruct (Invocation.providerCommand _ _ _ _) as [command args].
  set (request := {| req_agentId := agentId |}).
  unfold runInSandbox.
  change (req_sandbox request) with (getSandboxConfig settings (Some agent)).
  destruct (mode (getSandboxConfig settings (Some agent))) eqn:Hm.
  - destruct (runHost runProcess env request) as [[e | c m] | result] eqn:E.
    + split; [| intros; discriminate]. intros x H. injection H as <-.
      apply runHost_error in E as [Hc He]. eauto.
    + split; [| intros; discriminate]. intros x H. injection H as <-.
      eexists. split; [reflexivity |]. split; [reflexivity | reflexivity].
    + split; [intros; discriminate |]. intros r H. injection H as <-.
      apply runHost_result in E as (_ & _ & _ & _ & _ & _ & Hp & Hmode).
      cbn. auto.
  - destruct (runContainer runProcess env request docker)
      as [[e | c m] | result] eqn:E.
    + split; [| intros; discriminate]. intros x H. injection H as <-.
      apply runContainer_error in E as (e' & He' & Hmode).
      injection He' as ->. exists e'. split; [reflexivity |].
      split; [exact Hmode | discriminate].
    + apply runContainer_error in E as (e' & He' & _). discriminate.
    + split; [intros; discriminate |]. intros r H. injection H as <-.
      apply runContainer_result in E as (_ & pr & _ & _ & _ & _ & Hmd & Hp).
      cbn. auto.
  - destruct (runContainer runProcess env request apple)
      as [[e | c m] | result] eqn:E.
    + split; [| intros; discriminate]. intros x H. injection H as <-.
      apply runContainer_error in E as (e' & He' & Hmode).
      injection He' as ->. exists e'. split; [reflexivity |].
      split; [exact Hmode | discriminate].
    + apply runContainer_error in E as (e' & He' & _). discriminate.
    + split; [intros; discriminate |]. intros r H. injection H as <-.
      apply runContainer_result in E as (_ & pr & _ & _ & _ & _ & Hmd & Hp).
      cbn. auto.
Qed.

Lemma invokeAgent_outcomes_witness :
  match Invocation.invokeAgent
          (fun _ _ _ _ _ => inl ("ENOENT", "spawn claude ENOENT"))
          env_with_keys toy_parse (toy_agent "coder") "coder" "hello"
          "/home/u/ws" false toy_settings with
  | inl (SandboxError e) => classification e = transient
  | _ => False
  end.
Proof.
  destruct (Invocation.invokeAgent
              (fun _ _ _ _ _ => inl ("ENOENT", "spawn claude ENOENT"))
              env_with_keys toy_parse (toy_agent "coder") "coder" "hello"
              "/home/u/ws" false toy_settings) as [x | r] eqn:E.
  - destruct (invokeAgent_outcomes
                (fun _ _ _ _ _ => inl ("ENOENT", "spawn claude ENOENT"))
                env_with_keys toy_parse (toy_agent "coder") "coder" "hello"
                "/home/u/ws" false toy_settings) as (H & _).
    destruct (H x E) as (e & -> & _ & Hc). apply Hc. reflexivity.
  - vm_compute in E. discriminate.
Defined.

End InvokeMore.

Section AttachedFiles.
Import Js Types Config Runner Outbound Example.

Lemma normalize_absolute (p : string) :
  Path.isAbsolute p = true -> Path.isAbsolute (Path.normalize p) = true.
Proof.
  intros Ha. unfold Path.normalize. destruct p as [|c p]; [discriminate |].
  rewrite Ha.
  destruct (join Path.sep
              (Path.normalize_segments (negb true) [] (split_on "/" (String c p))));
    reflexivity.
Qed.

Lemma join2_absolute (a b : string) :
  Path.isAbsolute a = true -> Path.isAbsolute (Path.join2 a b) = true.
Proof.
  intros Ha. unfold Path.join2. destruct a as [|c a]; [discriminate |].
  destruct b as [|d b]; apply normalize_absolute; exact Ha.
Qed.

Lemma resolveSandboxPath_sound (existsSync : string -> bool) (p h : string)
    (ms : list SandboxPathMapping) :
  resolveSandboxPath existsSync p ms = Some h ->
  existsSync h = true /\
  (Forall (fun m => Path.isAbsolute (hostPrefix m) = true) ms ->
   Path.isAbsolute h = true).
Proof.
  unfold resolveSandboxPath.
  destruct (Path.isAbsolute (trim p)) eqn:Ha; cbn [negb]; [| discriminate].
  destruct (existsSync (trim p)) eqn:He.
  - intros H. injection H as <-. auto.
  - intros H. apply resolve_in_mappings_first in H
      as (ms1 & m & ms2 & -> & _ & [_ Hex] & ->).
    split; [exact Hex |]. intros Hall.
    apply Forall_app in Hall as [_ Hall]. apply Forall_cons_1 in Hall as [Hm _].
    unfold Spec.rewritten.
    destruct (if _ : bool then _ else _); [exact Hm |].
    apply join2_absolute, Hm.
Qed.

(** Every file [parseOutboundFiles] attaches exists on the host, and is an
    absolute path when the host side of every path mapping is one. *)
Theorem attached_files_exist (existsSync : string -> bool) (text : string)
    (pathMappings : list SandboxPathMapping) (f : string) :
  In f (files (parseOutboundFiles existsSync text pathMappings)) ->
  existsSync f = true /\
  (Forall (fun m => Path.isAbsolute (hostPrefix m) = true) pathMappings ->
   Path.isAbsolute f = true).
Proof.
  intros Hin.
  destruct (parseOutboundFiles_spec existsSync pathMappings text)
    as (_ & _ & _ & Hfiles).
  apply Hfiles in Hin as (p & _ & Hp). unfold Spec.attachable in Hp.
  destruct (resolveSandboxPath existsSync p pathMappings) as [[|c r]|] eqn:E;
    try discriminate.
  injection Hp as <-. apply (resolveSandboxPath_sound _ _ _ _ E).
Qed.

Lemma attached_files_exist_witness :
  host_files "/home/u/ws/coder/out.png" = true /\
  Path.isAbsolute "/home/u/ws/coder/out.png" = true.
Proof.
  destruct (attached_files_exist host_files reply_with_tags mapped_workspace
              "/home/u/ws/coder/out.png") as [He Ha].
  - vm_compute. left. reflexivity.
  - split; [exact He |]. apply Ha. repeat constructor.
Defined.

(** A file the agent names under "/workspace" after a run in a container
    with mapped paths is looked for under the working directory of the
    request: the mapping [runInSandbox] returns and [resolveSandboxPath]
    fit together. *)
Theorem mapped_container_path_resolves (runProcess : RunProcess)
    (env : Dict string) (request : InvocationRequest) (r : InvocationResult)
    (existsSync : string -> bool) (rel : string) :
  let containerPath := "/workspace/" ++ rel in
  let hostPath :=
    match rel with
    | EmptyString => workingDir request
    | _ => Path.join2 (workingDir request) rel
    end in
  runInSandbox runProcess env request = inr r ->
  mode (req_sandbox request) <> host ->
  path_mapping_mode (req_sandbox request) = mapped ->
  trim containerPath = containerPath ->
  existsSync containerPath = false ->
  resolveSandboxPath existsSync containerPath (pathMappings r) =
    if existsSync hostPath then Some hostPath else None.
Proof.
  cbv zeta. intros Hrun Hmode Hmapped Htrim Hno.
  assert (pathMappings r =
          [{| containerPrefix := "/workspace";
              hostPrefix := workingDir request |}]) as ->.
  { unfold runInSandbox in Hrun.
    destruct (mode (req_sandbox request)); [congruence | |];
      apply runContainer_result in Hrun as (_ & pr & _ & _ & _ & _ & _ & Hp);
      rewrite Hp, Hmapped; reflexivity. }
  unfold resolveSandboxPath. rewrite Htrim, Hno.
  change (Path.isAbsolute ("/workspace/" ++ rel)) with true. cbn [negb].
  rewrite resolve_in_mappings_cons. cbn [containerPrefix].
  change (endsWith "/workspace" Path.sep) with false. cbv iota.
  change (startsWith ("/workspace/" ++ rel) ("/workspace" ++ Path.sep))
    with (startsWith rel EmptyString).
  assert (startsWith rel EmptyString = true) as -> by (destruct rel; reflexivity).
  rewrite orb_true_r.
  change (Spec.rewritten
            {| containerPrefix := "/workspace";
               hostPrefix := workingDir request |} ("/workspace/" ++ rel))
    with (match rel with
          | EmptyString => workingDir request
          | _ => Path.join2 (workingDir request) rel
          end).
  reflexivity.
Qed.

Lemma mapped_container_path_resolves_witness :
  match runInSandbox (fun _ _ _ _ _ => inr (exited (Some 0%Z) EmptyString))
          env_with_keys request_docker with
  | inr r =>
      resolveSandboxPath host_files "/workspace/out.png" (pathMappings r) =
      Some "/home/u/ws/coder/out.png"
  | inl _ => False
  end.
Proof.
  destruct (runInSandbox (fun _ _ _ _ _ => inr (exited (Some 0%Z) EmptyString))
              env_with_keys request_docker) as [x | r] eqn:E.
  - vm_compute in E. discriminate.
  - apply (mapped_container_path_resolves _ _ _ r host_files "out.png" E).
    + discriminate.
    + reflexivity.
    + reflexivity.
    + reflexivity.
Defined.

End AttachedFiles.

Section Redaction.
Import Js Types Runner Outbound Example.

Lemma redact_skip (n : nat) (s : string) :
  redact n s = redact 0 (drop n s).
Proof.
  revert n. induction s as [|c s IH]; intros [|n]; try reflexivity.
  cbn [redact drop]. apply IH.
Qed.

Lemma span_nonspace_append (a b : string) :
  span_nonspace a = String.length a ->
  (b = EmptyString \/ exists c b', b = String c b' /\ is_space c = true) ->
  span_nonspace (a ++ b) = String.length a.
Proof.
  intros Ha Hb. induction a as [|x a IH].
  - rewrite append_nil_l. destruct Hb as [-> | (c & b' & -> & Hc)].
    + reflexivity.
    + cbn [span_nonspace]. rewrite Hc. reflexivity.
  - rewrite append_cons. cbn [span_nonspace String.length] in *.
    destruct (is_space x); [discriminate |].
    f_equal. apply IH. congruence.
Qed.

Lemma match_secret_key (k secret post : string) :
  k = "ANTHROPIC_API_KEY" \/ k = "OPENAI_API_KEY" ->
  secret <> EmptyString ->
  span_nonspace secret = String.length secret ->
  (post = EmptyString \/ exists c b', post = String c b' /\ is_space c = true) ->
  match_secret (k ++ "=" ++ secret ++ post) =
    Some (k, (String.length k + 1 + String.length secret)%nat).
Proof.
  intros Hk Hne Hspan Hpost.
  pose proof (span_nonspace_append secret post Hspan Hpost) as Hs.
  destruct secret as [|x secret]; [congruence |].
  unfold match_secret. destruct Hk as [-> | ->].
  - change (startsWith ("ANTHROPIC_API_KEY" ++ "=" ++ String x secret ++ post)
              ("ANTHROPIC_API_KEY" ++ "=")) with true. cbv iota.
    change (drop (String.length "ANTHROPIC_API_KEY" + 1)
              ("ANTHROPIC_API_KEY" ++ "=" ++ String x secret ++ post))
      with (String x secret ++ post).
    rewrite Hs. reflexivity.
  - change (startsWith ("OPENAI_API_KEY" ++ "=" ++ String x secret ++ post)
              ("ANTHROPIC_API_KEY" ++ "=")) with false. cbv iota.
    change (startsWith ("OPENAI_API_KEY" ++ "=" ++ String x secret ++ post)
              ("OPENAI_API_KEY" ++ "=")) with true. cbv iota.
    change (drop (String.length "OPENAI_API_KEY" + 1)
              ("OPENAI_API_KEY" ++ "=" ++ String x secret ++ post))
      with (String x secret ++ post).
    rewrite Hs. reflexivity.
Qed.

Lemma redact_literal (pre rest : string) :
  (forall i, (i < String.length pre)%nat ->
     match_secret (drop i (pre ++ rest)) = None) ->
  redact 0 (pre ++ rest) = pre ++ redact 0 rest.
Proof.
  induction pre as [|c pre IH]; intros Hno.
  - reflexivity.
  - rewrite !append_cons. cbn [redact].
    pose proof (Hno 0%nat ltac:(cbn; lia)) as H0.
    cbn [drop] in H0. rewrite append_cons in H0. rewrite H0.
    f_equal. apply IH. intros i Hi.
    apply (Hno (S i)). cbn. lia.
Qed.

(** A key of a provider that the text of an error carries is replaced by
    "[REDACTED]": where the first assignment to ANTHROPIC_API_KEY or
    OPENAI_API_KEY stands in the text, the value, which runs to the next
    white space, does not reach the message that is logged, written to the
    dead-letter record and shown; the text before it is kept. *)
Theorem toSafeErrorMessage_hides_key (error : Exn) (pre k secret post : string) :
  error_text error = pre ++ k ++ "=" ++ secret ++ post ->
  k = "ANTHROPIC_API_KEY" \/ k = "OPENAI_API_KEY" ->
  secret <> EmptyString ->
  span_nonspace secret = String.length secret ->
  (post = EmptyString \/ exists c b', post = String c b' /\ is_space c = true) ->
  (forall i, (i < String.length pre)%nat ->
     match_secret (drop i (error_text error)) = None) ->
  toSafeErrorMessage error = pre ++ k ++ "=[REDACTED]" ++ redact 0 post.
Proof.
  intros Htext Hk Hne Hspan Hpost Hpre. unfold toSafeErrorMessage.
  rewrite Htext in *.
  rewrite redact_literal by exact Hpre. f_equal.
  pose proof (match_secret_key k secret post Hk Hne Hspan Hpost) as Hm.
  assert (exists c rest, k ++ "=" ++ secret ++ post = String c rest /\
                         drop (String.length k + 1 + String.length secret - 1) rest
                         = post) as (c & rest & Hc & Hdrop).
  { destruct Hk as [-> | ->]; eexists; eexists; (split; [reflexivity |]);
      cbn [String.length Nat.add Nat.sub];
      rewrite ?Nat.sub_0_r;
      change (?n + S ?m)%nat with (S (n + m))%nat; cbn [drop];
      rewrite <- (drop_append secret post) at 2; f_equal; lia. }
  rewrite Hc in *. cbn [redact]. rewrite Hm.
  do 2 f_equal. rewrite redact_skip, Hdrop. reflexivity.
Qed.

Lemma toSafeErrorMessage_hides_key_witness :
  toSafeErrorMessage
    (JsError None "spawn failed: OPENAI_API_KEY=sk-12345 was rejected") =
  "spawn failed: OPENAI_API_KEY=[REDACTED] was rejected".
Proof.
  apply (toSafeErrorMessage_hides_key _ "spawn failed: " "OPENAI_API_KEY"
           "sk-12345" " was rejected").
  - reflexivity.
  - right. reflexivity.
  - discriminate.
  - reflexivity.
  - right. eexists. eexists. split; reflexivity.
  - intros i Hi. cbn in Hi.
    do 14 (destruct i as [|i]; [vm_compute; reflexivity |]). lia.
Defined.

End Redaction.

Section HeartbeatErrors.
Import Js Heartbeat.

(** The errors of the heartbeat are logged once per window.  A call that
    answers no leaves the cache as it is.  After a call that answered yes
    at [now], a message with the same first 160 characters is answered no
    until 60000 ms have passed and yes from then on; the answer for a
    message that differs in its first 160 characters is not affected. *)
Theorem heartbeat_error_logged_once_per_window (now : Z) (message : string)
    (cache : gmap string Z) :
  let result := shouldLogHeartbeatError now message cache in
  (fst result = false -> snd result = cache) /\
  (fst result = true ->
   forall now' message',
     take 160 message' = take 160 message ->
     fst (shouldLogHeartbeatError now' message' (snd result)) =
       negb (now' - now <? HEARTBEAT_ERROR_DEDUPE_MS)%Z) /\
  (forall now' message',
     take 160 message' <> take 160 message ->
     fst (shouldLogHeartbeatError now' message' (snd result)) =
     fst (shouldLogHeartbeatError now' message' cache)).
Proof.
  cbv zeta. unfold shouldLogHeartbeatError.
  destruct (now - or_num (cache !! take 160 message) 0 <? HEARTBEAT_ERROR_DEDUPE_MS)%Z
    eqn:E; cbn [fst snd].
  - split; [reflexivity |]. split; [discriminate | reflexivity].
  - split; [discriminate |]. split.
    + intros _ now' message' Hkey. rewrite Hkey, lookup_insert_eq.
      assert (or_num (Some now) 0 = now) as ->.
      { unfold or_num. destruct (Z.eqb_spec now 0); congruence. }
      destruct (now' - now <? HEARTBEAT_ERROR_DEDUPE_MS)%Z; reflexivity.
    + intros now' message' Hkey.
      rewrite lookup_insert_ne by congruence.
      destruct (now' - or_num (cache !! take 160 message') 0 <?
                HEARTBEAT_ERROR_DEDUPE_MS)%Z; reflexivity.
Qed.

Lemma heartbeat_error_logged_once_per_window_witness :
  fst (shouldLogHeartbeatError 100500
         "claude: connection refused"
         (snd (shouldLogHeartbeatError 100000 "claude: connection refused" ∅)))
  = false.
Proof.
  destruct (heartbeat_error_logged_once_per_window 100000
              "claude: connection refused" ∅) as (_ & H & _).
  rewrite (H eq_refl 100500%Z "claude: connection refused" eq_refl).
  reflexivity.
Defined.

(** With nothing recorded yet for a message, the error is logged exactly
    when the clock reads 60000 ms or more. *)
Theorem heartbeat_first_error (now : Z) (message : string)
    (cache : gmap string Z) :
  cache !! take 160 message = None ->
  fst (shouldLogHeartbeatError now message cache) =
    (HEARTBEAT_ERROR_DEDUPE_MS <=? now)%Z.
Proof.
  intros Hnew. unfold shouldLogHeartbeatError. rewrite Hnew. cbn [or_num].
  rewrite Z.sub_0_r.
  destruct (Z.ltb_spec now HEARTBEAT_ERROR_DEDUPE_MS);
    destruct (Z.leb_spec HEARTBEAT_ERROR_DEDUPE_MS now); try reflexivity; lia.
Qed.

Lemma heartbeat_first_error_witness :
  fst (shouldLogHeartbeatError 1700000000000 "claude: connection refused" ∅)
  = true.
Proof.
  rewrite (heartbeat_first_error 1700000000000 "claude: connection refused" ∅).
  - reflexivity.
  - apply lookup_empty.
Defined.

End HeartbeatErrors.

Section RecoveryTrace.
Import Js Types Runner Store Processor Example.

Lemma recover_fold_oplog (l : list string) (q : Queue) :
  NoDup l ->
  (forall f, In f l -> is_Some (processing q !! f)) ->
  oplog (fold_left recover_one l q) =
  (oplog q ++ map (fun f => Rename QUEUE_PROCESSING f QUEUE_INCOMING f) l)%list.
Proof.
  revert q. induction l as [|f l IH]; intros q Hnd Hin.
  - cbn. rewrite app_nil_r. reflexivity.
  - inversion Hnd as [|? ? Hnotin Hnd']; subst. cbn [fold_left map].
    rewrite IH.
    + destruct (Hin f (or_introl eq_refl)) as [c Hc].
      unfold recover_one, rename_to_incoming. rewrite Hc. cbn [oplog].
      rewrite <- app_assoc. reflexivity.
    + exact Hnd'.
    + intros g Hg.
      assert (f <> g) as Hne
        by (intros ->; apply Hnotin, list_elem_of_In, Hg).
      rewrite (proj1 (recover_one_other q f g Hne)).
      apply Hin. right. exact Hg.
Qed.

Lemma NoDup_readdirSync {A} (dir : gmap string A) : NoDup (readdirSync dir).
Proof. unfold readdirSync. apply NoDup_fst_map_to_list. Qed.

Lemma NoDup_list_filter {A} (p : A -> bool) (l : list A) :
  NoDup l -> NoDup (List.filter p l).
Proof.
  induction l as [|x l IH]; intros Hnd; [exact Hnd |].
  apply NoDup_cons in Hnd as [Hx Hnd]. cbn [List.filter].
  destruct (p x); [| apply IH, Hnd].
  apply NoDup_cons. split; [| apply IH, Hnd].
  intros Hin. apply Hx. apply list_elem_of_In in Hin.
  apply filter_In in Hin as [Hin _]. apply list_elem_of_In, Hin.
Qed.

(** Recovery issues file system calls of one kind only: one rename from
    [processing] to [incoming] for each ".json" file of [processing], and
    nothing else is written or deleted.  Run a second time it finds nothing
    to do and leaves the queue as it is. *)
Theorem recoverOrphanedFiles_trace (q : Queue) :
  oplog (recoverOrphanedFiles q) =
    (oplog q ++
     map (fun f => Rename QUEUE_PROCESSING f QUEUE_INCOMING f)
       (List.filter (fun f => endsWith f ".json") (readdirSync (processing q))))%list /\
  recoverOrphanedFiles (recoverOrphanedFiles q) = recoverOrphanedFiles q.
Proof.
  split.
  - unfold recoverOrphanedFiles. apply recover_fold_oplog.
    + apply NoDup_list_filter, NoDup_readdirSync.
    + intros f Hf. apply filter_In in Hf as [Hf _].
      apply In_readdirSync, Hf.
  - set (q' := recoverOrphanedFiles q).
    assert (List.filter (fun f => endsWith f ".json")
              (readdirSync (processing q')) = []) as Hnil.
    { destruct (List.filter (fun f => endsWith f ".json")
                  (readdirSync (processing q'))) as [|f l] eqn:E; [reflexivity |].
      exfalso.
      assert (In f (List.filter (fun f => endsWith f ".json")
                      (readdirSync (processing q')))) as Hf
        by (rewrite E; left; reflexivity).
      apply filter_In in Hf as [Hf Hjson].
      apply In_readdirSync in Hf as [c Hc].
      subst q'. unfold recoverOrphanedFiles in Hc.
      destruct (recover_fold
                  (List.filter (fun f => endsWith f ".json")
                     (readdirSync (processing q))) q) as (Hin & Hout & _).
      destruct (in_dec string_dec f
                  (List.filter (fun f => endsWith f ".json")
                     (readdirSync (processing q)))) as [Hi | Hni].
      - destruct (Hin f Hi) as [Hnone _]. congruence.
      - destruct (Hout f Hni) as [Hsame _]. rewrite Hsame in Hc.
        apply Hni. apply filter_In. split; [| exact Hjson].
        apply In_readdirSync. eauto. }
    unfold recoverOrphanedFiles at 1. fold q'. rewrite Hnil. reflexivity.
Qed.

End RecoveryTrace.

Section MessageDefaults.
Import Js Types Runner Store Processor Example.

Lemma or_num_or_num (a : option Z) : or_num (Some (or_num a 0)) 0 = or_num a 0.
Proof.
  unfold or_num. destruct a as [n|]; [| reflexivity].
  destruct (Z.eqb_spec n 0) as [-> | Hne]; [reflexivity |].
  destruct (Z.eqb_spec n 0); congruence.
Qed.

(** The defaults written into a message when it is read are stable: the
    message read again, as after a retry, keeps its attempt count and the
    time it was first seen, whatever the clock then reads, provided the
    clock did not read 0 the first time. *)
Theorem with_defaults_stable (now now' : Z) (m : MessageData) :
  now <> 0%Z ->
  with_defaults now' (with_defaults now m) = with_defaults now m.
Proof.
  intros Hnow. unfold with_defaults.
  cbn [channel sender senderId message timestamp messageId agent Types.files
       attempt firstSeenAt errorClass].
  rewrite or_num_or_num. f_equal. f_equal.
  set (t := match or_num (firstSeenAt m) 0 with
            | 0%Z => or_num (Some (timestamp m)) now
            | t => t
            end).
  assert (t <> 0%Z) as Ht.
  { subst t. destruct (or_num (firstSeenAt m) 0) eqn:E; try discriminate.
    unfold or_num. destruct (Z.eqb_spec (timestamp m) 0); congruence. }
  unfold or_num at 1. destruct (Z.eqb_spec t 0); [contradiction |].
  destruct t; congruence.
Qed.

Lemma with_defaults_stable_witness :
  with_defaults 9000 (with_defaults 5000 (toy_message "m1" "hello" None)) =
  with_defaults 5000 (toy_message "m1" "hello" None).
Proof.
  apply with_defaults_stable. discriminate.
Defined.

(** The response of every step of a chain occurs in the aggregated
    response. *)
Theorem aggregate_holds_every_response (chainSteps : list ChainStep)
    (step : ChainStep) :
  In step chainSteps ->
  Spec.occurs_in (response step) (aggregate chainSteps).
Proof.
  intros Hin. unfold aggregate.
  assert (Spec.occurs_in (response step)
            (join (nl ++ nl ++ "---" ++ nl ++ nl)
               (map (fun s => "@" ++ agentId s ++ ": " ++ response s)
                  chainSteps))) as Hjoin.
  { destruct (occurs_in_join (nl ++ nl ++ "---" ++ nl ++ nl)
                ("@" ++ agentId step ++ ": " ++ response step)
                (map (fun s => "@" ++ agentId s ++ ": " ++ response s) chainSteps))
      as (pre & post & Heq).
    - apply in_map_iff. exists step. split; [reflexivity | exact Hin].
    - rewrite Heq.
      exists (pre ++ "@" ++ agentId step ++ ": "), post.
      rewrite !append_assoc. reflexivity. }
  destruct chainSteps as [|s [|s' l]]; [destruct Hin | | exact Hjoin].
  destruct Hin as [<- | []].
  exists EmptyString, EmptyString. rewrite append_nil_r. reflexivity.
Qed.

Lemma aggregate_holds_every_response_witness :
  Spec.occurs_in "done"
    (aggregate [{| agentId := "lead"; response := "@coder implement X" |};
                {| agentId := "coder"; response := "done" |}]).
Proof.
  apply (aggregate_holds_every_response _
           {| agentId := "coder"; response := "done" |}).
  right. left. reflexivity.
Defined.

End MessageDefaults.

Section ChainGrowth.
Import Js Types Runner Store Processor Example.
Variable H : Host.
Variables (workspacePath : string) (agents : Dict AgentConfig)
  (teams : Dict TeamConfig) (settings : Settings)
  (teamId : string) (shouldReset : bool).

(** A chain only ever appends.  When the loop ends without an error, the
    steps and the path mappings it was entered with are a prefix of those
    it returns; and when the agent it was entered with is configured, the
    first step it adds is that agent's. *)
Theorem chainLoop_appends (fuel : nat) (w w' : World H)
    (chainSteps chainSteps' : list ChainStep)
    (allPathMappings allPathMappings' : list SandboxPathMapping)
    (currentAgentId currentMessage : string) :
  chainLoop H workspacePath agents teams settings teamId shouldReset fuel w
    chainSteps allPathMappings currentAgentId currentMessage =
    Some (w', inr (chainSteps', allPathMappings')) ->
  exists steps mappings,
    chainSteps' = (chainSteps ++ steps)%list /\
    allPathMappings' = (allPathMappings ++ mappings)%list /\
    match get agents currentAgentId with
    | None => steps = [] /\ mappings = [] /\ w' = w
    | Some _ =>
        exists r rest, steps = {| agentId := currentAgentId; response := r |} :: rest
    end.
Proof.
  revert w chainSteps allPathMappings currentAgentId currentMessage.
  induction fuel as [|fuel IH];
    intros w chainSteps allPathMappings currentAgentId currentMessage Hloop;
    [discriminate |].
  cbn [chainLoop] in Hloop.
  destruct (get agents currentAgentId) as [currentAgent|] eqn:Hagent.
  2:{ injection Hloop as <- <- <-. exists [], [].
      rewrite !app_nil_r. auto. }
  destruct (stepReset H workspacePath shouldReset chainSteps currentAgentId w)
    as [currentShouldReset w1].
  destruct (invokeAgent H w1 currentAgent currentAgentId currentMessage
              workspacePath currentShouldReset agents teams settings)
    as [w2 [e | stepResult]]; [discriminate |].
  destruct (extractTeammateMentions H (inv_response stepResult) currentAgentId
              teamId teams agents) as [|mention [|mention' mentions]].
  - injection Hloop as <- <- <-. do 2 eexists.
    split; [reflexivity |]. split; [reflexivity |]. eauto.
  - apply IH in Hloop as (steps & mappings & -> & -> & _).
    exists ({| agentId := currentAgentId; response := inv_response stepResult |}
            :: steps), (inv_pathMappings stepResult ++ mappings)%list.
    rewrite <- !app_assoc. split; [reflexivity |]. split; [reflexivity |]. eauto.
  - destruct (fanOut H workspacePath agents teams settings currentAgentId w2
                (mention :: mention' :: mentions)) as [w3 results].
    destruct (promise_all results) as [e | fanOutResults]; [discriminate |].
    injection Hloop as <- <- <-.
    exists ({| agentId := currentAgentId; response := inv_response stepResult |}
            :: map fst fanOutResults),
           (inv_pathMappings stepResult ++ concat (map snd fanOutResults))%list.
    rewrite <- !app_assoc. split; [reflexivity |]. split; [reflexivity |]. eauto.
Qed.

End ChainGrowth.

Section ChainGrowthExample.
Import Js Types Runner Store Processor Example.

Lemma chainLoop_appends_witness :
  match toy_chain 10 5000 [] [] "lead" "plan this" with
  | Some (_, inr (steps, _)) =>
      exists r rest, steps = {| agentId := "lead"; response := r |} :: rest
  | _ => False
  end.
Proof.
  destruct (toy_chain 10 5000 [] [] "lead" "plan this")
    as [[w' [e | [steps maps]]]|] eqn:E;
    try (vm_compute in E; discriminate).
  unfold toy_chain in E.
  apply chainLoop_appends in E as (steps' & mappings & Hs & Hm & Hfirst).
  cbn [app] in Hs. subst steps'.
  change (get _ "lead") with (Some (toy_agent "lead")) in Hfirst.
  exact Hfirst.
Defined.

End ChainGrowthExample.

Section MessageHandling.
Import Js Types Config Runner Outbound Store Processor Example.
Variable H : Host.

Lemma rename_to_processing_Some (f : string) (q q1 : Queue) :
  rename_to_processing f q = Some q1 ->
  exists c,
    incoming q !! f = Some c /\
    incoming q1 = delete f (incoming q) /\
    processing q1 = <[f := c]> (processing q) /\
    outgoing q1 = outgoing q /\ deadLetter q1 = deadLetter q /\
    oplog q1 = (oplog q ++ [Rename QUEUE_INCOMING f QUEUE_PROCESSING f])%list.
Proof.
  unfold rename_to_processing. destruct (incoming q !! f) as [c|]; [| discriminate].
  intros Hq. injection Hq as <-. exists c. repeat split.
Qed.

Lemma write_then_unlink (f : string) (q1 : Queue) (nw : Z)
    (ch sd msg orig mid : string) (ag : option string)
    (fl : option (list string)) :
  is_Some (processing q1 !! f) ->
  exists q3,
    unlink_processing f (writeOutgoingResponse nw ch sd msg orig mid ag fl q1) =
      Some q3 /\
    Trace.answered f q1 q3.
Proof.
  intros [c Hc]. unfold unlink_processing.
  cbn [writeOutgoingResponse processing]. rewrite Hc.
  eexists. split; [reflexivity |].
  do 2 eexists.
  cbn [writeOutgoingResponse incoming processing outgoing deadLetter oplog].
  repeat split. rewrite <- app_assoc. reflexivity.
Qed.

Lemma deliver_answers (f : string) (ctx : ErrCtx) (agentId finalResponse : string)
    (allPathMappings : list SandboxPathMapping) (w : World H) (q1 : Queue) :
  is_Some (processing q1 !! f) ->
  exists q3,
    deliver H f ctx agentId finalResponse allPathMappings w q1 = Completed w q3 /\
    Trace.answered f q1 q3.
Proof.
  intros Hp. unfold deliver.
  destruct (attachFiles (existsSync H w) finalResponse allPathMappings)
    as [text parsedFiles].
  match goal with
  | |- context [unlink_processing f (writeOutgoingResponse ?a ?b ?c ?d ?e ?g ?h ?i q1)] =>
      destruct (write_then_unlink f q1 a b c d e g h i Hp) as (q3 & -> & Ha)
  end.
  eauto.
Qed.

(** How the [try] block can end. *)
Lemma tryBlock_cases (fuel : nat) (f : string) (w : World H) (q : Queue)
    (o : Outcome (World H)) :
  tryBlock H fuel f w q = Some o ->
  match rename_to_processing f q with
  | None => exists e ctx, o = Thrown e ctx w q /\ messageData ctx = None
  | Some q1 =>
      (exists e ctx w', o = Thrown e ctx w' q1) \/
      (exists w' q3, o = Completed w' q3 /\ Trace.answered f q1 q3)
  end.
Proof.
  unfold tryBlock.
  destruct (rename_to_processing f q) as [q1|] eqn:Hr.
  2:{ intros Ho. injection Ho as <-. eauto. }
  apply rename_to_processing_Some in Hr as (c & _ & _ & Hp & _).
  assert (is_Some (processing q1 !! f)) as Hsome
    by (rewrite Hp, lookup_insert_eq; eauto).
  assert (processing q1 !! f = Some c) as ->
    by (rewrite Hp; apply lookup_insert_eq).
  destruct c as [parsed | text]; [| intros Ho; injection Ho as <-; eauto 10].
  cbv zeta.
  match goal with
  | |- context [match ?x with (_, _) => _ end] =>
      destruct x as [[agentId msg] isTeamRouted]
  end.
  destruct (String.eqb agentId "error").
  { match goal with
    | |- context [unlink_processing f (writeOutgoingResponse ?a ?b ?c ?d ?e ?g ?h ?i q1)] =>
        destruct (write_then_unlink f q1 a b c d e g h i Hsome) as (q3 & -> & Ha)
    end.
    intros Ho. injection Ho as <-. eauto 10. }
  match goal with
  | |- context [match ?x with (_, _) => _ end] => destruct x as [agentId' msg']
  end.
  match goal with
  | |- context [match get ?a ?k with Some agent => _ | None => Some (Thrown _ _ _ _) end] =>
      destruct (get a k) as [agent|]
  end.
  2:{ intros Ho. injection Ho as <-. eauto 10. }
  match goal with
  | |- context [consumeReset H ?a ?b] => destruct (consumeReset H a b) as [shouldReset w1]
  end.
  match goal with
  | |- context [teamContextOf H ?a ?b ?c] =>
      destruct (teamContextOf H a b c) as [[teamId team]|]
  end.
  - match goal with
    | |- context [chainLoop H ?a ?b ?c ?d ?e ?g fuel ?h ?i ?j ?k ?l] =>
        destruct (chainLoop H a b c d e g fuel h i j k l)
          as [[w2 [e' | [chainSteps allPathMappings]]]|]
    end.
    + intros Ho. injection Ho as <-. eauto 10.
    + match goal with
      | |- context [deliver H f ?ctx ?a ?r ?m ?w' q1] =>
          destruct (deliver_answers f ctx a r m w' q1 Hsome) as (q3 & -> & Ha)
      end.
      intros Ho. injection Ho as <-. eauto 10.
    + discriminate.
  - match goal with
    | |- context [invokeAgent H ?a ?b ?c ?d ?e ?g ?h ?i ?j] =>
        destruct (invokeAgent H a b c d e g h i j) as [w2 [e' | result]]
    end.
    + intros Ho. injection Ho as <-. eauto 10.
    + match goal with
      | |- context [deliver H f ?ctx ?a ?r ?m ?w' q1] =>
          destruct (deliver_answers f ctx a r m w' q1 Hsome) as (q3 & -> & Ha)
      end.
      intros Ho. injection Ho as <-. eauto 10.
Qed.

(** How the [catch] block can end. *)
Lemma catchBlock_cases (f : string) (error : Exn) (ctx : ErrCtx)
    (w : World H) (q : Queue) :
  (is_Some (processing q !! f) /\ is_Some (messageData ctx) /\
   Trace.requeued f q (catchBlock H f error ctx w q)) \/
  Trace.dead_lettered f q (catchBlock H f error ctx w q).
Proof.
  unfold catchBlock.
  set (errorClass := match error with
                     | SandboxError e => classification e
                     | JsError _ _ => transient
                     end).
  set (terminal' := match errorClass with terminal => true | transient => false end).
  set (maxAttempts := max_attempts (getSandboxConfig (settings ctx) None)).
  set (attempt' := (or_num (opt_field (messageData ctx) attempt) 0 + 1)%Z).
  destruct (if negb terminal' && negb (maxAttempts <=? attempt')%Z
            then match messageData ctx, processing q !! f with
                 | Some md, Some _ => requeue (now H w) f md attempt' q
                 | _, _ => None
                 end
            else None) as [q'|] eqn:Hre.
  - left.
    destruct (negb terminal' && negb (maxAttempts <=? attempt')%Z);
      [| discriminate].
    destruct (messageData ctx) as [md|]; [| discriminate].
    destruct (processing q !! f) as [c|] eqn:Hc; [| discriminate].
    split; [eauto |]. split; [eauto |].
    unfold requeue, rename_to_incoming in Hre.
    cbn [write_processing processing] in Hre. rewrite lookup_insert_eq in Hre.
    injection Hre as <-. eexists.
    cbn [incoming processing outgoing deadLetter oplog].
    split; [reflexivity |]. split; [apply delete_insert_eq |].
    split; [reflexivity |]. split; [reflexivity |].
    rewrite <- app_assoc. reflexivity.
  - right. clear Hre.
    set (q1 := writeDeadLetter (now H w) f (messageData ctx)
                 (if terminal' then terminal else transient)
                 (toSafeErrorMessage error) attempt' maxAttempts q).
    match goal with
    | |- context [unlink_processing f ?t] => set (q2 := t)
    end.
    assert (incoming q2 = incoming q /\ processing q2 = processing q /\
            (exists df d, deadLetter q2 = <[df := d]> (deadLetter q) /\
               exists replies,
                 ((replies = [] /\ outgoing q2 = outgoing q) \/
                  (exists rf rd, replies = [WriteFile QUEUE_OUTGOING rf] /\
                                 outgoing q2 = <[rf := rd]> (outgoing q))) /\
                 oplog q2 =
                   (oplog q ++ WriteFile QUEUE_DEAD_LETTER df :: replies)%list))
      as (Hi & Hp & df & d & Hd & replies & Hr & Ho).
    { subst q2 q1.
      destruct (messageData ctx) as [md|];
        [destruct (channelForError ctx); [| destruct (senderForError ctx);
           [| destruct (messageIdForError ctx)]] |];
        cbn [writeOutgoingResponse writeDeadLetter incoming processing
             deadLetter outgoing oplog];
        (split; [reflexivity |]); (split; [reflexivity |]);
        do 2 eexists; (split; [reflexivity |]);
        try (exists []; split; [left; split; reflexivity |]; reflexivity).
      eexists. split; [right; do 2 eexists; split; reflexivity |].
      rewrite <- app_assoc. reflexivity. }
    exists df, d, replies. unfold unlink_processing. rewrite Hp.
    destruct (processing q !! f) as [c|] eqn:Hc;
      cbn [incoming processing outgoing deadLetter oplog].
    + rewrite Ho. split; [exact Hi |]. split; [reflexivity |].
      split; [exact Hd |]. split; [exact Hr |].
      rewrite <- app_assoc. reflexivity.
    + rewrite Ho, app_nil_r, (delete_id _ _ Hc).
      split; [exact Hi |]. split; [exact Hp |].
      split; [exact Hd |]. split; [exact Hr | reflexivity].
Qed.

(** How [processMessage] can end. *)
Lemma processMessage_cases (fuel : nat) (f : string) (w w' : World H)
    (q q' : Queue) :
  processMessage H fuel f w q = Some (w', q') ->
  match rename_to_processing f q with
  | None => Trace.dead_lettered f q q'
  | Some q1 =>
      Trace.answered f q1 q' \/ Trace.requeued f q1 q' \/
      Trace.dead_lettered f q1 q'
  end.
Proof.
  unfold processMessage.
  destruct (tryBlock H fuel f w q) as [o|] eqn:Htry; [| discriminate].
  apply tryBlock_cases in Htry.
  destruct (rename_to_processing f q) as [q1|].
  - destruct Htry as [(e & ctx & w1 & ->) | (w1 & q3 & -> & Ha)].
    + intros Hq. injection Hq as <- <-.
      destruct (catchBlock_cases f e ctx w1 q1) as [(_ & _ & Hre) | Hd]; auto.
    + intros Hq. injection Hq as <- <-. auto.
  - destruct Htry as (e & ctx & -> & Hmd).
    intros Hq. injection Hq as <- <-.
    destruct (catchBlock_cases f e ctx w q) as [(_ & [md Hsome] & _) | Hd];
      [congruence | exact Hd].
Qed.


(** Whatever happens to a message, its file is not left in [processing];
    the other files of [incoming] and [processing] are not touched; no file
    name disappears from [outgoing] or from the dead-letter directory; and
    the file system calls already made are not forgotten. *)
Theorem processMessage_frame (fuel : nat) (f : string) (w w' : World H)
    (q q' : Queue) :
  processMessage H fuel f w q = Some (w', q') ->
  processing q' !! f = None /\
  (forall g, g <> f ->
     processing q' !! g = processing q !! g /\
     incoming q' !! g = incoming q !! g) /\
  (forall g, is_Some (outgoing q !! g) -> is_Some (outgoing q' !! g)) /\
  (forall g, is_Some (deadLetter q !! g) -> is_Some (deadLetter q' !! g)) /\
  exists ops, oplog q' = (oplog q ++ ops)%list.
Proof.
  intros Hpm. apply processMessage_cases in Hpm.
  assert (forall {A} (m : gmap string A) k v g,
            is_Some (m !! g) -> is_Some (<[k := v]> m !! g)) as Hgrow.
  { intros A m k v g Hg. destruct (decide (k = g)) as [-> | Hne].
    - rewrite lookup_insert_eq. eauto.
    - rewrite lookup_insert_ne by exact Hne. exact Hg. }
  assert (forall q0 q1,
            Trace.answered f q0 q1 \/ Trace.requeued f q0 q1 \/
            Trace.dead_lettered f q0 q1 ->
            processing q1 !! f = None /\
            (forall g, g <> f ->
               processing q1 !! g = processing q0 !! g /\
               incoming q1 !! g = incoming q0 !! g) /\
            (forall g, is_Some (outgoing q0 !! g) -> is_Some (outgoing q1 !! g)) /\
            (forall g, is_Some (deadLetter q0 !! g) ->
                       is_Some (deadLetter q1 !! g)) /\
            exists ops, oplog q1 = (oplog q0 ++ ops)%list) as Hstep.
  { intros q0 q1 [Ha | [Hre | Hdl]].
    - destruct Ha as (rf & rd & Hi & Hp & Ho & Hd & Hl).
      rewrite Hi, Hp, Ho, Hd, Hl. split; [apply lookup_delete_eq |].
      split; [intros g Hg; rewrite lookup_delete_ne by congruence; auto |].
      split; [intros g; apply Hgrow |]. split; [auto | eauto].
    - destruct Hre as (md' & Hi & Hp & Ho & Hd & Hl).
      rewrite Hi, Hp, Ho, Hd, Hl. split; [apply lookup_delete_eq |].
      split; [intros g Hg; rewrite lookup_delete_ne, lookup_insert_ne
                by congruence; auto |].
      split; [auto |]. split; [auto | eauto].
    - destruct Hdl as (df & d & replies & Hi & Hp & Hd & Hrep & Hl).
      rewrite Hi, Hp, Hd, Hl. split; [apply lookup_delete_eq |].
      split; [intros g Hg; rewrite lookup_delete_ne by congruence; auto |].
      split; [| split; [intros g; apply Hgrow | eauto]].
      destruct Hrep as [[_ ->] | (rf & rd & _ & ->)]; [auto |].
      intros g. apply Hgrow. }
  destruct (rename_to_processing f q) as [q1|] eqn:Hr.
  - apply rename_to_processing_Some in Hr
      as (c' & _ & Hi1 & Hp1 & Ho1 & Hd1 & Hl1).
    destruct (Hstep q1 q' Hpm) as (Hnone & Hother & Hout & Hdead & ops & Hl).
    split; [exact Hnone |]. split; [| split; [| split]].
    + intros g Hg. destruct (Hother g Hg) as [Hp Hi]. rewrite Hp, Hi, Hp1, Hi1.
      rewrite lookup_insert_ne, lookup_delete_ne by congruence. auto.
    + intros g Hg. apply Hout. rewrite Ho1. exact Hg.
    + intros g Hg. apply Hdead. rewrite Hd1. exact Hg.
    + rewrite Hl, Hl1, <- app_assoc. eauto.
  - apply Hstep. auto.
Qed.

End MessageHandling.

Section MessageHandlingExample.
Import Js Types Config Runner Outbound Store Processor Example.


Lemma processMessage_frame_witness :
  match processed_text "hello" with
  | Some (_, q') => processing q' !! "m.json" = None
  | None => False
  end.
Proof.
  destruct (processed_text "hello") as [[w' q']|] eqn:E;
    [| vm_compute in E; discriminate].
  destruct (processMessage_frame toy_host 10 "m.json" 5000%Z w' _ q' E)
    as [Hnone _].
  exact Hnone.
Defined.

End MessageHandlingExample.

Section FailureSignatures.
Import Js Types Runner Example.

Lemma toLowerCase_append (a b : string) :
  toLowerCase (a ++ b) = toLowerCase a ++ toLowerCase b.
Proof.
  induction a as [|c a IH]; [reflexivity |].
  rewrite append_cons. cbn [toLowerCase]. rewrite IH. reflexivity.
Qed.

Lemma lower_char_idem (c : ascii) : lower_char (lower_char c) = lower_char c.
Proof.
  destruct c as [[] [] [] [] [] [] [] []]; vm_compute; reflexivity.
Qed.

Lemma toLowerCase_idem (s : string) : toLowerCase (toLowerCase s) = toLowerCase s.
Proof.
  induction s as [|c s IH]; [reflexivity |].
  cbn [toLowerCase]. rewrite lower_char_idem, IH. reflexivity.
Qed.

(** The classification of a container failure looks for its signatures
    anywhere in the error output and without regard to case: output that
    is terminal stays terminal whatever is printed before or after it, and
    lower-casing the output does not change its class. *)
Theorem classifyContainerFailure_stable (stderr before after : string) :
  (classifyContainerFailure stderr = terminal ->
   classifyContainerFailure (before ++ stderr ++ after) = terminal) /\
  classifyContainerFailure (toLowerCase stderr) =
  classifyContainerFailure stderr.
Proof.
  split.
  - intros Ht. apply classify_terminal_iff in Ht as (p & Hp & pre & post & Hocc).
    apply classify_terminal_iff. exists p. split; [exact Hp |].
    rewrite !toLowerCase_append, Hocc.
    exists (toLowerCase before ++ pre), (post ++ toLowerCase after).
    rewrite !append_assoc. reflexivity.
  - unfold classifyContainerFailure. rewrite toLowerCase_idem. reflexivity.
Qed.

Lemma classifyContainerFailure_stable_witness :
  classifyContainerFailure
    ("docker: " ++ "Error response: INVALID REFERENCE FORMAT" ++ ". See --help")
  = terminal.
Proof.
  destruct (classifyContainerFailure_stable
              "Error response: INVALID REFERENCE FORMAT" "docker: "
              ". See --help") as [Hkeep _].
  apply Hkeep. reflexivity.
Defined.

End FailureSignatures.

Section QueueDispatch.
Import Js Types Config Runner Outbound Store Processor Dispatch Example.
Variable H : Host.

Lemma or_str_empty (s : string) : or_str (Some s) EmptyString = s.
Proof. destruct s; reflexivity. Qed.

Lemma deliver_agent (f : string) (ctx : ErrCtx) (agentId finalResponse : string)
    (allPathMappings : list SandboxPathMapping) (w : World H) (q1 : Queue) :
  is_Some (processing q1 !! f) ->
  exists q3 responseFile responseData,
    deliver H f ctx agentId finalResponse allPathMappings w q1 = Completed w q3 /\
    outgoing q3 !! responseFile = Some responseData /\
    r_agent responseData = Some agentId.
Proof.
  intros [c Hc]. unfold deliver.
  destruct (attachFiles (existsSync H w) finalResponse allPathMappings)
    as [text parsedFiles].
  unfold unlink_processing. cbn [writeOutgoingResponse processing]. rewrite Hc.
  do 3 eexists. split; [reflexivity |]. cbn [outgoing].
  split; [apply lookup_insert_eq | reflexivity].
Qed.

(** The agent under which the polling loop files a message is the agent
    that [processMessage] then runs for it, as long as the settings read
    the same: when [peekAgentId] names a configured agent other than
    "error" (and no agent has the empty name), the response written for
    the message carries that agent, and so does the context of any error
    raised on the way. *)
Theorem peekAgentId_is_the_agent_run (fuel : nat) (f : string) (w : World H)
    (q : Queue) (m : MessageData) (o : Outcome (World H)) :
  let agents := getAgents (homedir H) (getSettings (readSettings H w)) in
  let peeked := peekAgentId H w (incoming q !! f) in
  incoming q !! f = Some (MessageFile m) ->
  is_Some (get agents peeked) ->
  peeked <> "error" ->
  get agents EmptyString = None ->
  tryBlock H fuel f w q = Some o ->
  match o with
  | Completed _ q' =>
      exists responseFile responseData,
        outgoing q' !! responseFile = Some responseData /\
        r_agent responseData = Some peeked
  | Thrown _ ctx _ _ => agentIdForError ctx = Some peeked
  end.
Proof.
  cbv zeta. intros Hin. rewrite Hin. unfold peekAgentId, tryBlock.
  unfold rename_to_processing. rewrite Hin. cbn [processing].
  rewrite lookup_insert_eq.
  set (q1 := {| incoming := delete f (incoming q) |}).
  assert (is_Some (processing q1 !! f)) as Hsome
    by (subst q1; cbn [processing]; rewrite lookup_insert_eq; eauto).
  clearbody q1.
  cbn [with_defaults agent message sender channel messageId].
  rewrite or_str_empty.
  set (settings := getSettings (readSettings H w)).
  set (agents := getAgents (homedir H) settings).
  set (teams := getTeams settings).
  set (preRouted := match agent m with
                    | Some (String c a) =>
                        match get agents (String c a) with
                        | Some _ => Some (String c a)
                        | None => None
                        end
                    | _ => None
                    end).
  set (routing := parseAgentRouting H (message m) agents teams).
  assert (forall agentId msg isTeamRouted,
            is_Some (get agents agentId) -> agentId <> "error" ->
            (if String.eqb agentId "error" then
               let q2 :=
                 writeOutgoingResponse (now H w) (channel m) (sender m) msg
                   (message m) (messageId m) None None q1 in
               match unlink_processing f q2 with
               | Some q3 => Some (Completed w q3)
               | None =>
                   Some (Thrown (JsError (Some "ENOENT")
                                   "no such file or directory, unlink")
                           {| messageData := Some (with_defaults (now H w) m);
                              Processor.settings := settings;
                              agentIdForError := None;
                              rawMessageForError := message m;
                              senderForError := sender m;
                              channelForError := channel m;
                              messageIdForError := messageId m |} w q2)
               end
             else
               let '(agentId, msg) :=
                 match get agents agentId with
                 | Some _ => (agentId, msg)
                 | None => ("default", message m)
                 end in
               let agentId :=
                 match get agents agentId with
                 | Some _ => agentId
                 | None => match keys agents with k :: _ => k | [] => "undefined" end
                 end in
               let ctx2 := {|
                 messageData := Some (with_defaults (now H w) m);
                 Processor.settings := settings;
                 agentIdForError := Some agentId;
                 rawMessageForError := message m;
                 senderForError := sender m;
                 channelForError := channel m;
                 messageIdForError := messageId m |} in
               match get agents agentId with
               | None =>
                   Some (Thrown (JsError None "Cannot read properties of undefined")
                           ctx2 w q1)
               | Some agent =>
                   let teamContext := teamContextOf H isTeamRouted agentId teams in
                   let agentResetFlag :=
                     getAgentResetFlag H agentId
                       (or_str (workspace_path settings)
                          (Path.join2 (homedir H) "tinyclaw-workspace")) in
                   let '(shouldReset, w1) := consumeReset H agentResetFlag w in
                   match teamContext with
                   | None =>
                       let '(w2, r) :=
                         invokeAgent H w1 agent agentId msg
                           (or_str (workspace_path settings)
                              (Path.join2 (homedir H) "tinyclaw-workspace"))
                           shouldReset agents teams settings in
                       match r with
                       | inl e => Some (Thrown e ctx2 w2 q1)
                       | inr result =>
                           Some (deliver H f ctx2 agentId (inv_response result)
                                   (inv_pathMappings result) w2 q1)
                       end
                   | Some (teamId, team) =>
                       match chainLoop H
                               (or_str (workspace_path settings)
                                  (Path.join2 (homedir H) "tinyclaw-workspace"))
                               agents teams settings teamId shouldReset
                               fuel w1 [] [] agentId msg with
                       | None => None
                       | Some (w2, inl e) => Some (Thrown e ctx2 w2 q1)
                       | Some (w2, inr (chainSteps, allPathMappings)) =>
                           Some (deliver H f ctx2 agentId (aggregate chainSteps)
                                   allPathMappings w2 q1)
                       end
                   end
               end) = Some o ->
            match o with
            | Completed _ q' =>
                exists responseFile responseData,
                  outgoing q' !! responseFile = Some responseData /\
                  r_agent responseData = Some agentId
            | Thrown _ ctx _ _ => agentIdForError ctx = Some agentId
            end) as Hrun.
  { intros agentId msg isTeamRouted [agent Hagent] Hne.
    destruct (String.eqb_spec agentId "error") as [-> | _]; [congruence |].
    repeat (progress (rewrite ?Hagent; cbv beta iota zeta)).
    destruct (consumeReset H _ w) as [shouldReset w1].
    destruct (teamContextOf H isTeamRouted agentId teams) as [[teamId team]|].
    - destruct (chainLoop H _ agents teams settings teamId shouldReset fuel w1
                  [] [] agentId msg)
        as [[w2 [e | [chainSteps allPathMappings]]]|]; [| | discriminate].
      + intros Ho. injection Ho as <-. reflexivity.
      + match goal with
        | |- context [deliver H f ?ctx ?a ?r ?mp ?w' q1] =>
            destruct (deliver_agent f ctx a r mp w' q1 Hsome)
              as (q3 & rf & rd & -> & Hout & Hag)
        end.
        intros Ho. injection Ho as <-. eauto.
    - destruct (invokeAgent H w1 agent agentId msg _ shouldReset agents teams
                  settings) as [w2 [e | result]].
      + intros Ho. injection Ho as <-. reflexivity.
      + match goal with
        | |- context [deliver H f ?ctx ?a ?r ?mp ?w' q1] =>
            destruct (deliver_agent f ctx a r mp w' q1 Hsome)
              as (q3 & rf & rd & -> & Hout & Hag)
        end.
        intros Ho. injection Ho as <-. eauto. }
  destruct preRouted as [a|].
  - intros Hcfg Hne _. apply Hrun; assumption.
  - intros Hcfg Hne Hempty.
    destruct (rt_agentId routing) as [|c r] eqn:Hid.
    + cbn [or_str] in *. destruct Hcfg as [agent Hagent].
      specialize (Hrun "default" (message m) (rt_isTeam routing)
                    (ex_intro _ agent Hagent) Hne).
      change (String.eqb EmptyString "error") with false.
      change (String.eqb "default" "error") with false in Hrun.
      repeat (progress (rewrite ?Hempty, ?Hagent; cbv beta iota zeta)).
      repeat (progress (rewrite ?Hagent in Hrun; cbv beta iota zeta in Hrun)).
      exact Hrun.
    + cbn [or_str] in *. apply Hrun; assumption.
Qed.

End QueueDispatch.

Section QueueDispatchExample.
Import Js Types Config Runner Outbound Store Processor Dispatch Example.

Lemma peekAgentId_is_the_agent_run_witness :
  let q := queue_with "m.json" (MessageFile (toy_message "m1" "@coder hi" None)) in
  match tryBlock toy_host 10 "m.json" 5000%Z q with
  | Some (Completed _ q') =>
      exists responseFile responseData,
        outgoing q' !! responseFile = Some responseData /\
        r_agent responseData =
          Some (peekAgentId toy_host 5000%Z (incoming q !! "m.json"))
  | _ => False
  end.
Proof.
  cbv zeta.
  destruct (tryBlock toy_host 10 "m.json" 5000%Z
              (queue_with "m.json"
                 (MessageFile (toy_message "m1" "@coder hi" None))))
    as [[w' q' | e ctx w' q']|] eqn:E;
    try (vm_compute in E; discriminate).
  apply (peekAgentId_is_the_agent_run toy_host 10 "m.json" 5000%Z
           (queue_with "m.json" (MessageFile (toy_message "m1" "@coder hi" None)))
           (toy_message "m1" "@coder hi" None) (Completed w' q')).
  - apply lookup_insert_eq.
  - vm_compute. eauto.
  - intros Heq. vm_compute in Heq. discriminate.
  - vm_compute. reflexivity.
  - exact E.
Defined.

End QueueDispatchExample.
